(** * Mixture log-probability rewrites of [pymc.logprob.mixture]

    A verification development for [src/pymc/logprob/mixture.py]:

    - [Graph]: the symbolic graph (variables, apply nodes, operation tags)
      and the rewriters that recognise mixtures
      ([find_measurable_index_mixture], [find_measurable_switch_mixture],
      [split_valued_ifelse]);
    - [Tensor]: the values the graphs compute (shape and entries), the
      tensor primitives the module calls, [expand_indices] and the
      log-density derivations ([logprob_MixtureRV],
      [logprob_switch_mixture], [logprob_ifelse]) read as functions of the
      values of their inputs. *)

From Stdlib Require Import String.
From Stdlib Require Import List ZArith Lia Bool Arith PeanoNat Permutation Sorted.
Import ListNotations.

(** ** Python exceptions and fallible computations *)

Inductive exception : Type :=
| AttributeError
| IndexError
| ValueError
| AssertionError
| TypeError.

Inductive result (A : Type) : Type :=
| Return (a : A)
| Raise (e : exception).

Arguments Return {A} a.
Arguments Raise {A} e.

Definition bind {A B : Type} (c : result A) (k : A -> result B) : result B :=
  match c with
  | Return a => k a
  | Raise e => Raise e
  end.

Notation "x <- c ;; k" := (bind c (fun x => k))
  (at level 61, c at next level, right associativity).

Definition py_assert (b : bool) : result unit :=
  if b then Return tt else Raise AssertionError.

(** [seq[i]] for a non-negative [i]. *)
Definition getitem {A : Type} (l : list A) (i : nat) : result A :=
  match nth_error l i with
  | Some a => Return a
  | None => Raise IndexError
  end.

(** [str.startswith]. *)
Definition startswith (s pre : string) : bool := String.prefix pre s.

Module Graph.

(** ** Data model: types, operation tags, variables and apply nodes *)

Inductive VType : Type :=
| TensorType (dtype : string) (broadcastable : list bool)
| SliceType
| NoneTypeT
| OtherType (name : string).

Inductive Data : Type :=
| DInt (z : Z)
| DSlice (start stop step : option Z)
| DNone.

Inductive Op : Type :=
| MakeVector
| Join
| PromisedValuedRV
| ValuedRV
| Subtensor
| AdvancedSubtensor
| AdvancedSubtensor1
| MixtureRV (indices_end_idx : nat) (out_dtype : string)
            (out_broadcastable : list bool)
| Switch
| MeasurableSwitchMixture
| IfElse (n_outs : nat)
| MeasurableIfElse (n_outs : nat)
| OtherOp (name : string) (measurable : bool).

(** A variable is a graph input, a constant, or the [i]-th output of an
    apply node; the node is the variable's [owner]. *)
Inductive variable : Type :=
| Input (vid : nat) (ty : VType)
| Constant (ty : VType) (data : Data)
| Out (node : Apply) (i : nat)
with Apply : Type :=
| mkApply (op : Op) (inputs : list variable) (out_types : list VType).

Definition op (n : Apply) : Op := let 'mkApply o _ _ := n in o.
Definition inputs (n : Apply) : list variable := let 'mkApply _ i _ := n in i.
Definition out_types (n : Apply) : list VType := let 'mkApply _ _ t := n in t.

Definition outputs (n : Apply) : list variable :=
  map (Out n) (seq 0 (length (out_types n))).

Definition owner (v : variable) : option Apply :=
  match v with
  | Out n _ => Some n
  | _ => None
  end.

Definition NoneConst : variable := Constant NoneTypeT DNone.

(** [v.type]; an output index past the node's outputs has no type. *)
Definition type (v : variable) : result VType :=
  match v with
  | Input _ ty => Return ty
  | Constant ty _ => Return ty
  | Out n i => getitem (out_types n) i
  end.

(** [v.dtype] / [v.type.broadcastable]: only tensor types carry them. *)
Definition dtype (v : variable) : result string :=
  ty <- type v ;;
  match ty with
  | TensorType dt _ => Return dt
  | _ => Raise AttributeError
  end.

Definition broadcastable (v : variable) : result (list bool) :=
  ty <- type v ;;
  match ty with
  | TensorType _ bc => Return bc
  | _ => Raise AttributeError
  end.

Definition isinstance_Constant (v : variable) : bool :=
  match v with
  | Constant _ _ => true
  | _ => false
  end.

Definition isinstance_SliceConstant (v : variable) : bool :=
  match v with
  | Constant SliceType _ => true
  | _ => false
  end.

(** [isinstance(op, MeasurableOp)]: [MixtureRV], [MeasurableSwitchMixture]
    and [MeasurableIfElse] derive from [MeasurableOp]; any other operation
    records whether its class does. *)
Definition isinstance_MeasurableOp (o : Op) : bool :=
  match o with
  | MixtureRV _ _ _ => true
  | MeasurableSwitchMixture => true
  | MeasurableIfElse _ => true
  | OtherOp _ m => m
  | _ => false
  end.

Definition isinstance_Advanced (o : Op) : bool :=
  match o with
  | AdvancedSubtensor | AdvancedSubtensor1 => true
  | _ => false
  end.

(** [node.default_output()] of a node without a [default_output]
    attribute: its only output. *)
Definition default_output (n : Apply) : result variable :=
  match out_types n with
  | [_] => Return (Out n 0)
  | _ => Raise ValueError
  end.

(** *** Structural equality, the model of object identity *)

Definition option_eqb {A : Type} (eqb : A -> A -> bool) (x y : option A) : bool :=
  match x, y with
  | Some a, Some b => eqb a b
  | None, None => true
  | _, _ => false
  end.

Fixpoint list_eqb {A : Type} (eqb : A -> A -> bool) (l1 l2 : list A) : bool :=
  match l1, l2 with
  | [], [] => true
  | a :: r1, b :: r2 => eqb a b && list_eqb eqb r1 r2
  | _, _ => false
  end.

Definition VType_eqb (t u : VType) : bool :=
  match t, u with
  | TensorType d b, TensorType d' b' => String.eqb d d' && list_eqb Bool.eqb b b'
  | SliceType, SliceType => true
  | NoneTypeT, NoneTypeT => true
  | OtherType s, OtherType s' => String.eqb s s'
  | _, _ => false
  end.

Definition Data_eqb (d e : Data) : bool :=
  match d, e with
  | DInt z, DInt z' => Z.eqb z z'
  | DSlice a b c, DSlice a' b' c' =>
      option_eqb Z.eqb a a' && option_eqb Z.eqb b b' && option_eqb Z.eqb c c'
  | DNone, DNone => true
  | _, _ => false
  end.

Definition Op_eqb (o p : Op) : bool :=
  match o, p with
  | MakeVector, MakeVector => true
  | Join, Join => true
  | PromisedValuedRV, PromisedValuedRV => true
  | ValuedRV, ValuedRV => true
  | Subtensor, Subtensor => true
  | AdvancedSubtensor, AdvancedSubtensor => true
  | AdvancedSubtensor1, AdvancedSubtensor1 => true
  | MixtureRV n d b, MixtureRV n' d' b' =>
      Nat.eqb n n' && String.eqb d d' && list_eqb Bool.eqb b b'
  | Switch, Switch => true
  | MeasurableSwitchMixture, MeasurableSwitchMixture => true
  | IfElse n, IfElse n' => Nat.eqb n n'
  | MeasurableIfElse n, MeasurableIfElse n' => Nat.eqb n n'
  | OtherOp s m, OtherOp s' m' => String.eqb s s' && Bool.eqb m m'
  | _, _ => false
  end.

Fixpoint Variable_eqb (x y : variable) {struct x} : bool :=
  match x, y with
  | Input i t, Input j u => Nat.eqb i j && VType_eqb t u
  | Constant t d, Constant u e => VType_eqb t u && Data_eqb d e
  | Out n i, Out m j => Apply_eqb n m && Nat.eqb i j
  | _, _ => false
  end
with Apply_eqb (n m : Apply) {struct n} : bool :=
  match n, m with
  | mkApply o ins ts, mkApply o' ins' ts' =>
      Op_eqb o o'
      && (fix go (l1 l2 : list variable) {struct l1} : bool :=
            match l1, l2 with
            | [], [] => true
            | a :: r1, b :: r2 => Variable_eqb a b && go r1 r2
            | _, _ => false
            end) ins ins'
      && list_eqb VType_eqb ts ts'
  end.

(** Membership and set comparison as [set(...)] on variables decides them. *)
Definition mem (v : variable) (l : list variable) : bool :=
  existsb (Variable_eqb v) l.

Definition set_eq (l1 l2 : list variable) : bool :=
  forallb (fun v => mem v l2) l1 && forallb (fun v => mem v l1) l2.

Definition set_intersects (l1 l2 : list variable) : bool :=
  existsb (fun v => mem v l2) l1.

(** ** Example graphs

    Two normal draws stacked by [MakeVector] and indexed by a Bernoulli
    draw, by an integer vector and by a boolean vector; a [switch] and a
    two-output [IfElse] over the same draws. *)

Definition float_scalar : VType := TensorType "float64" [].
Definition float_vector : VType := TensorType "float64" [false].
Definition rng_type : VType := OtherType "RandomGeneratorType".

Definition random_draw (name : string) (rng : nat) (params : list variable)
    (ty : VType) : variable :=
  Out (mkApply (OtherOp name true) (Input rng rng_type :: params) [rng_type; ty]) 1.

Definition X_rv : variable := random_draw "normal_rv" 1 [] float_scalar.
Definition Y_rv : variable := random_draw "normal_rv" 2 [] float_scalar.
Definition I_rv : variable :=
  random_draw "bernoulli_rv" 3 [] (TensorType "int64" []).

Definition stacked : variable :=
  Out (mkApply MakeVector [X_rv; Y_rv] [float_vector]) 0.

Definition scalar_index_node : Apply :=
  mkApply Subtensor [stacked; I_rv] [float_scalar].

Definition int_vector_index_node : Apply :=
  mkApply AdvancedSubtensor1
          [stacked; Input 4 (TensorType "int64" [false])] [float_vector].

Definition bool_vector_index_node : Apply :=
  mkApply AdvancedSubtensor
          [stacked; Input 5 (TensorType "bool" [false])] [float_vector].

Definition switch_node : Apply :=
  mkApply Switch [Input 6 (TensorType "bool" []); X_rv; Y_rv] [float_scalar].

Definition example_subtensor_ops (o : Op) : bool :=
  match o with
  | Subtensor | AdvancedSubtensor | AdvancedSubtensor1 => true
  | _ => false
  end.

Definition example_constant_fold (v : variable) : option Z :=
  match v with
  | Constant _ (DInt z) => Some z
  | _ => None
  end.

Definition example_potential_measurability (l : list variable) : bool :=
  existsb (fun v => match v with Out _ _ => true | _ => false end) l.

Definition example_elemwise_out_type (l : list variable) : VType := float_scalar.

(** A conditional with two valued outputs: the branches of the second
    output are drawn around the then-branch of the first. *)
Definition Z_rv : variable := random_draw "normal_rv" 7 [X_rv] float_scalar.
Definition W_rv : variable := random_draw "normal_rv" 8 [] float_scalar.
Definition if_cond : variable := Input 9 (TensorType "bool" []).

Definition ifelse_node : Apply :=
  mkApply (IfElse 2) [if_cond; X_rv; Z_rv; Y_rv; W_rv] [float_scalar; float_scalar].

Definition valued_node (rv : variable) (value : nat) : Apply :=
  mkApply ValuedRV [rv; Input value float_scalar] [float_scalar].

Definition example_valued_nodes (node : Apply) (fgraph : unit) : list Apply :=
  [valued_node (Out node 1) 11; valued_node (Out node 0) 10].

Definition owner_node (v : variable) : Apply :=
  match v with
  | Out n _ => n
  | _ => mkApply Join [] []
  end.

Definition example_toposort (fgraph : unit) : list Apply :=
  [owner_node X_rv; owner_node Y_rv; owner_node Z_rv; owner_node W_rv;
   ifelse_node; valued_node (Out ifelse_node 0) 10;
   valued_node (Out ifelse_node 1) 11].

(** The same conditional with the outputs swapped: the branch of the
    remaining output is an ancestor of the first pair. *)
Definition swapped_ifelse_node : Apply :=
  mkApply (IfElse 2) [if_cond; Z_rv; X_rv; Y_rv; W_rv] [float_scalar; float_scalar].

Definition swapped_toposort (fgraph : unit) : list Apply :=
  [owner_node X_rv; owner_node Z_rv; owner_node Y_rv; owner_node W_rv;
   swapped_ifelse_node].

(** ** The index-mixture and switch-mixture rewriters *)

Section Rewriters.

Set Default Proof Using "Type".

(** [pymc.logprob.rewriting.subtensor_ops]: the operation classes the
    index-mixture rewriter is registered for. *)
Variable subtensor_ops : Op -> bool.

(** [pymc.pytensorf.constant_fold((v,), raise_not_constant=False)]: the
    folded value of [v] when [v] folds to a constant. *)
Variable constant_fold : variable -> option Z.

(** [pymc.logprob.utils.check_potential_measurability]. *)
Variable check_potential_measurability : list variable -> bool.

(** The output type [Elemwise.make_node] computes from the inputs of a
    [switch]. *)
Variable elemwise_out_type : list variable -> VType.

(** Modelled from the spec: [pymc.logprob.utils.filter_measurable_variables]
    is not part of the source file; the spec has it "filter a list down to
    those carrying the Measurability Tag", the tag being carried by the
    operation of the variable's owner. *)
Definition filter_measurable_variables (inputs : list variable) : list variable :=
  filter (fun inp =>
            match owner inp with
            | Some n => isinstance_MeasurableOp (op n)
            | None => false
            end) inputs.

(** [pt.as_tensor(x, dtype="int64")] of the outcome of [constant_fold]: a
    folded value becomes a tensor constant, a variable is returned as is. *)
Definition as_tensor_int64 (folded : option Z) (v : variable) : variable :=
  match folded with
  | Some z => Constant (TensorType "int64" []) (DInt z)
  | None => v
  end.

(** [rv.owner.inputs[0] if rv.owner and isinstance(rv.owner.op,
    PromisedValuedRV) else rv]. *)
Definition unwrap_promised (rv : variable) : result variable :=
  match owner rv with
  | Some n =>
      match op n with
      | PromisedValuedRV => getitem (inputs n) 0
      | _ => Return rv
      end
  | None => Return rv
  end.

Fixpoint mapM {A B : Type} (f : A -> result B) (l : list A) : result (list B) :=
  match l with
  | [] => Return []
  | a :: r => b <- f a ;; bs <- mapM f r ;; Return (b :: bs)
  end.

Definition get_stack_mixture_vars (node : Apply)
  : result (option (list variable) * option variable) :=
  _ <- py_assert (subtensor_ops (op node)) ;;
  joined_rvs <- getitem (inputs node) 0 ;;
  match owner joined_rvs with
  | None => Return (None, None)
  | Some joined =>
      match op joined with
      | MakeVector =>
          let join_axis := NoneConst in
          mixture_rvs <- mapM unwrap_promised (inputs joined) ;;
          Return (Some mixture_rvs, Some join_axis)
      | Join =>
          join_axis <- getitem (inputs joined) 0 ;;
          let join_axis := as_tensor_int64 (constant_fold join_axis) join_axis in
          mixture_rvs <- mapM unwrap_promised (skipn 1 (inputs joined)) ;;
          Return (Some mixture_rvs, Some join_axis)
      | _ => Return (None, None)
      end
  end.

(** [sum(1 - b for b in broadcastable)]. *)
Definition count_non_broadcastable (bc : list bool) : Z :=
  fold_right (fun b acc => (1 - Z.b2z b) + acc)%Z 0%Z bc.

(** The generator handed to [any] at lines 291-295, consumed in order and
    stopped at the first true element. *)
Fixpoint any_repeating_index (mixing_indices : list variable) : result bool :=
  match mixing_indices with
  | [] => Return false
  | indices :: rest =>
      if isinstance_SliceConstant indices then any_repeating_index rest
      else
        dt <- dtype indices ;;
        if startswith dt "int" then
          bc <- broadcastable indices ;;
          if (0 <? count_non_broadcastable bc)%Z then Return true
          else any_repeating_index rest
        else any_repeating_index rest
  end.

(** [MixtureRV.make_node]. *)
Definition MixtureRV_make_node (indices_end_idx : nat) (out_dtype : string)
    (out_broadcastable : list bool) (ins : list variable) : Apply :=
  mkApply (MixtureRV indices_end_idx out_dtype out_broadcastable) ins
          [TensorType out_dtype out_broadcastable].

(** The rewriter proper.  [pytensor.config.compute_test_value] is ["off"],
    its default, so no test value is copied. *)
Definition find_measurable_index_mixture (node : Apply)
  : result (option (list variable)) :=
  let mixing_indices := skipn 1 (inputs node) in
  repeating <- (if isinstance_Advanced (op node)
                then any_repeating_index mixing_indices
                else Return false) ;;
  if repeating then Return None
  else
    old_mixture_rv <- default_output node ;;
    vars <- get_stack_mixture_vars node ;;
    match vars with
    | (Some mixture_rvs, Some join_axis) =>
        if negb (isinstance_Constant join_axis) then Return None
        else if negb (set_eq (filter_measurable_variables mixture_rvs) mixture_rvs)
        then Return None
        else
          out_dtype <- dtype old_mixture_rv ;;
          out_broadcastable <- broadcastable old_mixture_rv ;;
          let new_node :=
            MixtureRV_make_node (1 + length mixing_indices) out_dtype
              out_broadcastable (join_axis :: mixing_indices ++ mixture_rvs) in
          new_mixture_rv <- default_output new_node ;;
          Return (Some [new_mixture_rv])
    | _ => Return None
    end.

(** The generator handed to [any] at line 419. *)
Fixpoint any_broadcast_differs (out_bcast : list bool) (components : list variable)
  : result bool :=
  match components with
  | [] => Return false
  | comp :: rest =>
      bc <- broadcastable comp ;;
      if negb (list_eqb Bool.eqb bc out_bcast) then Return true
      else any_broadcast_differs out_bcast rest
  end.

(** [measurable_switch_mixture] applied to the inputs: the output of a new
    [MeasurableSwitchMixture] node. *)
Definition measurable_switch_mixture (ins : list variable) : variable :=
  Out (mkApply MeasurableSwitchMixture ins [elemwise_out_type ins]) 0.

Definition find_measurable_switch_mixture (node : Apply)
  : result (option (list variable)) :=
  if isinstance_MeasurableOp (op node) then Return None
  else
    match inputs node with
    | [] => Raise ValueError
    | switch_cond :: components =>
        out0 <- getitem (outputs node) 0 ;;
        out_bcast <- broadcastable out0 ;;
        differs <- any_broadcast_differs out_bcast components ;;
        if differs then Return None
        else if negb (set_eq (filter_measurable_variables components) components)
        then Return None
        else if check_potential_measurability [switch_cond] then Return None
        else Return (Some [measurable_switch_mixture (switch_cond :: components)])
    end.

(** ** The splitter of multi-output conditionals *)

(** The function graph owned by the rewrite engine, its topological order
    ([FunctionGraph.toposort]) and
    [pymc.logprob.utils.get_related_valued_nodes]. *)
Variable FunctionGraph : Type.
Variable toposort : FunctionGraph -> list Apply.
Variable get_related_valued_nodes : Apply -> FunctionGraph -> list Apply.

(** [op.n_outs]. *)
Definition n_outs (o : Op) : result nat :=
  match o with
  | IfElse n | MeasurableIfElse n => Return n
  | _ => Raise AttributeError
  end.

(** [list.index]. *)
Fixpoint index {A : Type} (eqb : A -> A -> bool) (x : A) (l : list A) : result nat :=
  match l with
  | [] => Raise ValueError
  | a :: r => if eqb a x then Return 0 else i <- index eqb x r ;; Return (S i)
  end.

(** [pytensor.ifelse.ifelse] on one pair of branches and on lists of
    branches; the outputs take the types of the then-branches. *)
Definition ifelse (cond then_branch else_branch : variable) : result variable :=
  ty <- type then_branch ;;
  Return (Out (mkApply (IfElse 1) [cond; then_branch; else_branch] [ty]) 0).

Definition ifelse_list (cond : variable) (then_branch else_branch : list variable)
  : result (list variable) :=
  tys <- mapM type then_branch ;;
  Return (outputs (mkApply (IfElse (length then_branch))
                           (cond :: then_branch ++ else_branch) tys)).

(** [pymc.logprob.abstract.valued_rv], the [ValuedRV] operation applied to
    a variable and its value. *)
Definition valued_rv (rv value : variable) : result variable :=
  ty <- type rv ;;
  Return (Out (mkApply ValuedRV [rv; value] [ty]) 0).

(** [pytensor.graph.basic.ancestors]: the variables that contribute to the
    given ones, themselves included. *)
Fixpoint ancestors_of (v : variable) : list variable :=
  v :: match v with
       | Out n _ => ancestors_of_node n
       | _ => []
       end
with ancestors_of_node (n : Apply) : list variable :=
  match n with
  | mkApply _ ins _ =>
      (fix go (l : list variable) : list variable :=
         match l with
         | [] => []
         | a :: r => ancestors_of a ++ go r
         end) ins
  end.

Definition ancestors (graphs : list variable) : list variable :=
  flat_map ancestors_of graphs.

Definition has_owner (v : variable) : bool :=
  match owner v with
  | Some _ => true
  | None => false
  end.

(** The height of a graph. *)
Fixpoint height (v : variable) : nat :=
  match v with
  | Out n _ => S (height_node n)
  | _ => 0
  end
with height_node (n : Apply) : nat :=
  match n with
  | mkApply _ ins _ =>
      (fix go (l : list variable) : nat :=
         match l with
         | [] => 0
         | a :: r => Nat.max (height a) (go r)
         end) ins
  end.

(** *** Graphs rewired in place

    A function graph built with [clone=False] shares its nodes with the
    graphs it was built from, and [FunctionGraph.replace] assigns to
    [node.inputs[i]].  A variable or a node is named by the term it was
    built as; the input slots assigned since are kept beside, the latest
    first. *)
Definition slot : Type := (Apply * nat)%type.

Definition rewiring : Type := list (slot * variable).

Definition slot_eqb (s t : slot) : bool :=
  Apply_eqb (fst s) (fst t) && Nat.eqb (snd s) (snd t).

Fixpoint assigned (h : rewiring) (s : slot) : option variable :=
  match h with
  | [] => None
  | (t, v) :: r => if slot_eqb t s then Some v else assigned r s
  end.

(** [node.inputs] as it stands. *)
Definition node_inputs (h : rewiring) (n : Apply) : list variable :=
  map (fun iv => match assigned h (n, fst iv) with
                 | Some w => w
                 | None => snd iv
                 end)
      (combine (seq 0 (length (inputs n))) (inputs n)).

(** The input slots of the nodes a variable is computed from, with the
    variables they hold: the entries [fgraph.clients] has for the nodes
    under one output.  The traversal goes as deep as [fuel]. *)
Fixpoint clients (fuel : nat) (h : rewiring) (v : variable) : list (slot * variable) :=
  match fuel with
  | 0 => []
  | S fuel' =>
      match v with
      | Out n _ =>
          let ins := node_inputs h n in
          combine (map (pair n) (seq 0 (length ins))) ins
          ++ flat_map (clients fuel' h) ins
      | _ => []
      end
  end.

(** A function graph over shared nodes: the slots assigned so far and the
    outputs. *)
Definition shared_fgraph : Type := (rewiring * list variable)%type.

(** [fgraph.replace(var, new_var)]: every input slot of a node of the graph
    that holds [var], and every output that is [var], is assigned
    [new_var]; nothing is done when [var] is not in the graph. *)
Definition fgraph_replace (fuel : nat) (var new_var : variable)
    (fgraph : shared_fgraph) : shared_fgraph :=
  let '(h, outs) := fgraph in
  let holding := filter (fun sv => Variable_eqb (snd sv) var)
                        (flat_map (clients fuel h) outs) in
  (map (fun sv => (fst sv, new_var)) holding ++ h,
   map (fun o => if Variable_eqb o var then new_var else o) outs).

(** A variable id no input of the given graphs uses, for a new variable. *)
Fixpoint max_vid (v : variable) : nat :=
  match v with
  | Input i _ => i
  | Constant _ _ => 0
  | Out n _ => max_vid_node n
  end
with max_vid_node (n : Apply) : nat :=
  match n with
  | mkApply _ ins _ =>
      (fix go (l : list variable) : nat :=
         match l with
         | [] => 0
         | a :: r => Nat.max (max_vid a) (go r)
         end) ins
  end.

Definition fresh_vid (graphs : list variable) : nat :=
  S (fold_right (fun v acc => Nat.max (max_vid v) acc) 0 graphs).

(** [sorted(items, key=...)] on items paired with their keys: a stable
    sort in increasing key order. *)
Fixpoint insert_sorted {A : Type} (x : nat * A) (l : list (nat * A)) : list (nat * A) :=
  match l with
  | [] => [x]
  | y :: r => if fst x <=? fst y then x :: l else y :: insert_sorted x r
  end.

Fixpoint sorted {A : Type} (l : list (nat * A)) : list (nat * A) :=
  match l with
  | [] => []
  | x :: r => insert_sorted x (sorted r)
  end.

(** [d[k] = v] on a dictionary kept in insertion order. *)
Fixpoint dict_set (d : list (variable * variable)) (k v : variable)
  : list (variable * variable) :=
  match d with
  | [] => [(k, v)]
  | (k', v') :: r =>
      if Variable_eqb k' k then (k', v) :: r else (k', v') :: dict_set r k v
  end.

(** A valued output with its branches:
    [(then_outputs[rv_idx], else_outputs[rv_idx], value, valued_out)]. *)
Definition valued_branch : Type := (variable * variable * variable * variable)%type.

Definition branch_then (x : valued_branch) : variable := fst (fst (fst x)).
Definition branch_else (x : valued_branch) : variable := snd (fst (fst x)).
Definition branch_value (x : valued_branch) : variable := snd (fst x).
Definition branch_valued_out (x : valued_branch) : variable := snd x.

(** The body of the loop at lines 481-492. *)
Definition then_else_valued_output (node : Apply)
    (then_outputs else_outputs : list variable) (valued_output_node : Apply)
  : result valued_branch :=
  match inputs valued_output_node, outputs valued_output_node with
  | [rv; value], [valued_out] =>
      rv_idx <- index Variable_eqb rv (outputs node) ;;
      then_out <- getitem then_outputs rv_idx ;;
      else_out <- getitem else_outputs rv_idx ;;
      Return (then_out, else_out, value, valued_out)
  | _, _ => Raise ValueError
  end.

(** [toposort.index(v.owner)]. *)
Definition toposort_index (order : list Apply) (v : variable) : result nat :=
  match owner v with
  | Some n => index Apply_eqb n order
  | None => Raise ValueError
  end.

(** The sort key of line 497. *)
Definition sort_key (order : list Apply) (x : valued_branch) : result nat :=
  i <- toposort_index order (branch_then x) ;;
  j <- toposort_index order (branch_else x) ;;
  Return (Nat.max i j).

Definition with_key (order : list Apply) (x : valued_branch)
  : result (nat * valued_branch) :=
  k <- sort_key order x ;; Return (k, x).

(** Lines 524-528: bind every rebuilt output to its value. *)
Fixpoint bind_remaining (replacements : list (variable * variable))
    (remaining_ifelses : list variable) (remaining_vars : list valued_branch)
  : result (list (variable * variable)) :=
  match remaining_ifelses, remaining_vars with
  | remaining_ifelse :: ifelses, x :: vars =>
      remaining_valued_ifelse <- valued_rv remaining_ifelse (branch_value x) ;;
      bind_remaining
        (dict_set replacements (branch_valued_out x) remaining_valued_ifelse)
        ifelses vars
  | _, _ => Return replacements
  end.

(** Lines 500-530: the sorted valued outputs are unpacked into the first
    one and the remaining ones, the first gets a conditional of its own and
    the remaining ones are regrouped.  The result is the dictionary returned
    and the input slots the three [replace] calls have assigned.  The
    temporary graph is traversed as deep as its outputs were built, which
    reaches all its nodes as long as the variables assigned are inputs of
    the graph, as the dummy is. *)
Definition split_first (cond : variable) (then_else_valued_outputs : list valued_branch)
  : result (option (list (variable * variable) * rewiring)) :=
  match then_else_valued_outputs with
  | [] => Raise ValueError
  | first :: remaining_vars =>
      first_ifelse <- ifelse cond (branch_then first) (branch_else first) ;;
      first_valued_ifelse <- valued_rv first_ifelse (branch_value first) ;;
      let replacements := [(branch_valued_out first, first_valued_ifelse)] in
      match remaining_vars with
      | [] => Return (Some (replacements, []))
      | _ =>
          let first_ifelse_ancestors :=
            filter has_owner (ancestors [branch_then first; branch_else first]) in
          let remaining_thens := map branch_then remaining_vars in
          let remaininng_elses := map branch_else remaining_vars in
          if set_intersects (remaining_thens ++ remaininng_elses)
                            first_ifelse_ancestors
          then Return None
          else
            remaining_ifelses <- ifelse_list cond remaining_thens remaininng_elses ;;
            ty <- type first_valued_ifelse ;;
            let dummy_first_valued_ifelse :=
              Input (fresh_vid (first_valued_ifelse :: remaining_ifelses)) ty in
            let temp_fgraph : shared_fgraph :=
              ([], remaining_ifelses ++ [dummy_first_valued_ifelse]) in
            let depth := S (list_max (map height (snd temp_fgraph))) in
            let temp_fgraph :=
              fgraph_replace depth (branch_then first) dummy_first_valued_ifelse
                             temp_fgraph in
            let temp_fgraph :=
              fgraph_replace depth (branch_else first) dummy_first_valued_ifelse
                             temp_fgraph in
            let temp_fgraph :=
              fgraph_replace depth dummy_first_valued_ifelse first_valued_ifelse
                             temp_fgraph in
            replacements <- bind_remaining replacements remaining_ifelses remaining_vars ;;
            Return (Some (replacements, fst temp_fgraph))
      end
  end.

(** The run of the splitter: the dictionary it returns and the input slots
    it has assigned in the shared graph. *)
Definition split_valued_ifelse_run (fgraph : FunctionGraph) (node : Apply)
  : result (option (list (variable * variable) * rewiring)) :=
  n <- n_outs (op node) ;;
  if Nat.eqb n 1 then Return None
  else
    let valued_output_nodes := get_related_valued_nodes node fgraph in
    match valued_output_nodes, inputs node with
    | [], _ => Return None
    | _, [] => Raise ValueError
    | _, cond :: all_outputs =>
        let then_outputs := firstn n all_outputs in
        let else_outputs := skipn n all_outputs in
        then_else_valued_outputs <-
          mapM (then_else_valued_output node then_outputs else_outputs)
               valued_output_nodes ;;
        keyed <- mapM (with_key (toposort fgraph)) then_else_valued_outputs ;;
        split_first cond (map snd (sorted keyed))
    end.

(** What [split_valued_ifelse] returns. *)
Definition split_valued_ifelse (fgraph : FunctionGraph) (node : Apply)
  : result (option (list (variable * variable))) :=
  r <- split_valued_ifelse_run fgraph node ;;
  Return (option_map fst r).

(** ** The if-else mixture rewriter *)

(** [MeasurableIfElse(n_outs=n)(if_var, then_rv, else_rv, return_list=True)]:
    [IfElse.make_node] wants two branches for every output, and gives the
    outputs the types of the then-branches. *)
Definition measurable_ifelse (n : nat) (if_var then_rv else_rv : variable)
  : result (list variable) :=
  if Nat.eqb (2 * n) 2 then
    ty <- type then_rv ;;
    Return (outputs (mkApply (MeasurableIfElse n) [if_var; then_rv; else_rv] [ty]))
  else Raise ValueError.

Definition find_measurable_ifelse_mixture (node : Apply)
  : result (option (list variable)) :=
  if isinstance_MeasurableOp (op node) then Return None
  else
    n <- n_outs (op node) ;;
    if 1 <? n then Return None
    else
      match inputs node with
      | [if_var; then_rv; else_rv] =>
          if check_potential_measurability [if_var] then Return None
          else if negb (Nat.eqb (length (filter_measurable_variables [then_rv; else_rv])) 2)
          then Return None
          else outs <- measurable_ifelse n if_var then_rv else_rv ;; Return (Some outs)
      | _ => Raise ValueError
      end.

Definition first_branch : valued_branch :=
  (X_rv, Y_rv, Input 10 float_scalar, Out (valued_node (Out ifelse_node 0) 10) 0).

Definition swapped_first_branch : valued_branch :=
  (Z_rv, Y_rv, Input 10 float_scalar,
   Out (valued_node (Out swapped_ifelse_node 0) 10) 0).

Definition swapped_second_branch : valued_branch :=
  (X_rv, W_rv, Input 11 float_scalar,
   Out (valued_node (Out swapped_ifelse_node 1) 11) 0).

(** *** The vocabulary of the statements *)

Definition is_measurable (v : variable) : bool :=
  match owner v with
  | Some n => isinstance_MeasurableOp (op n)
  | None => false
  end.

(** An index the guard can read: a slice constant or a tensor. *)
Definition typed_index (v : variable) : bool :=
  isinstance_SliceConstant v
  || match type v with
     | Return (TensorType _ _) => true
     | _ => false
     end.

(** A wrapped component has the wrapped variable as its first input. *)
Definition wrapped_ok (rv : variable) : bool :=
  match owner rv with
  | Some n =>
      match op n with
      | PromisedValuedRV => negb (Nat.eqb (length (inputs n)) 0)
      | _ => true
      end
  | None => true
  end.

(** The nodes the rewriter is run on: an indexing node of [subtensor_ops]
    with one output, an indexed variable followed by readable indices, and
    operands of the concatenation laid out as [Join], [MakeVector] and
    [PromisedValuedRV] build them. *)
Definition well_formed_index_node (node : Apply) : bool :=
  subtensor_ops (op node)
  && Nat.eqb (length (out_types node)) 1
  && match inputs node with
     | [] => false
     | joined_rvs :: mixing_indices =>
         forallb typed_index mixing_indices
         && match owner joined_rvs with
            | None => true
            | Some joined =>
                forallb wrapped_ok (inputs joined)
                && match op joined with
                   | Join => negb (Nat.eqb (length (inputs joined)) 0)
                   | _ => true
                   end
            end
     end.

(** A non-scalar integer-array index: not a slice constant, a dtype whose
    name starts with ["int"], and a dimension that is not broadcastable. *)
Definition repeating_int_index (v : variable) : Prop :=
  isinstance_SliceConstant v = false
  /\ exists dt bc, type v = Return (TensorType dt bc)
                   /\ startswith dt "int" = true
                   /\ In false bc.

(** The four ways an indexing node misses the preconditions. *)
Inductive misses_precondition (node : Apply) : Prop :=
| repeated_selection :
    isinstance_Advanced (op node) = true ->
    Exists repeating_int_index (skipn 1 (inputs node)) ->
    misses_precondition node
| symbolic_join_axis joined_rvs joined join_axis comps :
    nth_error (inputs node) 0 = Some joined_rvs ->
    owner joined_rvs = Some joined ->
    op joined = Join ->
    inputs joined = join_axis :: comps ->
    constant_fold join_axis = None ->
    isinstance_Constant join_axis = false ->
    misses_precondition node
| not_a_concatenation joined_rvs :
    nth_error (inputs node) 0 = Some joined_rvs ->
    (forall joined, owner joined_rvs = Some joined ->
                    op joined <> MakeVector /\ op joined <> Join) ->
    misses_precondition node
| unmeasurable_component joined_rvs joined comps :
    nth_error (inputs node) 0 = Some joined_rvs ->
    owner joined_rvs = Some joined ->
    (op joined = MakeVector /\ mapM unwrap_promised (inputs joined) = Return comps
     \/ op joined = Join
        /\ mapM unwrap_promised (skipn 1 (inputs joined)) = Return comps) ->
    Exists (fun rv => is_measurable rv = false) comps ->
    misses_precondition node.

(** The indices the guard lets through. *)
Inductive passes_guard (v : variable) : Prop :=
| boolean_array bc :
    type v = Return (TensorType "bool" bc) -> passes_guard v
| slice_constant :
    isinstance_SliceConstant v = true -> passes_guard v
| scalar_integer dt bc :
    type v = Return (TensorType dt bc) ->
    startswith dt "int" = true ->
    Forall (fun b => b = true) bc ->
    passes_guard v.

(** ** Properties of the rewriters *)

Lemma bind_Return {A B : Type} (c : result A) (k : A -> result B) (b : B) :
  bind c k = Return b -> exists a, c = Return a /\ k a = Return b.
Proof.
  destruct c as [a|e]; simpl; intros H.
  - exists a; split; [reflexivity | exact H].
  - discriminate H.
Qed.

Lemma list_eqb_refl {A : Type} (eqb : A -> A -> bool) (l : list A) :
  (forall a, eqb a a = true) -> list_eqb eqb l l = true.
Proof.
  intros Hr. induction l as [|a l IH]; simpl; [reflexivity|].
  rewrite Hr, IH. reflexivity.
Qed.

Lemma VType_eqb_refl (t : VType) : VType_eqb t t = true.
Proof.
  destruct t; simpl; try reflexivity.
  - rewrite String.eqb_refl. simpl. apply list_eqb_refl. intros []; reflexivity.
  - apply String.eqb_refl.
Qed.

Lemma Data_eqb_refl (d : Data) : Data_eqb d d = true.
Proof.
  destruct d as [z|a b c|]; simpl; try reflexivity.
  - apply Z.eqb_refl.
  - destruct a, b, c; simpl; rewrite ?Z.eqb_refl; reflexivity.
Qed.

Lemma Op_eqb_refl (o : Op) : Op_eqb o o = true.
Proof.
  destruct o; simpl; rewrite ?Nat.eqb_refl, ?String.eqb_refl; try reflexivity.
  - simpl. apply list_eqb_refl. intros []; reflexivity.
  - simpl. destruct measurable; reflexivity.
Qed.

Fixpoint Variable_eqb_refl (v : variable) : Variable_eqb v v = true
with Apply_eqb_refl (n : Apply) : Apply_eqb n n = true.
Proof.
  - destruct v as [i t|t d|n i]; simpl.
    + rewrite Nat.eqb_refl, VType_eqb_refl. reflexivity.
    + rewrite VType_eqb_refl, Data_eqb_refl. reflexivity.
    + rewrite Apply_eqb_refl, Nat.eqb_refl. reflexivity.
  - destruct n as [o ins ts]; simpl.
    rewrite Op_eqb_refl, (list_eqb_refl VType_eqb ts VType_eqb_refl).
    rewrite andb_true_r. simpl.
    induction ins as [|a ins IH]; [reflexivity|].
    rewrite Variable_eqb_refl. exact IH.
Qed.

Lemma Op_eqb_measurable (o p : Op) :
  Op_eqb o p = true -> isinstance_MeasurableOp o = isinstance_MeasurableOp p.
Proof.
  destruct o, p; simpl; try discriminate; try reflexivity.
  intros H. apply andb_true_iff in H. destruct H as [_ H].
  apply Bool.eqb_prop in H. exact H.
Qed.

Lemma Variable_eqb_measurable (x y : variable) :
  Variable_eqb x y = true -> is_measurable x = is_measurable y.
Proof.
  destruct x as [i t|t d|n i], y as [j u|u e|m j]; simpl; try discriminate;
    try reflexivity.
  intros H. apply andb_true_iff in H. destruct H as [H _].
  destruct n as [o ins ts], m as [o' ins' ts']. simpl in H.
  apply andb_true_iff in H. destruct H as [H _].
  apply andb_true_iff in H. destruct H as [H _].
  unfold is_measurable. simpl. apply Op_eqb_measurable. exact H.
Qed.

Lemma mem_refl (v : variable) (l : list variable) : In v l -> mem v l = true.
Proof.
  intros H. unfold mem. apply existsb_exists. exists v. split; [exact H|].
  apply Variable_eqb_refl.
Qed.

Lemma filter_measurable_all (l : list variable) :
  forallb is_measurable l = true -> filter_measurable_variables l = l.
Proof.
  unfold filter_measurable_variables.
  induction l as [|a l IH]; simpl; [reflexivity|].
  intros H. apply andb_true_iff in H. destruct H as [Ha Hl].
  unfold is_measurable in Ha. rewrite Ha, (IH Hl). reflexivity.
Qed.

(** [set(filter_measurable_variables(l)) == set(l)] holds exactly when
    every variable of [l] is measurable. *)
Lemma set_eq_filter_measurable (l : list variable) :
  set_eq (filter_measurable_variables l) l = forallb is_measurable l.
Proof.
  destruct (forallb is_measurable l) eqn:Hall.
  - rewrite (filter_measurable_all l Hall). unfold set_eq.
    assert (H : forallb (fun v => mem v l) l = true).
    { apply forallb_forall. intros v Hv. apply mem_refl. exact Hv. }
    rewrite H. reflexivity.
  - unfold set_eq. apply andb_false_iff. right.
    apply not_true_is_false. intros H.
    rewrite forallb_forall in H.
    assert (Hc : forallb is_measurable l = true).
    { apply forallb_forall. intros v Hv. specialize (H v Hv).
      unfold mem in H. apply existsb_exists in H. destruct H as [w [Hw Heq]].
      unfold filter_measurable_variables in Hw. apply filter_In in Hw.
      destruct Hw as [_ Hw]. rewrite (Variable_eqb_measurable v w Heq).
      exact Hw. }
    rewrite Hc in Hall. discriminate.
Qed.

Lemma forallb_measurable_false (l : list variable) :
  Exists (fun rv => is_measurable rv = false) l ->
  forallb is_measurable l = false.
Proof.
  induction 1 as [a l Ha|a l _ IH]; simpl.
  - rewrite Ha. reflexivity.
  - rewrite IH. apply andb_false_r.
Qed.

(** *** The repeated-index guard *)

Lemma count_non_broadcastable_cons (b : bool) (bc : list bool) :
  count_non_broadcastable (b :: bc)
  = (1 - Z.b2z b + count_non_broadcastable bc)%Z.
Proof. reflexivity. Qed.

Lemma count_non_broadcastable_nonneg (bc : list bool) :
  (0 <= count_non_broadcastable bc)%Z.
Proof.
  induction bc as [|b bc IH]; [cbn; lia|].
  rewrite count_non_broadcastable_cons. destruct b; cbn [Z.b2z]; lia.
Qed.

Lemma count_non_broadcastable_pos (bc : list bool) :
  (0 <? count_non_broadcastable bc)%Z = true <-> In false bc.
Proof.
  rewrite Z.ltb_lt. induction bc as [|b bc IH].
  - cbn. split; [lia | intros []].
  - rewrite count_non_broadcastable_cons.
    pose proof (count_non_broadcastable_nonneg bc) as Hn.
    destruct b; cbn [Z.b2z In].
    + replace (1 - 1 + count_non_broadcastable bc)%Z
        with (count_non_broadcastable bc) by lia.
      rewrite IH. split; [intros H; right; exact H|].
      intros [H|H]; [discriminate H | exact H].
    + split; [intros _; left; reflexivity | intros _; lia].
Qed.

Lemma typed_index_cases (v : variable) :
  typed_index v = true ->
  isinstance_SliceConstant v = true
  \/ exists dt bc, type v = Return (TensorType dt bc).
Proof.
  unfold typed_index. intros H. apply orb_true_iff in H.
  destruct H as [H|H]; [left; exact H|]. right.
  destruct (type v) as [[dt bc| | |]|]; try discriminate H.
  exists dt, bc. reflexivity.
Qed.

Lemma any_repeating_index_true (l : list variable) :
  any_repeating_index l = Return true -> Exists repeating_int_index l.
Proof.
  induction l as [|v l IH]; simpl; [discriminate|].
  destruct (isinstance_SliceConstant v) eqn:Hs.
  - intros H. apply Exists_cons_tl. apply IH. exact H.
  - unfold dtype, broadcastable.
    destruct (type v) as [[dt bc| | |]|] eqn:Ht; simpl; try discriminate.
    destruct (startswith dt "int") eqn:Hd.
    + destruct (0 <? count_non_broadcastable bc)%Z eqn:Hc.
      * intros _. apply Exists_cons_hd. split; [exact Hs|].
        exists dt, bc. repeat split; try assumption.
        apply count_non_broadcastable_pos. exact Hc.
      * intros H. apply Exists_cons_tl. apply IH. exact H.
    + intros H. apply Exists_cons_tl. apply IH. exact H.
Qed.

Lemma any_repeating_index_found (l : list variable) :
  forallb typed_index l = true ->
  Exists repeating_int_index l ->
  any_repeating_index l = Return true.
Proof.
  induction l as [|v l IH]; simpl; intros Ht Hex.
  - inversion Hex.
  - apply andb_true_iff in Ht. destruct Ht as [Hv Hl].
    assert (Htail : repeating_int_index v \/ Exists repeating_int_index l).
    { inversion Hex; subst; [left|right]; assumption. }
    destruct (isinstance_SliceConstant v) eqn:Hs.
    + destruct Htail as [[Hns _]|Htail]; [congruence|]. apply IH; assumption.
    + destruct (typed_index_cases v Hv) as [Hc|[dt [bc Hty]]]; [congruence|].
      unfold dtype, broadcastable. rewrite Hty. simpl.
      destruct (startswith dt "int") eqn:Hd.
      * destruct (0 <? count_non_broadcastable bc)%Z eqn:Hc; [reflexivity|].
        destruct Htail as [[_ [dt' [bc' [Hty' [_ Hin]]]]]|Htail].
        -- rewrite Hty in Hty'. injection Hty' as <- <-.
           apply count_non_broadcastable_pos in Hin. congruence.
        -- apply IH; assumption.
      * destruct Htail as [[_ [dt' [bc' [Hty' [Hd' _]]]]]|Htail].
        -- rewrite Hty in Hty'. injection Hty' as <- <-. congruence.
        -- apply IH; assumption.
Qed.

Lemma any_repeating_index_total (l : list variable) :
  forallb typed_index l = true -> exists b, any_repeating_index l = Return b.
Proof.
  induction l as [|v l IH]; simpl; intros Ht.
  - exists false. reflexivity.
  - apply andb_true_iff in Ht. destruct Ht as [Hv Hl].
    destruct (isinstance_SliceConstant v) eqn:Hs; [apply IH; exact Hl|].
    destruct (typed_index_cases v Hv) as [Hc|[dt [bc Hty]]]; [congruence|].
    unfold dtype, broadcastable. rewrite Hty. simpl.
    destruct (startswith dt "int").
    + destruct (0 <? count_non_broadcastable bc)%Z;
        [exists true; reflexivity | apply IH; exact Hl].
    + apply IH; exact Hl.
Qed.

Lemma all_broadcastable_count (bc : list bool) :
  Forall (fun b => b = true) bc -> count_non_broadcastable bc = 0%Z.
Proof.
  induction 1 as [|b bc Hb _ IH]; [reflexivity|].
  rewrite count_non_broadcastable_cons, Hb, IH. reflexivity.
Qed.

Lemma any_repeating_index_passes (l : list variable) :
  Forall passes_guard l -> any_repeating_index l = Return false.
Proof.
  induction 1 as [|v l Hv _ IH]; simpl; [reflexivity|].
  destruct (isinstance_SliceConstant v) eqn:Hs; [exact IH|].
  destruct Hv as [bc Hty|Hc|dt bc Hty Hd Hall].
  - unfold dtype. rewrite Hty. simpl. exact IH.
  - congruence.
  - unfold dtype, broadcastable. rewrite Hty. simpl. rewrite Hd.
    rewrite (all_broadcastable_count bc Hall). simpl. exact IH.
Qed.

Lemma passes_guard_typed (l : list variable) :
  Forall passes_guard l -> forallb typed_index l = true.
Proof.
  induction 1 as [|v l Hv _ IH]; simpl; [reflexivity|].
  rewrite IH, andb_true_r. unfold typed_index.
  destruct Hv as [bc Hty|Hc|dt bc Hty _ _].
  - rewrite Hty. apply orb_true_r.
  - rewrite Hc. reflexivity.
  - rewrite Hty. apply orb_true_r.
Qed.

(** *** Unwrapping of the components *)

Lemma unwrap_promised_total (rv : variable) :
  wrapped_ok rv = true -> exists rv', unwrap_promised rv = Return rv'.
Proof.
  unfold wrapped_ok, unwrap_promised.
  destruct (owner rv) as [n|]; [|exists rv; reflexivity].
  destruct (op n); try (exists rv; reflexivity).
  unfold getitem. destruct (inputs n) as [|a ins]; simpl; [discriminate|].
  intros _. exists a. reflexivity.
Qed.

Lemma mapM_unwrap_total (l : list variable) :
  forallb wrapped_ok l = true -> exists l', mapM unwrap_promised l = Return l'.
Proof.
  induction l as [|a l IH]; simpl; intros H.
  - exists []. reflexivity.
  - apply andb_true_iff in H. destruct H as [Ha Hl].
    destruct (unwrap_promised_total a Ha) as [a' ->].
    destruct (IH Hl) as [l' ->]. simpl. exists (a' :: l'). reflexivity.
Qed.

Lemma unwrap_promised_measurable (rv : variable) :
  is_measurable rv = true -> unwrap_promised rv = Return rv.
Proof.
  unfold is_measurable, unwrap_promised.
  destruct (owner rv) as [n|]; [|reflexivity].
  destruct (op n); simpl; try reflexivity. discriminate.
Qed.

Lemma mapM_unwrap_measurable (l : list variable) :
  forallb is_measurable l = true -> mapM unwrap_promised l = Return l.
Proof.
  induction l as [|a l IH]; simpl; intros H; [reflexivity|].
  apply andb_true_iff in H. destruct H as [Ha Hl].
  rewrite (unwrap_promised_measurable a Ha), (IH Hl). reflexivity.
Qed.

Lemma forallb_skipn {A : Type} (f : A -> bool) (k : nat) (l : list A) :
  forallb f l = true -> forallb f (skipn k l) = true.
Proof.
  revert l. induction k as [|k IH]; intros l H; simpl; [exact H|].
  destruct l as [|a l]; [reflexivity|].
  simpl in H. apply andb_true_iff in H. apply IH. tauto.
Qed.

(** *** The index-mixture rewriter *)

Lemma default_output_single (node : Apply) :
  Nat.eqb (length (out_types node)) 1 = true ->
  default_output node = Return (Out node 0).
Proof.
  unfold default_output. destruct (out_types node) as [|ty [|ty' tys]]; simpl;
    try discriminate. reflexivity.
Qed.

(** The component a stacked operand stands for: the variable a
    [PromisedValuedRV] wraps, the operand itself otherwise. *)
Inductive component_of : variable -> variable -> Prop :=
| wrapped_component n i rv rest :
    op n = PromisedValuedRV -> inputs n = rv :: rest ->
    component_of (Out n i) rv
| plain_component rv :
    (forall n, owner rv = Some n -> op n <> PromisedValuedRV) ->
    component_of rv rv.

Lemma unwrap_promised_component (operand rv : variable) :
  component_of operand rv -> unwrap_promised operand = Return rv.
Proof.
  intros [n i rv' rest Hop Hins | rv' Hplain]; unfold unwrap_promised.
  - cbn [owner]. rewrite Hop, Hins. reflexivity.
  - destruct (owner rv') as [n|] eqn:E; [|reflexivity].
    specialize (Hplain n eq_refl). destruct (op n); try reflexivity. congruence.
Qed.

Lemma mapM_unwrap_unmeasurable (operands : list variable) :
  forallb wrapped_ok operands = true ->
  Exists (fun operand => exists rv, component_of operand rv
                                    /\ is_measurable rv = false) operands ->
  exists comps,
    mapM unwrap_promised operands = Return comps
    /\ forallb is_measurable comps = false.
Proof.
  intros Hok Hex. destruct (mapM_unwrap_total operands Hok) as [comps Hcomps].
  exists comps. split; [exact Hcomps|].
  revert comps Hok Hcomps.
  induction Hex as [a l [rv [Hrv Hm]]|a l _ IH]; intros comps Hok Hcomps;
    cbn [mapM] in Hcomps; apply bind_Return in Hcomps;
    destruct Hcomps as [b [Hb Hcomps]]; apply bind_Return in Hcomps;
    destruct Hcomps as [bs [Hbs Hcomps]]; injection Hcomps as <-;
    cbn [forallb].
  - rewrite (unwrap_promised_component a rv Hrv) in Hb. injection Hb as <-.
    rewrite Hm. reflexivity.
  - cbn [forallb] in Hok. apply andb_true_iff in Hok. destruct Hok as [_ Hok].
    rewrite (IH bs Hok Hbs). apply andb_false_r.
Qed.

Lemma any_repeating_index_first (before after : list variable) (indices : variable) :
  forallb typed_index before = true ->
  repeating_int_index indices ->
  any_repeating_index (before ++ indices :: after) = Return true.
Proof.
  intros Hbefore [Hns [dt [bc [Hty [Hd Hin]]]]].
  apply count_non_broadcastable_pos in Hin.
  induction before as [|v l IH]; cbn [app any_repeating_index].
  - rewrite Hns. unfold dtype, broadcastable. rewrite Hty. cbn [bind].
    rewrite Hd, Hin. reflexivity.
  - cbn [forallb] in Hbefore. apply andb_true_iff in Hbefore.
    destruct Hbefore as [Hv Hl]. specialize (IH Hl).
    destruct (isinstance_SliceConstant v) eqn:Hs; [exact IH|].
    destruct (typed_index_cases v Hv) as [Hc|[dt' [bc' Hty']]]; [congruence|].
    unfold dtype, broadcastable. rewrite Hty'. cbn [bind].
    destruct (startswith dt' "int"); [|exact IH].
    destruct (0 <? count_non_broadcastable bc')%Z; [reflexivity | exact IH].
Qed.

(** Past the guard, the rewriter matches only if [get_stack_mixture_vars]
    finds components that are all measurable and a constant join axis. *)
Lemma no_match_past_guard (node : Apply) :
  (isinstance_Advanced (op node) = true ->
   forallb typed_index (skipn 1 (inputs node)) = true) ->
  length (out_types node) = 1 ->
  (get_stack_mixture_vars node = Return (None, None)
   \/ exists rvs ax,
        get_stack_mixture_vars node = Return (Some rvs, Some ax)
        /\ (isinstance_Constant ax = false \/ forallb is_measurable rvs = false)) ->
  find_measurable_index_mixture node = Return None.
Proof.
  intros Hguard Hout Hvars. unfold find_measurable_index_mixture.
  assert (Hg : exists b,
             (if isinstance_Advanced (op node)
              then any_repeating_index (skipn 1 (inputs node))
              else Return false) = Return b).
  { destruct (isinstance_Advanced (op node)).
    - apply any_repeating_index_total. apply Hguard. reflexivity.
    - exists false. reflexivity. }
  destruct Hg as [b ->]. cbn [bind]. destruct b; [reflexivity|].
  rewrite (default_output_single node) by (apply Nat.eqb_eq; exact Hout).
  cbn [bind].
  destruct Hvars as [-> | [rvs [ax [-> Hmiss]]]]; [reflexivity|]. cbn [bind].
  destruct Hmiss as [-> | Hm]; [reflexivity|].
  destruct (negb (isinstance_Constant ax)); [reflexivity|].
  rewrite set_eq_filter_measurable, Hm. reflexivity.
Qed.


(** C7, as amended: a successful match returns one [MixtureRV] placeholder
    whose [indices_end_idx] is one more than the number of index arguments,
    whose dtype and broadcast pattern are those of the indexing node's
    output, and whose inputs are the join axis, then the indices, then the
    components; so [indices_end_idx] is at least 1 and the components, the
    inputs from [indices_end_idx] on, number the inputs less
    [indices_end_idx]. *)
Theorem find_measurable_index_mixture_placeholder
    (node : Apply) (r : list variable) :
  find_measurable_index_mixture node = Return (Some r) ->
  exists old_mixture_rv join_axis mixture_rvs out_dtype out_broadcastable,
    let mixing_indices := skipn 1 (inputs node) in
    let indices_end_idx := 1 + length mixing_indices in
    let new_inputs := join_axis :: mixing_indices ++ mixture_rvs in
    default_output node = Return old_mixture_rv
    /\ dtype old_mixture_rv = Return out_dtype
    /\ broadcastable old_mixture_rv = Return out_broadcastable
    /\ get_stack_mixture_vars node = Return (Some mixture_rvs, Some join_axis)
    /\ r = [Out (mkApply (MixtureRV indices_end_idx out_dtype out_broadcastable)
                         new_inputs
                         [TensorType out_dtype out_broadcastable]) 0]
    /\ 1 <= indices_end_idx
    /\ firstn indices_end_idx new_inputs = join_axis :: mixing_indices
    /\ skipn indices_end_idx new_inputs = mixture_rvs
    /\ length mixture_rvs = length new_inputs - indices_end_idx.
Proof.
  unfold find_measurable_index_mixture. intros H.
  apply bind_Return in H. destruct H as [b [_ H]].
  destruct b; [discriminate H|].
  apply bind_Return in H. destruct H as [old [Hold H]].
  apply bind_Return in H. destruct H as [[rvs ax] [Hvars H]].
  destruct rvs as [mixture_rvs|]; [|discriminate H].
  destruct ax as [join_axis|]; [|discriminate H].
  destruct (negb (isinstance_Constant join_axis)); [discriminate H|].
  destruct (negb (set_eq (filter_measurable_variables mixture_rvs) mixture_rvs));
    [discriminate H|].
  apply bind_Return in H. destruct H as [dt [Hdt H]].
  apply bind_Return in H. destruct H as [bc [Hbc H]].
  cbn in H. injection H as <-.
  exists old, join_axis, mixture_rvs, dt, bc. cbn zeta.
  repeat split; try assumption.
  - lia.
  - cbn [Nat.add firstn]. f_equal.
    rewrite firstn_app, firstn_all, Nat.sub_diag. cbn. apply app_nil_r.
  - cbn [Nat.add skipn]. rewrite skipn_app, skipn_all, Nat.sub_diag. reflexivity.
  - cbn [length]. rewrite length_app. lia.
Qed.

(** C10: the guard answers true only for an index whose dtype starts with
    ["int"] and that has a non-broadcastable dimension; boolean arrays of any
    rank, slice constants and all-broadcastable integer indices pass it, and
    an advanced indexing by such indices of a stack of measurable components
    is matched as a mixture. *)
Theorem repeated_index_guard (l : list variable) :
  (any_repeating_index l = Return true -> Exists repeating_int_index l)
  /\ (Forall passes_guard l -> any_repeating_index l = Return false)
  /\ (forall node joined_rvs stack comps dt bc,
         isinstance_Advanced (op node) = true ->
         subtensor_ops (op node) = true ->
         inputs node = joined_rvs :: l ->
         out_types node = [TensorType dt bc] ->
         owner joined_rvs = Some stack ->
         op stack = MakeVector ->
         inputs stack = comps ->
         forallb is_measurable comps = true ->
         Forall passes_guard l ->
         find_measurable_index_mixture node
         = Return (Some [Out (MixtureRV_make_node (1 + length l) dt bc
                                (NoneConst :: l ++ comps)) 0])).
Proof.
  split; [apply any_repeating_index_true|].
  split; [apply any_repeating_index_passes|].
  intros node joined_rvs stack comps dt bc Hadv Hops Hins Hout Hown Hop Hcomps
         Hmeas Hpass.
  unfold find_measurable_index_mixture. rewrite Hins, Hadv. cbn [skipn].
  rewrite (any_repeating_index_passes l Hpass). cbn [bind].
  unfold default_output at 1. rewrite Hout. cbn [bind].
  unfold get_stack_mixture_vars. rewrite Hops, Hins.
  cbn [py_assert bind getitem nth_error]. rewrite Hown, Hop, Hcomps.
  rewrite (mapM_unwrap_measurable comps Hmeas).
  cbn [bind isinstance_Constant NoneConst negb].
  rewrite set_eq_filter_measurable, Hmeas. cbn [negb].
  unfold dtype, broadcastable, type. rewrite Hout. cbn. reflexivity.
Qed.

(** *** The switch-mixture rewriter *)

Lemma bool_list_eqb_eq (a b : list bool) :
  list_eqb Bool.eqb a b = true <-> a = b.
Proof.
  revert b. induction a as [|x a IH]; intros [|y b]; simpl;
    try (split; [discriminate | discriminate]); [tauto|].
  rewrite andb_true_iff, IH. split.
  - intros [Hxy ->]. apply Bool.eqb_prop in Hxy. subst. reflexivity.
  - intros H. injection H as -> ->. split; [apply Bool.eqb_reflx | reflexivity].
Qed.

(** The three preconditions of the switch rewriter, for branches with
    broadcast patterns [tbc] and [fbc] and an output with pattern [obc]. *)
Definition switch_preconditions (c t f : variable) (tbc fbc obc : list bool) : Prop :=
  (tbc = obc /\ fbc = obc)
  /\ (is_measurable t = true /\ is_measurable f = true)
  /\ check_potential_measurability [c] = false.

(** C6: on a [switch] node the rewriter answers [None] unless both branches
    have the broadcast pattern of the output, both carry the measurability
    tag and the condition is not potentially measurable; when all three hold
    it answers with one variable, the output of a new node whose operation is
    the measurable switch and whose inputs are the same three: condition,
    true branch, false branch.  A node that is already measurable is
    answered with [None]. *)
Theorem find_measurable_switch_mixture_spec
    (node : Apply) (c t f : variable)
    (odt tdt fdt : string) (obc tbc fbc : list bool) (otys : list VType) :
  inputs node = [c; t; f] ->
  out_types node = TensorType odt obc :: otys ->
  type t = Return (TensorType tdt tbc) ->
  type f = Return (TensorType fdt fbc) ->
  (op node = Switch ->
   switch_preconditions c t f tbc fbc obc ->
   exists new_node,
     find_measurable_switch_mixture node = Return (Some [Out new_node 0])
     /\ op new_node = MeasurableSwitchMixture
     /\ isinstance_MeasurableOp (op new_node) = true
     /\ inputs new_node = [c; t; f]
     /\ out_types new_node = [elemwise_out_type [c; t; f]])
  /\ (op node = Switch ->
      ~ switch_preconditions c t f tbc fbc obc ->
      find_measurable_switch_mixture node = Return None)
  /\ (op node = MeasurableSwitchMixture ->
      find_measurable_switch_mixture node = Return None).
Proof.
  intros Hins Hout Ht Hf.
  assert (Hfind : op node = Switch ->
                  find_measurable_switch_mixture node
                  = if list_eqb Bool.eqb tbc obc && list_eqb Bool.eqb fbc obc
                       && (is_measurable t && is_measurable f)
                       && negb (check_potential_measurability [c])
                    then Return (Some [Out (mkApply MeasurableSwitchMixture [c; t; f]
                                              [elemwise_out_type [c; t; f]]) 0])
                    else Return None).
  { intros Hop. unfold find_measurable_switch_mixture. rewrite Hop, Hins.
    cbn [isinstance_MeasurableOp]. unfold outputs. rewrite Hout.
    cbn [length seq map getitem nth_error bind].
    unfold broadcastable at 1. cbn [type]. rewrite Hout.
    cbn [getitem nth_error bind any_broadcast_differs].
    unfold broadcastable. rewrite Ht, Hf. cbn [bind].
    destruct (list_eqb Bool.eqb tbc obc); cbn [negb andb]; [|reflexivity].
    destruct (list_eqb Bool.eqb fbc obc); cbn [negb andb bind]; [|reflexivity].
    rewrite set_eq_filter_measurable. cbn [forallb].
    rewrite andb_true_r.
    destruct (is_measurable t && is_measurable f); cbn [negb]; [|reflexivity].
    destruct (check_potential_measurability [c]); reflexivity. }
  unfold switch_preconditions. split; [|split].
  - intros Hop [[-> ->] [[Hmt Hmf] Hc]]. rewrite (Hfind Hop), Hmt, Hmf, Hc.
    assert (E : list_eqb Bool.eqb obc obc = true) by (apply bool_list_eqb_eq; reflexivity).
    rewrite E. cbn [andb negb].
    exists (mkApply MeasurableSwitchMixture [c; t; f] [elemwise_out_type [c; t; f]]).
    repeat split.
  - intros Hop Hnot. rewrite (Hfind Hop).
    destruct (list_eqb Bool.eqb tbc obc) eqn:E1; [|reflexivity].
    destruct (list_eqb Bool.eqb fbc obc) eqn:E2; [|reflexivity].
    destruct (is_measurable t) eqn:E3; [|reflexivity].
    destruct (is_measurable f) eqn:E4; [|reflexivity].
    destruct (check_potential_measurability [c]) eqn:E5; [reflexivity|].
    exfalso. apply Hnot. apply bool_list_eqb_eq in E1, E2.
    repeat split; assumption.
  - intros Hop. unfold find_measurable_switch_mixture. rewrite Hop. reflexivity.
Qed.

(** *** Induction on graphs and the equations of the graph traversals *)

Section GraphInduction.

Variable P : variable -> Prop.
Variable Q : Apply -> Prop.
Hypothesis P_Input : forall i ty, P (Input i ty).
Hypothesis P_Constant : forall ty d, P (Constant ty d).
Hypothesis P_Out : forall n i, Q n -> P (Out n i).
Hypothesis Q_mkApply : forall o ins ts, Forall P ins -> Q (mkApply o ins ts).

Fixpoint variable_graph_ind (v : variable) : P v :=
  match v with
  | Input i ty => P_Input i ty
  | Constant ty d => P_Constant ty d
  | Out n i => P_Out n i (Apply_graph_ind n)
  end
with Apply_graph_ind (n : Apply) : Q n :=
  match n with
  | mkApply o ins ts =>
      Q_mkApply o ins ts
        ((fix go (l : list variable) : Forall P l :=
            match l with
            | [] => Forall_nil P
            | a :: r => Forall_cons a (variable_graph_ind a) (go r)
            end) ins)
  end.

End GraphInduction.

Lemma ancestors_of_node_eq (o : Op) (ins : list variable) (ts : list VType) :
  ancestors_of_node (mkApply o ins ts) = flat_map ancestors_of ins.
Proof.
  cbn [ancestors_of_node]. induction ins as [|a ins IH]; [reflexivity|].
  cbn [flat_map]. rewrite <- IH. reflexivity.
Qed.

Lemma max_vid_node_eq (o : Op) (ins : list variable) (ts : list VType) :
  max_vid_node (mkApply o ins ts)
  = fold_right (fun v acc => Nat.max (max_vid v) acc) 0 ins.
Proof.
  cbn [max_vid_node]. induction ins as [|a ins IH]; [reflexivity|].
  cbn [fold_right]. rewrite <- IH. reflexivity.
Qed.

Lemma Apply_eqb_eq_inputs (o o' : Op) (ins ins' : list variable)
    (ts ts' : list VType) :
  Apply_eqb (mkApply o ins ts) (mkApply o' ins' ts')
  = Op_eqb o o' && list_eqb Variable_eqb ins ins' && list_eqb VType_eqb ts ts'.
Proof.
  cbn [Apply_eqb]. f_equal. f_equal.
  revert ins'. induction ins as [|a ins IH]; intros [|b ins']; try reflexivity.
  cbn [list_eqb]. rewrite <- IH. reflexivity.
Qed.

Lemma list_eqb_eq {A : Type} (eqb : A -> A -> bool) (l1 l2 : list A) :
  Forall (fun a => forall b, eqb a b = true -> a = b) l1 ->
  list_eqb eqb l1 l2 = true -> l1 = l2.
Proof.
  intros H. revert l2. induction H as [|a l1 Ha _ IH]; intros [|b l2]; simpl;
    try discriminate; [reflexivity|].
  intros E. apply andb_true_iff in E. destruct E as [E1 E2].
  rewrite (Ha b E1), (IH l2 E2). reflexivity.
Qed.

Lemma all_eq {A : Type} (P : A -> Prop) (l : list A) :
  (forall a, P a) -> Forall P l.
Proof. intros H. induction l; constructor; auto. Qed.

Lemma VType_eqb_eq (t u : VType) : VType_eqb t u = true -> t = u.
Proof.
  destruct t, u; simpl; try discriminate; try reflexivity.
  - intros E. apply andb_true_iff in E. destruct E as [E1 E2].
    apply String.eqb_eq in E1. apply bool_list_eqb_eq in E2. congruence.
  - intros E. apply String.eqb_eq in E. congruence.
Qed.

Lemma option_Z_eqb_eq (a b : option Z) : option_eqb Z.eqb a b = true -> a = b.
Proof.
  destruct a, b; simpl; try discriminate; try reflexivity.
  intros E. apply Z.eqb_eq in E. congruence.
Qed.

Lemma Data_eqb_eq (d e : Data) : Data_eqb d e = true -> d = e.
Proof.
  destruct d, e; simpl; try discriminate; try reflexivity.
  - intros E. apply Z.eqb_eq in E. congruence.
  - intros E. apply andb_true_iff in E. destruct E as [E E3].
    apply andb_true_iff in E. destruct E as [E1 E2].
    apply option_Z_eqb_eq in E1, E2, E3. congruence.
Qed.

Lemma Op_eqb_eq (o p : Op) : Op_eqb o p = true -> o = p.
Proof.
  destruct o, p; simpl; try discriminate; try reflexivity.
  - intros E. apply andb_true_iff in E. destruct E as [E E3].
    apply andb_true_iff in E. destruct E as [E1 E2].
    apply Nat.eqb_eq in E1. apply String.eqb_eq in E2.
    apply bool_list_eqb_eq in E3. congruence.
  - intros E. apply Nat.eqb_eq in E. congruence.
  - intros E. apply Nat.eqb_eq in E. congruence.
  - intros E. apply andb_true_iff in E. destruct E as [E1 E2].
    apply String.eqb_eq in E1. apply Bool.eqb_prop in E2. congruence.
Qed.

(** The structural comparison decides equality. *)
Lemma Variable_eqb_eq (x : variable) : forall y, Variable_eqb x y = true -> x = y.
Proof.
  induction x using variable_graph_ind
    with (Q := fun n => forall m, Apply_eqb n m = true -> n = m).
  - intros [j u| |]; simpl; try discriminate.
    intros E. apply andb_true_iff in E. destruct E as [E1 E2].
    apply Nat.eqb_eq in E1. apply VType_eqb_eq in E2. congruence.
  - intros [|u e|]; simpl; try discriminate.
    intros E. apply andb_true_iff in E. destruct E as [E1 E2].
    apply VType_eqb_eq in E1. apply Data_eqb_eq in E2. congruence.
  - intros [| |m j]; simpl; try discriminate.
    intros E. apply andb_true_iff in E. destruct E as [E1 E2].
    apply Nat.eqb_eq in E2. rewrite (IHx m E1), E2. reflexivity.
  - intros [o' ins' ts'] E. rewrite Apply_eqb_eq_inputs in E.
    apply andb_true_iff in E. destruct E as [E E3].
    apply andb_true_iff in E. destruct E as [E1 E2].
    apply Op_eqb_eq in E1. apply (list_eqb_eq _ _ _ H) in E2.
    apply list_eqb_eq in E3;
      [|apply all_eq; intros a b; apply VType_eqb_eq].
    congruence.
Qed.

Lemma Variable_eqb_false (x y : variable) : x <> y -> Variable_eqb x y = false.
Proof.
  intros H. destruct (Variable_eqb x y) eqn:E; [|reflexivity].
  exfalso. apply H. apply Variable_eqb_eq. exact E.
Qed.

Lemma mem_In (v : variable) (l : list variable) : mem v l = true <-> In v l.
Proof.
  split; [|apply mem_refl].
  unfold mem. intros H. apply existsb_exists in H. destruct H as [w [Hw E]].
  apply Variable_eqb_eq in E. subst. exact Hw.
Qed.

(** *** Ancestors, replacement and fresh identifiers *)

Lemma ancestors_of_Out (n : Apply) (i : nat) :
  ancestors_of (Out n i) = Out n i :: flat_map ancestors_of (inputs n).
Proof.
  destruct n as [o ins ts]. cbn [ancestors_of inputs].
  rewrite <- (ancestors_of_node_eq o ins ts). reflexivity.
Qed.

Lemma ancestors_of_self (v : variable) : In v (ancestors_of v).
Proof. destruct v; cbn [ancestors_of]; left; reflexivity. Qed.

Lemma ancestors_of_input (n : Apply) (i : nat) (x : variable) :
  In x (inputs n) -> In x (ancestors_of (Out n i)).
Proof.
  intros H. rewrite ancestors_of_Out. right. apply in_flat_map.
  exists x. split; [exact H | apply ancestors_of_self].
Qed.

Lemma ancestors_of_trans (c : variable) :
  forall a b, In a (ancestors_of b) -> In b (ancestors_of c) ->
              In a (ancestors_of c).
Proof.
  induction c using variable_graph_ind
    with (Q := fun n => forall a b, In a (ancestors_of b) ->
                                    In b (ancestors_of_node n) ->
                                    In a (ancestors_of_node n)).
  - intros a b Hab [<-|[]]. exact Hab.
  - intros a b Hab [<-|[]]. exact Hab.
  - intros a b Hab Hbc. cbn [ancestors_of] in *.
    destruct Hbc as [<-|Hbc]; [exact Hab|]. right. exact (IHc a b Hab Hbc).
  - intros a b Hab Hbc. rewrite ancestors_of_node_eq in *.
    apply in_flat_map in Hbc. destruct Hbc as [x [Hx Hbx]].
    apply in_flat_map. exists x. split; [exact Hx|].
    rewrite Forall_forall in H. exact (H x Hx a b Hab Hbx).
Qed.

Lemma max_vid_fold_le (l : list variable) (x : variable) :
  In x l -> max_vid x <= fold_right (fun v acc => Nat.max (max_vid v) acc) 0 l.
Proof.
  induction l as [|a l IH]; [intros []|]. cbn [fold_right].
  intros [<-|H]; [lia|]. specialize (IH H). lia.
Qed.

Lemma max_vid_ancestor (b : variable) :
  forall a, In a (ancestors_of b) -> max_vid a <= max_vid b.
Proof.
  induction b using variable_graph_ind
    with (Q := fun n => forall a, In a (ancestors_of_node n) ->
                                  max_vid a <= max_vid_node n).
  - intros a [<-|[]]. lia.
  - intros a [<-|[]]. lia.
  - intros a Ha. cbn [ancestors_of] in Ha. destruct Ha as [<-|Ha]; [lia|].
    cbn [max_vid]. exact (IHb a Ha).
  - intros a Ha. rewrite ancestors_of_node_eq in Ha. rewrite max_vid_node_eq.
    apply in_flat_map in Ha. destruct Ha as [x [Hx Hax]].
    rewrite Forall_forall in H. specialize (H x Hx a Hax).
    pose proof (max_vid_fold_le ins x Hx). lia.
Qed.

Lemma fresh_vid_not_ancestor (graphs : list variable) (ty : VType) (g x : variable) :
  In g graphs -> In x (ancestors_of g) -> x <> Input (fresh_vid graphs) ty.
Proof.
  intros Hg Hx ->. apply max_vid_ancestor in Hx. cbn [max_vid] in Hx.
  pose proof (max_vid_fold_le graphs g Hg) as Hle. unfold fresh_vid in Hx. lia.
Qed.

(** *** The stable sort *)

Definition key_le {A : Type} (x y : nat * A) : Prop := fst x <= fst y.

Lemma insert_sorted_perm {A : Type} (x : nat * A) (l : list (nat * A)) :
  Permutation (x :: l) (insert_sorted x l).
Proof.
  induction l as [|y l IH]; cbn [insert_sorted]; [apply Permutation_refl|].
  destruct (fst x <=? fst y); [apply Permutation_refl|].
  eapply perm_trans; [apply perm_swap|]. apply perm_skip. exact IH.
Qed.

Lemma sorted_perm {A : Type} (l : list (nat * A)) : Permutation l (sorted l).
Proof.
  induction l as [|x l IH]; cbn [sorted]; [apply perm_nil|].
  eapply perm_trans; [apply perm_skip; exact IH | apply insert_sorted_perm].
Qed.

Lemma insert_sorted_sorted {A : Type} (x : nat * A) (l : list (nat * A)) :
  StronglySorted key_le l -> StronglySorted key_le (insert_sorted x l).
Proof.
  induction 1 as [|y l Hl IH Hy]; cbn [insert_sorted].
  - constructor; constructor.
  - destruct (fst x <=? fst y) eqn:E.
    + apply Nat.leb_le in E. constructor; [constructor; assumption|].
      constructor; [exact E|]. rewrite Forall_forall in *.
      intros z Hz. specialize (Hy z Hz). unfold key_le in *. lia.
    + apply Nat.leb_gt in E. constructor; [exact IH|].
      rewrite Forall_forall in *. intros z Hz.
      apply (Permutation_in z (Permutation_sym (insert_sorted_perm x l))) in Hz.
      destruct Hz as [<-|Hz]; [unfold key_le; lia | exact (Hy z Hz)].
Qed.

Lemma sorted_sorted {A : Type} (l : list (nat * A)) :
  StronglySorted key_le (sorted l).
Proof.
  induction l as [|x l IH]; cbn [sorted]; [constructor|].
  apply insert_sorted_sorted. exact IH.
Qed.

(** The first item of the sorted list has the least key. *)
Lemma sorted_head_least {A : Type} (l r : list (nat * A)) (x : nat * A) :
  sorted l = x :: r -> In x l /\ forall y, In y l -> fst x <= fst y.
Proof.
  intros E. pose proof (sorted_perm l) as Hp. pose proof (sorted_sorted l) as Hs.
  rewrite E in Hp, Hs. split.
  - apply (Permutation_in x (Permutation_sym Hp)). left. reflexivity.
  - intros y Hy. apply (Permutation_in y Hp) in Hy.
    destruct Hy as [<-|Hy]; [lia|].
    apply StronglySorted_inv in Hs. destruct Hs as [_ Hs].
    rewrite Forall_forall in Hs. exact (Hs y Hy).
Qed.

(** *** The splitter *)

Lemma mapM_length {A B : Type} (f : A -> result B) (l : list A) (l' : list B) :
  mapM f l = Return l' -> length l' = length l.
Proof.
  revert l'. induction l as [|a l IH]; cbn [mapM]; intros l' H.
  - injection H as <-. reflexivity.
  - apply bind_Return in H. destruct H as [b [_ H]].
    apply bind_Return in H. destruct H as [bs [Hbs H]].
    injection H as <-. cbn [length]. rewrite (IH bs Hbs). reflexivity.
Qed.

Lemma mapM_Forall2 {A B : Type} (f : A -> result B) (l : list A) (l' : list B) :
  mapM f l = Return l' -> Forall2 (fun a b => f a = Return b) l l'.
Proof.
  revert l'. induction l as [|a l IH]; cbn [mapM]; intros l' H.
  - injection H as <-. constructor.
  - apply bind_Return in H. destruct H as [b [Hb H]].
    apply bind_Return in H. destruct H as [bs [Hbs H]].
    injection H as <-. constructor; [exact Hb | exact (IH bs Hbs)].
Qed.

(** Lines 465-498: with the valued outputs and their keys at hand, the
    splitter goes on with the sorted list. *)
Lemma split_valued_ifelse_sorted
    (fgraph : FunctionGraph) (node : Apply) (n : nat) (cond : variable)
    (all_outputs : list variable) (branches : list valued_branch)
    (keyed : list (nat * valued_branch))
    (first : valued_branch) (remaining : list valued_branch) :
  n_outs (op node) = Return n ->
  n <> 1 ->
  inputs node = cond :: all_outputs ->
  mapM (then_else_valued_output node (firstn n all_outputs) (skipn n all_outputs))
       (get_related_valued_nodes node fgraph) = Return branches ->
  mapM (with_key (toposort fgraph)) branches = Return keyed ->
  map snd (sorted keyed) = first :: remaining ->
  split_valued_ifelse_run fgraph node = split_first cond (first :: remaining).
Proof.
  intros Hn Hn1 Hins Hbr Hkeyed Hsort. unfold split_valued_ifelse_run.
  rewrite Hn. cbn [bind]. apply Nat.eqb_neq in Hn1. rewrite Hn1, Hins.
  destruct (get_related_valued_nodes node fgraph) as [|vn vns] eqn:Evn.
  - cbn in Hbr. injection Hbr as <-. cbn in Hkeyed. injection Hkeyed as <-.
    discriminate Hsort.
  - rewrite Hbr. cbn [bind]. rewrite Hkeyed. cbn [bind]. rewrite Hsort.
    reflexivity.
Qed.

(** C9: when a then- or else-branch of a remaining valued output is among
    the ancestors (with an owner) of the first extracted branch pair, the
    splitter returns no rewrite. *)
Theorem split_valued_ifelse_ancestor_overlap
    (fgraph : FunctionGraph) (node : Apply) (n : nat) (cond : variable)
    (all_outputs : list variable) (branches : list valued_branch)
    (keyed : list (nat * valued_branch))
    (first : valued_branch) (remaining : list valued_branch) (ty : VType) :
  n_outs (op node) = Return n ->
  n <> 1 ->
  inputs node = cond :: all_outputs ->
  mapM (then_else_valued_output node (firstn n all_outputs) (skipn n all_outputs))
       (get_related_valued_nodes node fgraph) = Return branches ->
  mapM (with_key (toposort fgraph)) branches = Return keyed ->
  map snd (sorted keyed) = first :: remaining ->
  type (branch_then first) = Return ty ->
  set_intersects
    (map branch_then remaining ++ map branch_else remaining)
    (filter has_owner (ancestors [branch_then first; branch_else first])) = true ->
  split_valued_ifelse fgraph node = Return None.
Proof.
  intros Hn Hn1 Hins Hbr Hkeyed Hsort Hty Hoverlap.
  unfold split_valued_ifelse.
  rewrite (split_valued_ifelse_sorted fgraph node n cond all_outputs branches
             keyed first remaining Hn Hn1 Hins Hbr Hkeyed Hsort).
  unfold split_first, ifelse. rewrite Hty. cbn [bind]. unfold valued_rv at 1.
  cbn [type out_types getitem nth_error bind].
  destruct remaining as [|x remaining]; [discriminate Hoverlap|].
  rewrite Hoverlap. reflexivity.
Qed.

Lemma with_key_spec (order : list Apply) (branches : list valued_branch)
    (keyed : list (nat * valued_branch)) :
  mapM (with_key order) branches = Return keyed ->
  map snd keyed = branches
  /\ Forall (fun kx => sort_key order (snd kx) = Return (fst kx)) keyed.
Proof.
  revert keyed. induction branches as [|x l IH]; cbn [mapM]; intros keyed H.
  - injection H as <-. split; [reflexivity | constructor].
  - apply bind_Return in H. destruct H as [kx [Hkx H]].
    apply bind_Return in H. destruct H as [ks [Hks H]]. injection H as <-.
    destruct (IH ks Hks) as [Hmap Hall].
    unfold with_key in Hkx. apply bind_Return in Hkx.
    destruct Hkx as [k [Hk Hkx]]. injection Hkx as <-.
    split; [cbn; rewrite Hmap; reflexivity|].
    constructor; [exact Hk | exact Hall].
Qed.

Lemma sort_key_has_owner (order : list Apply) (x : valued_branch) (k : nat) :
  sort_key order x = Return k ->
  has_owner (branch_then x) = true /\ has_owner (branch_else x) = true.
Proof.
  unfold sort_key, toposort_index, has_owner. intros H.
  apply bind_Return in H. destruct H as [i [Hi H]].
  apply bind_Return in H. destruct H as [j [Hj _]].
  destruct (owner (branch_then x)); [|discriminate Hi].
  destruct (owner (branch_else x)); [|discriminate Hj].
  split; reflexivity.
Qed.

Lemma dict_set_new (d : list (variable * variable)) (k v : variable) :
  ~ In k (map fst d) -> dict_set d k v = d ++ [(k, v)].
Proof.
  induction d as [|[k' v'] d IH]; cbn [dict_set map fst In app]; intros H;
    [reflexivity|].
  rewrite Variable_eqb_false by (intros E; apply H; left; exact E).
  rewrite IH by (intros E; apply H; right; exact E). reflexivity.
Qed.

(** The value bound to the [i]-th remaining valued output. *)
Definition rebuilt_binding (rebuilt : Apply) (ix : nat * valued_branch)
  : variable * variable :=
  (branch_valued_out (snd ix),
   Out (mkApply ValuedRV [Out rebuilt (fst ix); branch_value (snd ix)]
                [nth (fst ix) (out_types rebuilt) NoneTypeT]) 0).

Lemma bind_remaining_spec (rebuilt : Apply) (remaining : list valued_branch) :
  forall (acc : list (variable * variable)) (start : nat),
    start + length remaining <= length (out_types rebuilt) ->
    NoDup (map fst acc ++ map branch_valued_out remaining) ->
    bind_remaining acc (map (Out rebuilt) (seq start (length remaining))) remaining
    = Return (acc ++ map (rebuilt_binding rebuilt)
                         (combine (seq start (length remaining)) remaining)).
Proof.
  induction remaining as [|x remaining IH]; intros acc start Hlen Hnd.
  - cbn. rewrite app_nil_r. reflexivity.
  - cbn [length seq map bind_remaining combine]. cbn [length] in Hlen.
    unfold valued_rv. cbn [type]. unfold getitem.
    destruct (nth_error (out_types rebuilt) start) as [ty|] eqn:Ety.
    2:{ apply nth_error_None in Ety. lia. }
    cbn [bind]. rewrite dict_set_new.
    2:{ cbn [map] in Hnd. apply NoDup_remove_2 in Hnd. intros Hin. apply Hnd.
        apply in_or_app. left. exact Hin. }
    rewrite IH.
    + rewrite <- app_assoc. cbn [app]. unfold rebuilt_binding at 2.
      cbn [fst snd]. rewrite (nth_error_nth _ _ NoneTypeT Ety). reflexivity.
    + lia.
    + rewrite map_app. cbn [map fst]. rewrite <- app_assoc. cbn [app].
      cbn [map] in Hnd. exact Hnd.
Qed.

(** The graphs the splitter builds: the conditional of the first valued
    output with its value binding, the conditional that groups the remaining
    ones, and the dummy variable. *)
Definition first_conditional (cond : variable) (first : valued_branch) (ty : VType)
  : variable :=
  Out (mkApply (IfElse 1) [cond; branch_then first; branch_else first] [ty]) 0.

Definition first_valued (cond : variable) (first : valued_branch) (ty : VType)
  : variable :=
  Out (mkApply ValuedRV [first_conditional cond first ty; branch_value first] [ty]) 0.

Definition remaining_conditional (cond : variable) (remaining : list valued_branch)
    (tys : list VType) : Apply :=
  mkApply (IfElse (length remaining))
          (cond :: map branch_then remaining ++ map branch_else remaining) tys.

Definition dummy_variable (cond : variable) (first : valued_branch)
    (remaining : list valued_branch) (ty : VType) (tys : list VType) : variable :=
  Input (fresh_vid (first_valued cond first ty
                    :: outputs (remaining_conditional cond remaining tys))) ty.

(** The nodes a variable is computed from along paths that go through
    neither [a] nor [b]. *)
Inductive outside (a b : variable) : variable -> Apply -> Prop :=
| outside_owner m i : outside a b (Out m i) m
| outside_input m i w m' :
    In w (inputs m) -> w <> a -> w <> b -> outside a b w m' ->
    outside a b (Out m i) m'.

Lemma no_overlap_not_ancestor (first : valued_branch)
    (remaining : list valued_branch) (t : variable) :
  set_intersects
    (map branch_then remaining ++ map branch_else remaining)
    (filter has_owner (ancestors [branch_then first; branch_else first])) = false ->
  In t (map branch_then remaining ++ map branch_else remaining) ->
  has_owner t = true ->
  ~ In t (ancestors_of (branch_then first))
  /\ ~ In t (ancestors_of (branch_else first)).
Proof.
  intros Hno Ht Hown.
  assert (H : ~ In t (ancestors [branch_then first; branch_else first])).
  { intros Hin. unfold set_intersects in Hno.
    assert (E : existsb
                  (fun v => mem v (filter has_owner
                     (ancestors [branch_then first; branch_else first])))
                  (map branch_then remaining ++ map branch_else remaining) = true).
    { apply existsb_exists. exists t. split; [exact Ht|].
      apply mem_In. apply filter_In. split; assumption. }
    congruence. }
  unfold ancestors in H. cbn [flat_map] in H. rewrite app_nil_r in H.
  split; intros Hin; apply H; apply in_or_app; [left | right]; exact Hin.
Qed.

Lemma height_node_eq (o : Op) (ins : list variable) (ts : list VType) :
  height_node (mkApply o ins ts)
  = fold_right (fun v acc => Nat.max (height v) acc) 0 ins.
Proof. reflexivity. Qed.

Lemma height_fold_le (l : list variable) (x : variable) :
  In x l -> height x <= fold_right (fun v acc => Nat.max (height v) acc) 0 l.
Proof.
  induction l as [|a l IH]; [intros []|]. cbn [fold_right].
  intros [<-|H]; [lia|]. specialize (IH H). lia.
Qed.

Lemma height_input (n : Apply) (i : nat) (x : variable) :
  In x (inputs n) -> height x < height (Out n i).
Proof.
  destruct n as [o ins ts]. cbn [inputs height]. rewrite height_node_eq.
  intros H. pose proof (height_fold_le ins x H). lia.
Qed.

Lemma height_list_max (l : list variable) (x : variable) :
  In x l -> height x <= list_max (map height l).
Proof.
  induction l as [|a l IH]; [intros []|]. cbn [map].
  change (list_max (height a :: map height l))
    with (Nat.max (height a) (list_max (map height l))).
  intros [<-|H]; [lia|]. specialize (IH H). lia.
Qed.

(** *** Slots and the variables they hold *)

Lemma Apply_eqb_eq (n m : Apply) : Apply_eqb n m = true -> n = m.
Proof.
  intros E.
  assert (H : Variable_eqb (Out n 0) (Out m 0) = true).
  { cbn [Variable_eqb]. rewrite E. reflexivity. }
  apply Variable_eqb_eq in H. congruence.
Qed.

Lemma slot_eqb_eq (s t : slot) : slot_eqb s t = true -> s = t.
Proof.
  destruct s as [n i], t as [m j]. unfold slot_eqb. cbn [fst snd]. intros E.
  apply andb_true_iff in E. destruct E as [E1 E2].
  apply Apply_eqb_eq in E1. apply Nat.eqb_eq in E2. congruence.
Qed.

Lemma slot_eqb_refl (s : slot) : slot_eqb s s = true.
Proof.
  destruct s as [n i]. unfold slot_eqb. cbn [fst snd].
  rewrite Apply_eqb_refl, Nat.eqb_refl. reflexivity.
Qed.

(** The variable an input slot holds. *)
Definition slot_value (h : rewiring) (s : slot) : option variable :=
  match nth_error (inputs (fst s)) (snd s) with
  | Some w => Some (match assigned h s with
                    | Some v => v
                    | None => w
                    end)
  | None => None
  end.

Lemma nth_error_combine_seq {A : Type} (l : list A) :
  forall a j,
    nth_error (combine (seq a (length l)) l) j
    = option_map (fun w => (a + j, w)) (nth_error l j).
Proof.
  induction l as [|x l IH]; intros a j; cbn [length seq combine].
  - destruct j; reflexivity.
  - destruct j as [|j]; cbn [nth_error option_map].
    + rewrite Nat.add_0_r. reflexivity.
    + rewrite IH. replace (S a + j) with (a + S j) by lia. reflexivity.
Qed.

Lemma nth_error_node_inputs (h : rewiring) (n : Apply) (j : nat) :
  nth_error (node_inputs h n) j = slot_value h (n, j).
Proof.
  unfold node_inputs, slot_value. cbn [fst snd].
  rewrite nth_error_map, nth_error_combine_seq.
  destruct (nth_error (inputs n) j); reflexivity.
Qed.

Lemma In_combine_slots (n : Apply) (l : list variable) (s : slot) (v : variable) :
  In (s, v) (combine (map (pair n) (seq 0 (length l))) l)
  <-> exists j, s = (n, j) /\ nth_error l j = Some v.
Proof.
  assert (G : forall a,
             In (s, v) (combine (map (pair n) (seq a (length l))) l)
             <-> exists j, s = (n, a + j) /\ nth_error l j = Some v).
  { induction l as [|x l IH]; intros a; cbn [length seq map combine].
    - split; [intros [] | intros [[|j] [_ H]]; discriminate H].
    - cbn [In]. rewrite IH. split.
      + intros [E | [j [Hs Hj]]].
        * injection E as <- <-. exists 0. rewrite Nat.add_0_r. split; reflexivity.
        * exists (S j). split; [rewrite Hs; f_equal; lia | exact Hj].
      + intros [[|j] [Hs Hj]].
        * left. cbn in Hj. injection Hj as <-. rewrite Hs, Nat.add_0_r. reflexivity.
        * right. exists j. split; [rewrite Hs; f_equal; lia | exact Hj]. }
  exact (G 0).
Qed.

(** An entry of [clients] is an input slot with the variable it holds. *)
Lemma clients_sound (fuel : nat) (h : rewiring) :
  forall x s v, In (s, v) (clients fuel h x) -> slot_value h s = Some v.
Proof.
  induction fuel as [|fuel IH]; intros x s v H; [destruct H|].
  destruct x as [| |n i]; cbn [clients] in H; try destruct H.
  apply in_app_or in H. destruct H as [H|H].
  - apply In_combine_slots in H. destruct H as [j [-> Hj]].
    rewrite <- nth_error_node_inputs. exact Hj.
  - apply in_flat_map in H. destruct H as [w [_ Hw]]. exact (IH w s v Hw).
Qed.

(** The slots that hold neither [a] nor [b] are as they were built. *)
Definition untouched (a b : variable) (h : rewiring) : Prop :=
  forall m j w, nth_error (inputs m) j = Some w -> w <> a -> w <> b ->
                slot_value h (m, j) = Some w.

(** The traversal reaches every slot of the nodes outside [a] and [b]. *)
Lemma clients_complete (a b : variable) (h : rewiring) :
  untouched a b h ->
  forall x m, outside a b x m ->
  forall fuel, height x < fuel ->
  forall j v, slot_value h (m, j) = Some v ->
              In ((m, j), v) (clients fuel h x).
Proof.
  intros Hun x m Hout.
  induction Hout as [m i|m i w m' Hw Ha Hb Hout IH]; intros fuel Hfuel j v Hv;
    (destruct fuel as [|fuel]; [lia|]); cbn [clients]; apply in_or_app.
  - left. apply In_combine_slots. exists j. split; [reflexivity|].
    rewrite nth_error_node_inputs. exact Hv.
  - right. apply in_flat_map. exists w. split.
    + destruct (In_nth_error _ _ Hw) as [j0 Hj0].
      apply (nth_error_In _ j0). rewrite nth_error_node_inputs.
      exact (Hun m j0 w Hj0 Ha Hb).
    + apply IH; [|exact Hv].
      pose proof (height_input m i w Hw). lia.
Qed.

Lemma assigned_app_map (holding : list (slot * variable)) (new_var : variable)
    (h : rewiring) (s : slot) :
  assigned (map (fun sv => (fst sv, new_var)) holding ++ h) s
  = if existsb (fun sv => slot_eqb (fst sv) s) holding then Some new_var
    else assigned h s.
Proof.
  induction holding as [|[t v] l IH]; cbn [map app assigned existsb fst];
    [reflexivity|].
  destruct (slot_eqb t s); [reflexivity | exact IH].
Qed.

(** What a slot holds after [fgraph.replace(var, new_var)]. *)
Lemma fgraph_replace_slot (fuel : nat) (var new_var : variable) (h : rewiring)
    (outs : list variable) (s : slot) (v : variable) :
  slot_value h s = Some v ->
  let h' := fst (fgraph_replace fuel var new_var (h, outs)) in
  (v <> var -> slot_value h' s = Some v)
  /\ (v = var ->
      (exists o, In o outs /\ In (s, v) (clients fuel h o)) ->
      slot_value h' s = Some new_var).
Proof.
  intros Hv h'. unfold h', fgraph_replace. cbn [fst].
  unfold slot_value in *. rewrite assigned_app_map.
  destruct (nth_error (inputs (fst s)) (snd s)) as [w|] eqn:Ew; [|discriminate Hv].
  split.
  - intros Hne.
    destruct (existsb _ _) eqn:E; [|exact Hv].
    exfalso. apply existsb_exists in E. destruct E as [[t v'] [Hin Ht]].
    cbn [fst] in Ht. apply slot_eqb_eq in Ht. subst t.
    apply filter_In in Hin. destruct Hin as [Hin Hvar]. cbn [snd] in Hvar.
    apply Variable_eqb_eq in Hvar. subst v'.
    apply in_flat_map in Hin. destruct Hin as [o [_ Hin]].
    pose proof (clients_sound fuel h o s var Hin) as Hs. unfold slot_value in Hs.
    rewrite Ew in Hs. congruence.
  - intros -> [o [Ho Hin]].
    assert (E : existsb (fun sv => slot_eqb (fst sv) s)
                  (filter (fun sv => Variable_eqb (snd sv) var)
                          (flat_map (clients fuel h) outs)) = true).
    { apply existsb_exists. exists (s, var). split; [|apply slot_eqb_refl].
      apply filter_In. split; [|apply Variable_eqb_refl].
      apply in_flat_map. exists o. split; assumption. }
    rewrite E. reflexivity.
Qed.

Lemma fgraph_replace_outputs (fuel : nat) (var new_var : variable)
    (g : shared_fgraph) (o : variable) :
  In o (snd g) -> o <> var -> In o (snd (fgraph_replace fuel var new_var g)).
Proof.
  destruct g as [h outs]. cbn [snd fgraph_replace]. intros Hin Hne.
  apply in_map_iff. exists o. split; [|exact Hin].
  rewrite Variable_eqb_false by exact Hne. reflexivity.
Qed.

Lemma fgraph_replace_untouched (fuel : nat) (a b var new_var : variable)
    (g : shared_fgraph) :
  (var = a \/ var = b) ->
  untouched a b (fst g) ->
  untouched a b (fst (fgraph_replace fuel var new_var g)).
Proof.
  destruct g as [h outs]. intros Hvar Hun m j w Hw Ha Hb.
  apply (fgraph_replace_slot fuel var new_var h outs (m, j) w (Hun m j w Hw Ha Hb)).
  destruct Hvar; congruence.
Qed.

(** The three [replace] calls: in the nodes the variable [root] is computed
    from along paths that go through neither [a] nor [b], every slot that
    held [a] or [b] holds [new_var] and every other slot is as it was. *)
Lemma replace_through_dummy (a b dummy new_var root : variable)
    (outs : list variable) (fuel : nat) :
  In root outs -> root <> a -> root <> b -> height root < fuel ->
  dummy <> a -> dummy <> b ->
  (forall m j w, outside a b root m -> nth_error (inputs m) j = Some w ->
                 w <> dummy) ->
  let g := fgraph_replace fuel dummy new_var
             (fgraph_replace fuel b dummy
                (fgraph_replace fuel a dummy ([], outs))) in
  forall m, outside a b root m ->
    node_inputs (fst g) m
    = map (fun w => if Variable_eqb w a || Variable_eqb w b then new_var else w)
          (inputs m).
Proof.
  intros Hroot Hra Hrb Hfuel Hda Hdb Hfresh g m Hm.
  set (g0 := (([] : rewiring), outs)).
  set (g1 := fgraph_replace fuel a dummy g0).
  set (g2 := fgraph_replace fuel b dummy g1).
  assert (Hun0 : untouched a b (fst g0)).
  { intros m0 j0 w0 Hw0 _ _. unfold slot_value. cbn [fst snd assigned].
    rewrite Hw0. reflexivity. }
  assert (Hun1 : untouched a b (fst g1))
    by (apply fgraph_replace_untouched; [left; reflexivity | exact Hun0]).
  assert (Hun2 : untouched a b (fst g2))
    by (apply fgraph_replace_untouched; [right; reflexivity | exact Hun1]).
  assert (Hr0 : In root (snd g0)) by exact Hroot.
  assert (Hr1 : In root (snd g1))
    by (apply fgraph_replace_outputs; assumption).
  assert (Hr2 : In root (snd g2))
    by (apply fgraph_replace_outputs; assumption).
  assert (Hstep : forall (g' : shared_fgraph) var new_var' v j,
             untouched a b (fst g') -> In root (snd g') ->
             slot_value (fst g') (m, j) = Some v ->
             slot_value (fst (fgraph_replace fuel var new_var' g')) (m, j)
             = Some (if Variable_eqb v var then new_var' else v)).
  { intros [h' outs'] var new_var' v j Hun Hr Hv. cbn [fst snd] in *.
    destruct (fgraph_replace_slot fuel var new_var' h' outs' (m, j) v Hv)
      as [Hkeep Hset].
    destruct (Variable_eqb v var) eqn:E.
    - apply Variable_eqb_eq in E. apply (Hset E). exists root.
      split; [exact Hr|].
      exact (clients_complete a b h' Hun root m Hm fuel Hfuel j v Hv).
    - apply Hkeep. intros ->. rewrite Variable_eqb_refl in E. discriminate E. }
  apply nth_error_ext. intros j.
  rewrite nth_error_node_inputs, nth_error_map.
  destruct (nth_error (inputs m) j) as [w|] eqn:Hw.
  2:{ unfold slot_value. cbn [fst snd]. rewrite Hw. reflexivity. }
  cbn [option_map].
  assert (H0 : slot_value (fst g0) (m, j) = Some w).
  { unfold slot_value. cbn [fst snd assigned]. rewrite Hw. reflexivity. }
  pose proof (Hstep g0 a dummy w j Hun0 Hr0 H0) as H1. fold g1 in H1.
  pose proof (Hfresh m j w Hm Hw) as Hwd.
  destruct (Variable_eqb w a) eqn:Ea.
  - pose proof (Hstep g1 b dummy dummy j Hun1 Hr1 H1) as H2. fold g2 in H2.
    rewrite (Variable_eqb_false dummy b Hdb) in H2.
    pose proof (Hstep g2 dummy new_var dummy j Hun2 Hr2 H2) as H3.
    rewrite Variable_eqb_refl in H3. exact H3.
  - pose proof (Hstep g1 b dummy w j Hun1 Hr1 H1) as H2. fold g2 in H2.
    cbn [orb]. destruct (Variable_eqb w b) eqn:Eb.
    + pose proof (Hstep g2 dummy new_var dummy j Hun2 Hr2 H2) as H3.
      rewrite Variable_eqb_refl in H3. exact H3.
    + pose proof (Hstep g2 dummy new_var w j Hun2 Hr2 H2) as H3.
      rewrite (Variable_eqb_false w dummy Hwd) in H3. exact H3.
Qed.

(** A node outside [a] and [b] is an ancestor of the variable. *)
Lemma outside_ancestor (a b x : variable) (m : Apply) :
  outside a b x m ->
  forall w, In w (inputs m) -> In w (ancestors_of x).
Proof.
  induction 1 as [m i|m i w0 m' Hw0 _ _ _ IH]; intros w Hw.
  - apply ancestors_of_input. exact Hw.
  - apply (ancestors_of_trans _ w w0); [exact (IH w Hw)|].
    apply ancestors_of_input. exact Hw0.
Qed.

(** The position of a valued output in the topological order: the larger
    of the first positions of the owners of its two branches. *)
Definition toposort_position (order : list Apply) (v : variable) (i : nat) : Prop :=
  exists n, owner v = Some n
            /\ nth_error order i = Some n
            /\ forall i', i' < i -> nth_error order i' <> Some n.

Definition branch_position (order : list Apply) (x : valued_branch) (k : nat) : Prop :=
  exists i j, toposort_position order (branch_then x) i
              /\ toposort_position order (branch_else x) j
              /\ k = Nat.max i j.

Lemma index_first (n : Apply) (order : list Apply) :
  forall i, index Apply_eqb n order = Return i ->
            nth_error order i = Some n
            /\ forall i', i' < i -> nth_error order i' <> Some n.
Proof.
  induction order as [|a order IH]; intros i H; cbn [index] in H;
    [discriminate H|].
  destruct (Apply_eqb a n) eqn:E.
  - injection H as <-. apply Apply_eqb_eq in E. subst a.
    split; [reflexivity | intros i' Hi'; lia].
  - apply bind_Return in H. destruct H as [i0 [Hi0 H]]. injection H as <-.
    destruct (IH i0 Hi0) as [Hnth Hfirst]. split; [exact Hnth|].
    intros [|i'] Hi'; cbn [nth_error].
    + intros Ha. injection Ha as ->. rewrite Apply_eqb_refl in E. discriminate E.
    + apply Hfirst. lia.
Qed.

Lemma sort_key_position (order : list Apply) (x : valued_branch) (k : nat) :
  sort_key order x = Return k -> branch_position order x k.
Proof.
  unfold sort_key, toposort_index. intros H.
  apply bind_Return in H. destruct H as [i [Hi H]].
  apply bind_Return in H. destruct H as [j [Hj H]]. injection H as <-.
  destruct (owner (branch_then x)) as [n|] eqn:En; [|discriminate Hi].
  destruct (owner (branch_else x)) as [m|] eqn:Em; [|discriminate Hj].
  exists i, j. split; [|split; [|reflexivity]].
  - exists n. split; [exact En | exact (index_first n order i Hi)].
  - exists m. split; [exact Em | exact (index_first m order j Hj)].
Qed.

(** The rewiring the splitter leaves. *)
Definition split_rewiring (cond : variable) (first : valued_branch)
    (remaining : list valued_branch) (ty : VType) (tys : list VType) : rewiring :=
  let dummy := dummy_variable cond first remaining ty tys in
  let outs := outputs (remaining_conditional cond remaining tys) ++ [dummy] in
  let depth := S (list_max (map height outs)) in
  fst (fgraph_replace depth dummy (first_valued cond first ty)
         (fgraph_replace depth (branch_else first) dummy
            (fgraph_replace depth (branch_then first) dummy ([], outs)))).

Lemma split_first_spec (cond : variable) (first : valued_branch)
    (remaining : list valued_branch) (ty : VType) (tys : list VType) :
  remaining <> [] ->
  type (branch_then first) = Return ty ->
  mapM type (map branch_then remaining) = Return tys ->
  NoDup (map branch_valued_out (first :: remaining)) ->
  set_intersects
    (map branch_then remaining ++ map branch_else remaining)
    (filter has_owner (ancestors [branch_then first; branch_else first])) = false ->
  split_first cond (first :: remaining)
  = Return (Some ((branch_valued_out first, first_valued cond first ty)
                  :: map (rebuilt_binding
                            (remaining_conditional cond remaining tys))
                         (combine (seq 0 (length remaining)) remaining),
                  split_rewiring cond first remaining ty tys)).
Proof.
  intros Hne Hty Htys Hnd Hno.
  destruct remaining as [|x0 remaining]; [congruence|].
  assert (Hlen : length tys = length (x0 :: remaining)).
  { rewrite (mapM_length _ _ _ Htys), length_map. reflexivity. }
  unfold split_first, ifelse. rewrite Hty. cbn [bind].
  unfold valued_rv at 1. cbn [type out_types getitem nth_error bind].
  rewrite Hno. unfold ifelse_list. rewrite Htys. cbn [bind].
  cbn [type out_types getitem nth_error bind].
  rewrite length_map.
  fold (first_conditional cond first ty). fold (first_valued cond first ty).
  fold (remaining_conditional cond (x0 :: remaining) tys).
  fold (dummy_variable cond first (x0 :: remaining) ty tys).
  assert (Houts : outputs (remaining_conditional cond (x0 :: remaining) tys)
                  = map (Out (remaining_conditional cond (x0 :: remaining) tys))
                        (seq 0 (length (x0 :: remaining)))).
  { unfold outputs. cbn [out_types remaining_conditional]. rewrite Hlen.
    reflexivity. }
  cbn [snd].
  match goal with
  | |- context [fst ?g] =>
      change (fst g) with (split_rewiring cond first (x0 :: remaining) ty tys)
  end.
  rewrite Houts.
  rewrite (bind_remaining_spec
             (remaining_conditional cond (x0 :: remaining) tys)
             (x0 :: remaining) [(branch_valued_out first, first_valued cond first ty)] 0).
  - reflexivity.
  - cbn [out_types remaining_conditional]. lia.
  - exact Hnd.
Qed.


(** ** Further properties of the rewriters *)

(** *** The if-else mixture rewriter *)

(** The preconditions of the if-else rewriter on a single-output
    conditional. *)
Definition ifelse_preconditions (if_var then_rv else_rv : variable) : Prop :=
  check_potential_measurability [if_var] = false
  /\ is_measurable then_rv = true /\ is_measurable else_rv = true.

Lemma filter_measurable_pair (t e : variable) :
  Nat.eqb (length (filter_measurable_variables [t; e])) 2
  = is_measurable t && is_measurable e.
Proof.
  unfold filter_measurable_variables. cbn [filter].
  change (match owner t with
          | Some n => isinstance_MeasurableOp (op n)
          | None => false
          end) with (is_measurable t).
  change (match owner e with
          | Some n => isinstance_MeasurableOp (op n)
          | None => false
          end) with (is_measurable e).
  destruct (is_measurable t), (is_measurable e); reflexivity.
Qed.

(** A conditional that is already measurable or has several outputs is
    left alone; a single-output conditional is replaced by a
    [MeasurableIfElse] over the same three inputs exactly when its condition
    is not potentially measurable and both branches are measurable. *)
Theorem find_measurable_ifelse_mixture_spec (node : Apply) (n : nat) :
  (op node = MeasurableIfElse n -> find_measurable_ifelse_mixture node = Return None)
  /\ (op node = IfElse n -> 1 < n ->
      find_measurable_ifelse_mixture node = Return None)
  /\ (forall if_var then_rv else_rv ty,
        op node = IfElse 1 ->
        inputs node = [if_var; then_rv; else_rv] ->
        type then_rv = Return ty ->
        (ifelse_preconditions if_var then_rv else_rv ->
         find_measurable_ifelse_mixture node
         = Return (Some [Out (mkApply (MeasurableIfElse 1)
                                      [if_var; then_rv; else_rv] [ty]) 0]))
        /\ (~ ifelse_preconditions if_var then_rv else_rv ->
            find_measurable_ifelse_mixture node = Return None)).
Proof.
  unfold find_measurable_ifelse_mixture. split; [|split].
  - intros ->. reflexivity.
  - intros -> Hn. cbn [isinstance_MeasurableOp n_outs bind].
    apply Nat.ltb_lt in Hn. rewrite Hn. reflexivity.
  - intros if_var then_rv else_rv ty -> -> Hty.
    cbn [isinstance_MeasurableOp n_outs bind Nat.ltb Nat.leb].
    rewrite filter_measurable_pair. unfold ifelse_preconditions.
    destruct (check_potential_measurability [if_var]).
    + split; [intros [H _]; discriminate H | reflexivity].
    + destruct (is_measurable then_rv); cbn [andb negb].
      * destruct (is_measurable else_rv); cbn [negb].
        -- split; [|intros H; exfalso; apply H; repeat split].
           intros _. unfold measurable_ifelse. cbn [Nat.mul Nat.add Nat.eqb].
           rewrite Hty. reflexivity.
        -- split; [intros [_ [_ H]]; discriminate H | reflexivity].
      * split; [intros [_ [H _]]; discriminate H | reflexivity].
Qed.

(** What the three rewriters return when they match. *)
Lemma find_measurable_index_mixture_Some (node : Apply) (r : list variable) :
  find_measurable_index_mixture node = Return (Some r) ->
  exists k dt bc ins, r = [Out (MixtureRV_make_node k dt bc ins) 0].
Proof.
  intros H. unfold find_measurable_index_mixture in H.
  apply bind_Return in H. destruct H as [b [_ H]].
  destruct b; [discriminate H|].
  apply bind_Return in H. destruct H as [old [_ H]].
  apply bind_Return in H. destruct H as [[rvs ax] [_ H]].
  destruct rvs as [mixture_rvs|]; [|discriminate H].
  destruct ax as [join_axis|]; [|discriminate H].
  destruct (negb (isinstance_Constant join_axis)); [discriminate H|].
  destruct (negb (set_eq (filter_measurable_variables mixture_rvs) mixture_rvs));
    [discriminate H|].
  apply bind_Return in H. destruct H as [dt [_ H]].
  apply bind_Return in H. destruct H as [bc [_ H]].
  cbn in H. injection H as <-.
  eexists _, dt, bc, _. reflexivity.
Qed.

Lemma find_measurable_switch_mixture_Some (node : Apply) (r : list variable) :
  find_measurable_switch_mixture node = Return (Some r) ->
  exists ins, r = [measurable_switch_mixture ins].
Proof.
  intros H. unfold find_measurable_switch_mixture in H.
  destruct (isinstance_MeasurableOp (op node)); [discriminate H|].
  destruct (inputs node) as [|switch_cond components]; [discriminate H|].
  apply bind_Return in H. destruct H as [out0 [_ H]].
  apply bind_Return in H. destruct H as [out_bcast [_ H]].
  apply bind_Return in H. destruct H as [differs [_ H]].
  destruct differs; [discriminate H|].
  destruct (negb (set_eq (filter_measurable_variables components) components));
    [discriminate H|].
  destruct (check_potential_measurability [switch_cond]); [discriminate H|].
  injection H as <-. eexists. reflexivity.
Qed.

Lemma find_measurable_ifelse_mixture_Some (node : Apply) (r : list variable) :
  find_measurable_ifelse_mixture node = Return (Some r) ->
  exists n ins tys, r = [Out (mkApply (MeasurableIfElse n) ins tys) 0].
Proof.
  intros H. unfold find_measurable_ifelse_mixture in H.
  destruct (isinstance_MeasurableOp (op node)); [discriminate H|].
  apply bind_Return in H. destruct H as [n [_ H]].
  destruct (1 <? n); [discriminate H|].
  destruct (inputs node) as [|if_var [|then_rv [|else_rv [|x l]]]];
    try discriminate H.
  destruct (check_potential_measurability [if_var]); [discriminate H|].
  destruct (negb (Nat.eqb (length (filter_measurable_variables [then_rv; else_rv])) 2));
    [discriminate H|].
  apply bind_Return in H. destruct H as [outs [Houts H]]. injection H as <-.
  unfold measurable_ifelse in Houts.
  destruct (Nat.eqb (2 * n) 2); [|discriminate Houts].
  apply bind_Return in Houts. destruct Houts as [ty [_ Houts]].
  injection Houts as <-. eexists _, _, _. reflexivity.
Qed.

(** Every variable one of the three rewriters returns is the output of a
    measurable operation, so that it can be a component of an enclosing
    mixture, and the switch and if-else rewriters answer [None] on the node
    that makes it: a mixture is not rewritten twice. *)
Theorem rewritten_variables_measurable (node : Apply) (r : list variable) :
  find_measurable_index_mixture node = Return (Some r)
  \/ find_measurable_switch_mixture node = Return (Some r)
  \/ find_measurable_ifelse_mixture node = Return (Some r) ->
  r <> []
  /\ Forall (fun v => is_measurable v = true
                      /\ exists made, owner v = Some made
                           /\ find_measurable_switch_mixture made = Return None
                           /\ find_measurable_ifelse_mixture made = Return None) r.
Proof.
  intros [H|[H|H]].
  - destruct (find_measurable_index_mixture_Some node r H) as [k [dt [bc [ins ->]]]].
    split; [discriminate|]. constructor; [|constructor].
    split; [reflexivity|]. eexists. split; [reflexivity|]. split; reflexivity.
  - destruct (find_measurable_switch_mixture_Some node r H) as [ins ->].
    split; [discriminate|]. constructor; [|constructor].
    split; [reflexivity|]. eexists. split; [reflexivity|]. split; reflexivity.
  - destruct (find_measurable_ifelse_mixture_Some node r H) as [n [ins [tys ->]]].
    split; [discriminate|]. constructor; [|constructor].
    split; [reflexivity|]. eexists. split; [reflexivity|]. split; reflexivity.
Qed.

(** *** The components of a stack *)

(** [get_stack_mixture_vars] returns both the components and the join axis
    or neither: neither when the indexed variable is not the output of a
    [MakeVector] or a [Join]; otherwise one component for every stacked
    operand, the operand itself or the variable a [PromisedValuedRV] operand
    wraps, with [NoneConst] as the join axis of a [MakeVector] and, for a
    [Join], its first input, turned into an [int64] constant when it
    folds. *)
Theorem get_stack_mixture_vars_spec (node : Apply)
    (rvs : option (list variable)) (axis : option variable) :
  get_stack_mixture_vars node = Return (rvs, axis) ->
  exists joined_rvs,
    nth_error (inputs node) 0 = Some joined_rvs
    /\ ((rvs = None /\ axis = None
         /\ forall joined, owner joined_rvs = Some joined ->
                           op joined <> MakeVector /\ op joined <> Join)
        \/ exists joined mixture_rvs join_axis operands,
             rvs = Some mixture_rvs /\ axis = Some join_axis
             /\ owner joined_rvs = Some joined
             /\ Forall2 (fun rv rv' => unwrap_promised rv = Return rv')
                        operands mixture_rvs
             /\ (op joined = MakeVector /\ operands = inputs joined
                 /\ join_axis = NoneConst
                 \/ exists ax,
                      op joined = Join /\ inputs joined = ax :: operands
                      /\ join_axis = match constant_fold ax with
                                     | Some z => Constant (TensorType "int64" []) (DInt z)
                                     | None => ax
                                     end)).
Proof.
  intros H. unfold get_stack_mixture_vars in H.
  apply bind_Return in H. destruct H as [u [_ H]].
  apply bind_Return in H. destruct H as [joined_rvs [Hj H]].
  exists joined_rvs. split.
  { unfold getitem in Hj. destruct (nth_error (inputs node) 0); [|discriminate Hj].
    injection Hj as ->. reflexivity. }
  destruct (owner joined_rvs) as [joined|] eqn:Hown.
  2:{ injection H as <- <-. left. split; [reflexivity|]. split; [reflexivity|].
      intros j E. discriminate E. }
  destruct (op joined) eqn:Hop;
    try (injection H as <- <-; left; split; [reflexivity|]; split; [reflexivity|];
         intros j E; injection E as <-; rewrite Hop; split; discriminate).
  - apply bind_Return in H. destruct H as [mixture_rvs [Hm H]]. injection H as <- <-.
    right. exists joined, mixture_rvs, NoneConst, (inputs joined).
    split; [reflexivity|]. split; [reflexivity|]. split; [reflexivity|].
    split; [exact (mapM_Forall2 _ _ _ Hm)|].
    left. split; [exact Hop|]. split; reflexivity.
  - apply bind_Return in H. destruct H as [ax [Hax H]].
    apply bind_Return in H. destruct H as [mixture_rvs [Hm H]]. injection H as <- <-.
    unfold getitem in Hax. destruct (inputs joined) as [|ax' operands] eqn:Hins;
      [discriminate Hax|]. cbn in Hax. injection Hax as ->. cbn [skipn] in Hm.
    right. exists joined, mixture_rvs, (as_tensor_int64 (constant_fold ax) ax), operands.
    split; [reflexivity|]. split; [reflexivity|]. split; [reflexivity|].
    split; [exact (mapM_Forall2 _ _ _ Hm)|].
    right. exists ax. split; [exact Hop|]. split; [exact Hins|].
    unfold as_tensor_int64. destruct (constant_fold ax); reflexivity.
Qed.

(** *** The index-mixture rewriter *)

Lemma forallb_measurable_Exists (l : list variable) :
  forallb is_measurable l = false ->
  Exists (fun rv => is_measurable rv = false) l.
Proof.
  induction l as [|a l IH]; simpl; [discriminate|].
  destruct (is_measurable a) eqn:Ha; simpl.
  - intros H. apply Exists_cons_tl. exact (IH H).
  - intros _. apply Exists_cons_hd. exact Ha.
Qed.

(** The four preconditions are the only reasons for which a well-formed
    indexing node is answered with [None]: a node that misses none of them
    is not left unchanged. *)
Theorem find_measurable_index_mixture_none_only_if (node : Apply) :
  well_formed_index_node node = true ->
  find_measurable_index_mixture node = Return None ->
  misses_precondition node.
Proof.
  intros Hwf H. unfold well_formed_index_node in Hwf.
  apply andb_true_iff in Hwf. destruct Hwf as [Hwf Hins].
  apply andb_true_iff in Hwf. destruct Hwf as [Hops Hout].
  destruct (inputs node) as [|joined_rvs mixing_indices] eqn:Einputs;
    [discriminate Hins|].
  apply andb_true_iff in Hins. destruct Hins as [Htyped Hjoined].
  unfold find_measurable_index_mixture in H. rewrite Einputs in H.
  cbn [skipn] in H.
  apply bind_Return in H. destruct H as [repeating [Hrep H]].
  destruct repeating.
  { destruct (isinstance_Advanced (op node)) eqn:Hadv; [|discriminate Hrep].
    apply repeated_selection; [exact Hadv|]. rewrite Einputs. cbn [skipn].
    apply any_repeating_index_true. exact Hrep. }
  rewrite (default_output_single node Hout) in H. cbn [bind] in H.
  unfold get_stack_mixture_vars in H. rewrite Hops, Einputs in H.
  cbn [py_assert bind getitem nth_error] in H.
  destruct (owner joined_rvs) as [joined|] eqn:Hown.
  2:{ apply (not_a_concatenation node joined_rvs); [rewrite Einputs; reflexivity|].
      intros j E. rewrite Hown in E. discriminate E. }
  apply andb_true_iff in Hjoined. destruct Hjoined as [Hwrapped Hjoin].
  assert (Hother : op joined <> MakeVector -> op joined <> Join ->
                   misses_precondition node).
  { intros H1 H2. apply (not_a_concatenation node joined_rvs);
      [rewrite Einputs; reflexivity|].
    intros j E. rewrite Hown in E. injection E as <-. split; assumption. }
  assert (Hfinish : forall join_axis mixture_rvs,
             isinstance_Constant join_axis = true ->
             set_eq (filter_measurable_variables mixture_rvs) mixture_rvs = true ->
             (out_dtype <- dtype (Out node 0) ;;
              out_broadcastable <- broadcastable (Out node 0) ;;
              new_mixture_rv <-
                default_output
                  (MixtureRV_make_node (1 + length mixing_indices) out_dtype
                     out_broadcastable (join_axis :: mixing_indices ++ mixture_rvs)) ;;
              Return (Some [new_mixture_rv])) <> Return None).
  { intros join_axis mixture_rvs _ _ E.
    apply bind_Return in E. destruct E as [dt [_ E]].
    apply bind_Return in E. destruct E as [bc [_ E]].
    cbn in E. discriminate E. }
  destruct (op joined) eqn:Hop; try (apply Hother; discriminate).
  - destruct (mapM_unwrap_total (inputs joined) Hwrapped) as [comps Hcomps].
    rewrite Hcomps in H. cbn [bind isinstance_Constant NoneConst negb] in H.
    rewrite set_eq_filter_measurable in H.
    destruct (forallb is_measurable comps) eqn:Hall; cbn [negb] in H.
    + exfalso. apply (Hfinish NoneConst comps eq_refl); [|exact H].
      rewrite set_eq_filter_measurable. exact Hall.
    + apply (unmeasurable_component node joined_rvs joined comps);
        [rewrite Einputs; reflexivity | exact Hown | | ].
      * left. split; [exact Hop | exact Hcomps].
      * apply forallb_measurable_Exists. exact Hall.
  - destruct (inputs joined) as [|ax operands] eqn:Hinsj; [discriminate Hjoin|].
    cbn [getitem nth_error bind skipn] in H.
    cbn [forallb] in Hwrapped. apply andb_true_iff in Hwrapped.
    destruct Hwrapped as [_ Hwrapped].
    destruct (mapM_unwrap_total operands Hwrapped) as [comps Hcomps].
    rewrite Hcomps in H. cbn [bind] in H.
    destruct (isinstance_Constant (as_tensor_int64 (constant_fold ax) ax)) eqn:Hc;
      cbn [negb] in H.
    + rewrite set_eq_filter_measurable in H.
      destruct (forallb is_measurable comps) eqn:Hall; cbn [negb] in H.
      * exfalso. apply (Hfinish _ comps Hc); [|exact H].
        rewrite set_eq_filter_measurable. exact Hall.
      * apply (unmeasurable_component node joined_rvs joined comps);
          [rewrite Einputs; reflexivity | exact Hown | | ].
        -- right. split; [exact Hop|]. rewrite Hinsj. exact Hcomps.
        -- apply forallb_measurable_Exists. exact Hall.
    + apply (symbolic_join_axis node joined_rvs joined ax operands);
        [rewrite Einputs; reflexivity | exact Hown | exact Hop | exact Hinsj | | ].
      * unfold as_tensor_int64 in Hc. destruct (constant_fold ax);
          [discriminate Hc | reflexivity].
      * unfold as_tensor_int64 in Hc. destruct (constant_fold ax);
          [discriminate Hc | exact Hc].
Qed.

(** The guard of an advanced indexing node asks every index that is not a
    slice constant for its dtype: an index without one, such as [None] or a
    slice that is not a constant, raises [AttributeError] when the indices
    before it pass the guard. *)
Theorem repeated_index_guard_untyped (node : Apply)
    (before after : list variable) (v : variable) (ty : VType) :
  isinstance_Advanced (op node) = true ->
  skipn 1 (inputs node) = before ++ v :: after ->
  Forall passes_guard before ->
  isinstance_SliceConstant v = false ->
  type v = Return ty ->
  (forall dt bc, ty <> TensorType dt bc) ->
  find_measurable_index_mixture node = Raise AttributeError.
Proof.
  intros Hadv Hsplit Hbefore Hslice Hty Hnot.
  unfold find_measurable_index_mixture. rewrite Hadv, Hsplit.
  assert (Hguard : any_repeating_index (before ++ v :: after) = Raise AttributeError).
  { clear Hsplit. induction Hbefore as [|x l Hx _ IH].
    - cbn [app any_repeating_index]. rewrite Hslice. unfold dtype. rewrite Hty.
      cbn [bind]. destruct ty as [dt bc| | |]; try reflexivity.
      exfalso. exact (Hnot dt bc eq_refl).
    - cbn [app any_repeating_index].
      destruct (isinstance_SliceConstant x) eqn:Hs; [exact IH|].
      destruct Hx as [bc Htx|Hc|dt bc Htx Hd Hall].
      + unfold dtype. rewrite Htx. cbn. exact IH.
      + congruence.
      + unfold dtype, broadcastable. rewrite Htx. cbn [bind]. rewrite Hd.
        rewrite (all_broadcastable_count bc Hall). cbn. exact IH. }
  rewrite Hguard. reflexivity.
Qed.

(** *** The splitter *)

(** A conditional with a single valued output: the valued output is bound
    to a single-output conditional over its own then/else pair, and nothing
    else is replaced. *)
Theorem split_valued_ifelse_single
    (fgraph : FunctionGraph) (node : Apply) (n : nat) (cond : variable)
    (all_outputs : list variable) (valued_output_node : Apply)
    (first : valued_branch) (key : nat) (ty : VType) :
  n_outs (op node) = Return n ->
  n <> 1 ->
  inputs node = cond :: all_outputs ->
  get_related_valued_nodes node fgraph = [valued_output_node] ->
  then_else_valued_output node (firstn n all_outputs) (skipn n all_outputs)
    valued_output_node = Return first ->
  sort_key (toposort fgraph) first = Return key ->
  type (branch_then first) = Return ty ->
  split_valued_ifelse fgraph node
  = Return (Some [(branch_valued_out first, first_valued cond first ty)]).
Proof.
  intros Hn Hn1 Hins Hvalued Hfirst Hkey Hty.
  unfold split_valued_ifelse.
  rewrite (split_valued_ifelse_sorted fgraph node n cond all_outputs [first]
             [(key, first)] first [] Hn Hn1 Hins).
  - unfold split_first, ifelse. rewrite Hty. cbn [bind].
    unfold valued_rv. cbn [type out_types getitem nth_error bind]. reflexivity.
  - rewrite Hvalued. cbn [mapM]. rewrite Hfirst. reflexivity.
  - cbn [mapM]. unfold with_key. rewrite Hkey. reflexivity.
  - reflexivity.
Qed.

Lemma index_raises {A : Type} (eqb : A -> A -> bool) (x : A) (l : list A) (e : exception) :
  index eqb x l = Raise e -> e = ValueError.
Proof.
  induction l as [|a l IH]; cbn [index]; intros H.
  - injection H as <-. reflexivity.
  - destruct (eqb a x); [discriminate H|].
    destruct (index eqb x l) as [i|e']; cbn [bind] in H; [discriminate H|].
    injection H as <-. apply IH. reflexivity.
Qed.

Lemma with_key_raises (order : list Apply) (x : valued_branch) (e : exception) :
  with_key order x = Raise e -> e = ValueError.
Proof.
  unfold with_key, sort_key, toposort_index. intros H.
  destruct (owner (branch_then x)) as [n|].
  - destruct (index Apply_eqb n order) as [i|e1] eqn:E1; cbn [bind] in H.
    + destruct (owner (branch_else x)) as [m|].
      * destruct (index Apply_eqb m order) as [j|e2] eqn:E2; cbn [bind] in H;
          [discriminate H|].
        injection H as <-. exact (index_raises _ _ _ _ E2).
      * cbn [bind] in H. injection H as <-. reflexivity.
    + injection H as <-. exact (index_raises _ _ _ _ E1).
  - cbn [bind] in H. injection H as <-. reflexivity.
Qed.

Lemma with_key_rootless (order : list Apply) (x : valued_branch) :
  has_owner (branch_then x) = false \/ has_owner (branch_else x) = false ->
  with_key order x = Raise ValueError.
Proof.
  intros H. destruct (with_key order x) as [kx|e] eqn:E.
  - unfold with_key in E. apply bind_Return in E. destruct E as [k [Hk _]].
    destruct (sort_key_has_owner order x k Hk) as [H1 H2].
    destruct H as [H|H]; congruence.
  - rewrite (with_key_raises order x e E). reflexivity.
Qed.

(** A valued output one of whose branches has no owner, a graph input or a
    constant, has no position in the topological order: the splitter
    raises [ValueError]. *)
Theorem split_valued_ifelse_rootless_branch
    (fgraph : FunctionGraph) (node : Apply) (n : nat) (cond : variable)
    (all_outputs : list variable) (branches : list valued_branch) :
  n_outs (op node) = Return n ->
  n <> 1 ->
  inputs node = cond :: all_outputs ->
  mapM (then_else_valued_output node (firstn n all_outputs) (skipn n all_outputs))
       (get_related_valued_nodes node fgraph) = Return branches ->
  Exists (fun x => has_owner (branch_then x) = false
                   \/ has_owner (branch_else x) = false) branches ->
  split_valued_ifelse fgraph node = Raise ValueError.
Proof.
  intros Hn Hn1 Hins Hbr Hex. unfold split_valued_ifelse, split_valued_ifelse_run.
  rewrite Hn. cbn [bind]. apply Nat.eqb_neq in Hn1. rewrite Hn1, Hins.
  destruct (get_related_valued_nodes node fgraph) as [|vn vns] eqn:Evn.
  { cbn in Hbr. injection Hbr as <-. inversion Hex. }
  rewrite Hbr. cbn [bind].
  assert (Hkeys : mapM (with_key (toposort fgraph)) branches = Raise ValueError).
  { clear Hbr. induction Hex as [x l Hx|x l _ IH]; cbn [mapM].
    - rewrite (with_key_rootless _ x Hx). reflexivity.
    - destruct (with_key (toposort fgraph) x) as [kx|e] eqn:E; cbn [bind].
      + rewrite IH. reflexivity.
      + rewrite (with_key_raises _ x e E). reflexivity. }
  rewrite Hkeys. reflexivity.
Qed.

(** An indexing node whose indices are all constants of the operation has
    no index argument: the rewriter matches it all the same, with an
    index count of 1. *)
Lemma find_measurable_index_mixture_no_argument (node : Apply)
    (joined_rvs : variable) (stack : Apply) (dt : string) (bc : list bool) :
  subtensor_ops (op node) = true ->
  inputs node = [joined_rvs] ->
  out_types node = [TensorType dt bc] ->
  owner joined_rvs = Some stack ->
  op stack = MakeVector ->
  forallb is_measurable (inputs stack) = true ->
  find_measurable_index_mixture node
  = Return (Some [Out (MixtureRV_make_node 1 dt bc (NoneConst :: inputs stack)) 0]).
Proof.
  intros Hops Hins Hout Hown Hop Hall.
  unfold find_measurable_index_mixture. rewrite Hins. cbn [skipn length Nat.add app].
  assert (Hguard : (if isinstance_Advanced (op node)
                    then any_repeating_index [] else Return false) = Return false)
    by (destruct (isinstance_Advanced (op node)); reflexivity).
  rewrite Hguard. cbn [bind].
  unfold default_output at 1. rewrite Hout. cbn [bind].
  unfold get_stack_mixture_vars. rewrite Hops, Hins.
  cbn [py_assert bind getitem nth_error]. rewrite Hown, Hop.
  rewrite (mapM_unwrap_measurable _ Hall).
  cbn [bind isinstance_Constant NoneConst negb].
  rewrite set_eq_filter_measurable, Hall. cbn [negb].
  unfold dtype, broadcastable. cbn [type]. rewrite Hout. reflexivity.
Qed.

End Rewriters.

(** ** The rewriters on the example graphs *)

Example scalar_index_matched :
  find_measurable_index_mixture example_subtensor_ops example_constant_fold
    scalar_index_node
  = Return (Some [Out (mkApply (MixtureRV 2 "float64" [])
                               [NoneConst; I_rv; X_rv; Y_rv] [float_scalar]) 0]).
Proof. reflexivity. Qed.



Lemma find_measurable_index_mixture_placeholder_witness :
  exists old_mixture_rv join_axis mixture_rvs out_dtype out_broadcastable,
    default_output scalar_index_node = Return old_mixture_rv
    /\ dtype old_mixture_rv = Return out_dtype
    /\ broadcastable old_mixture_rv = Return out_broadcastable
    /\ get_stack_mixture_vars example_subtensor_ops example_constant_fold
         scalar_index_node = Return (Some mixture_rvs, Some join_axis)
    /\ [Out (mkApply (MixtureRV 2 "float64" [])
                     [NoneConst; I_rv; X_rv; Y_rv] [float_scalar]) 0]
       = [Out (mkApply (MixtureRV (1 + length [I_rv]) out_dtype out_broadcastable)
                       (join_axis :: [I_rv] ++ mixture_rvs)
                       [TensorType out_dtype out_broadcastable]) 0]
    /\ 1 <= 1 + length [I_rv]
    /\ firstn (1 + length [I_rv]) (join_axis :: [I_rv] ++ mixture_rvs)
       = join_axis :: [I_rv]
    /\ skipn (1 + length [I_rv]) (join_axis :: [I_rv] ++ mixture_rvs) = mixture_rvs
    /\ length mixture_rvs
       = length (join_axis :: [I_rv] ++ mixture_rvs) - (1 + length [I_rv]).
Proof.
  exact (find_measurable_index_mixture_placeholder
           example_subtensor_ops example_constant_fold scalar_index_node _ eq_refl).
Defined.

(** C7, as stated, fails: the placeholder built for [stacked[I_rv]] has four
    inputs and index-count 2, and its two components are not "total inputs
    - 1 - index-count" many. *)
Lemma component_count_counterexample :
  exists k dt bc ins tys,
    find_measurable_index_mixture example_subtensor_ops example_constant_fold
      scalar_index_node
    = Return (Some [Out (mkApply (MixtureRV k dt bc) ins tys) 0])
    /\ skipn k ins = [X_rv; Y_rv]
    /\ (Z.of_nat (length (skipn k ins))
        <> Z.of_nat (length ins) - 1 - Z.of_nat k)%Z.
Proof.
  exists 2, "float64"%string, [], [NoneConst; I_rv; X_rv; Y_rv], [float_scalar].
  split; [reflexivity|]. split; [reflexivity|]. cbn. lia.
Qed.

Lemma repeated_index_guard_witness :
  any_repeating_index [Input 4 (TensorType "int64" [false])] = Return true
  /\ Exists repeating_int_index [Input 4 (TensorType "int64" [false])]
  /\ any_repeating_index [Input 5 (TensorType "bool" [false])] = Return false
  /\ find_measurable_index_mixture example_subtensor_ops example_constant_fold
       bool_vector_index_node
     = Return (Some [Out (MixtureRV_make_node 2 "float64" [false]
                            [NoneConst; Input 5 (TensorType "bool" [false]);
                             X_rv; Y_rv]) 0]).
Proof.
  assert (Hpass : Forall passes_guard [Input 5 (TensorType "bool" [false])]).
  { constructor; [|constructor]. apply (boolean_array _ [false]). reflexivity. }
  split; [reflexivity|]. split; [|split].
  - apply (proj1 (repeated_index_guard example_subtensor_ops example_constant_fold
                    [Input 4 (TensorType "int64" [false])])).
    reflexivity.
  - apply (proj1 (proj2 (repeated_index_guard example_subtensor_ops
                           example_constant_fold
                           [Input 5 (TensorType "bool" [false])]))).
    exact Hpass.
  - apply (proj2 (proj2 (repeated_index_guard example_subtensor_ops
                           example_constant_fold
                           [Input 5 (TensorType "bool" [false])]))
             bool_vector_index_node stacked
             (mkApply MakeVector [X_rv; Y_rv] [float_vector]) [X_rv; Y_rv]
             "float64"%string [false]);
      try reflexivity.
    exact Hpass.
Defined.

Lemma find_measurable_switch_mixture_spec_witness :
  find_measurable_switch_mixture example_potential_measurability
    example_elemwise_out_type switch_node
  = Return (Some [Out (mkApply MeasurableSwitchMixture
                         [Input 6 (TensorType "bool" []); X_rv; Y_rv]
                         [float_scalar]) 0]).
Proof.
  assert (H : switch_preconditions example_potential_measurability
                (Input 6 (TensorType "bool" [])) X_rv Y_rv [] [] []).
  { repeat split. }
  destruct (proj1 (find_measurable_switch_mixture_spec
                     example_potential_measurability example_elemwise_out_type
                     switch_node (Input 6 (TensorType "bool" [])) X_rv Y_rv
                     "float64"%string "float64"%string "float64"%string [] [] [] []
                     eq_refl eq_refl eq_refl eq_refl) eq_refl H)
    as [[o ins tys] [Hfind [Hop [_ [Hins Htys]]]]].
  cbn [op inputs out_types] in Hop, Hins, Htys. subst o ins tys. exact Hfind.
Defined.

(** A conditional whose branches form a chain: the else-branch of the first
    output is drawn around its then-branch, and the then-branch of the second
    output around that else-branch. *)
Definition chain_else : variable := random_draw "normal_rv" 12 [X_rv] float_scalar.
Definition chain_then : variable := random_draw "normal_rv" 13 [chain_else] float_scalar.

Definition chain_ifelse_node : Apply :=
  mkApply (IfElse 2) [if_cond; X_rv; chain_then; chain_else; W_rv]
          [float_scalar; float_scalar].

Definition chain_toposort (fgraph : unit) : list Apply :=
  [owner_node X_rv; owner_node chain_else; owner_node chain_then; owner_node W_rv;
   chain_ifelse_node].

Definition chain_first : valued_branch :=
  (X_rv, chain_else, Input 10 float_scalar,
   Out (valued_node (Out chain_ifelse_node 0) 10) 0).

Definition chain_second : valued_branch :=
  (chain_then, W_rv, Input 11 float_scalar,
   Out (valued_node (Out chain_ifelse_node 1) 11) 0).

Definition chain_first_valued : variable :=
  Out (mkApply ValuedRV
         [Out (mkApply (IfElse 1) [if_cond; X_rv; chain_else] [float_scalar]) 0;
          Input 10 float_scalar] [float_scalar]) 0.

Definition chain_rebuilt : Apply :=
  mkApply (IfElse 1) [if_cond; chain_then; W_rv] [float_scalar].


(** On the chain the three [replace] calls leave the dummy in the node of
    the else-branch of the extracted conditional: it was rewired when the
    then-branch was replaced, and was no longer in the temporary graph when
    the dummy was replaced. *)
Example chain_else_keeps_dummy :
  exists replacements rewired,
    split_valued_ifelse_run unit chain_toposort example_valued_nodes tt
      chain_ifelse_node = Return (Some (replacements, rewired))
    /\ node_inputs rewired (owner_node chain_else)
       = [Input 12 rng_type; Input 14 float_scalar].
Proof.
  eexists. eexists. split; [reflexivity|]. reflexivity.
Qed.


Lemma split_valued_ifelse_ancestor_overlap_witness :
  set_intersects
    (map branch_then [swapped_second_branch] ++ map branch_else [swapped_second_branch])
    (filter has_owner
       (ancestors [branch_then swapped_first_branch;
                   branch_else swapped_first_branch])) = true
  /\ split_valued_ifelse unit swapped_toposort example_valued_nodes tt
       swapped_ifelse_node = Return None.
Proof.
  split; [reflexivity|].
  exact (split_valued_ifelse_ancestor_overlap unit swapped_toposort
           example_valued_nodes tt swapped_ifelse_node 2 if_cond
           [Z_rv; X_rv; Y_rv; W_rv]
           [swapped_second_branch; swapped_first_branch]
           [(3, swapped_second_branch); (2, swapped_first_branch)]
           swapped_first_branch [swapped_second_branch] float_scalar
           eq_refl (fun H => Nat.neq_succ_diag_l 1 H) eq_refl eq_refl eq_refl eq_refl
           eq_refl eq_refl).
Defined.


(** ** The further properties on the example graphs *)

Definition single_ifelse_node : Apply :=
  mkApply (IfElse 1) [if_cond; X_rv; Y_rv] [float_scalar].

Definition newaxis_index_node : Apply :=
  mkApply AdvancedSubtensor
          [stacked; Input 5 (TensorType "bool" [false]); NoneConst]
          [TensorType "float64" [false; true]].

Definition example_single_valued (node : Apply) (fgraph : unit) : list Apply :=
  [valued_node (Out node 0) 10].

(** A conditional whose first then-branch is a graph input. *)
Definition rootless_ifelse_node : Apply :=
  mkApply (IfElse 2) [if_cond; Input 12 float_scalar; Z_rv; Y_rv; W_rv]
          [float_scalar; float_scalar].

Lemma find_measurable_ifelse_mixture_spec_witness :
  find_measurable_ifelse_mixture example_potential_measurability single_ifelse_node
  = Return (Some [Out (mkApply (MeasurableIfElse 1) [if_cond; X_rv; Y_rv]
                               [float_scalar]) 0]).
Proof.
  apply (proj1 (proj2 (proj2 (find_measurable_ifelse_mixture_spec
                                example_potential_measurability single_ifelse_node 1))
                  if_cond X_rv Y_rv float_scalar eq_refl eq_refl eq_refl)).
  repeat split.
Defined.

Lemma rewritten_variables_measurable_witness :
  [measurable_switch_mixture example_elemwise_out_type
     [Input 6 (TensorType "bool" []); X_rv; Y_rv]] <> []
  /\ Forall (fun v => is_measurable v = true
                      /\ exists made, owner v = Some made
                           /\ find_measurable_switch_mixture
                                example_potential_measurability
                                example_elemwise_out_type made = Return None
                           /\ find_measurable_ifelse_mixture
                                example_potential_measurability made = Return None)
            [measurable_switch_mixture example_elemwise_out_type
               [Input 6 (TensorType "bool" []); X_rv; Y_rv]].
Proof.
  exact (rewritten_variables_measurable example_subtensor_ops example_constant_fold
           example_potential_measurability example_elemwise_out_type switch_node
           _ (or_intror (or_introl eq_refl))).
Defined.

Lemma get_stack_mixture_vars_spec_witness :
  exists joined_rvs,
    nth_error (inputs scalar_index_node) 0 = Some joined_rvs
    /\ ((Some [X_rv; Y_rv] = None /\ Some NoneConst = None
         /\ forall joined, owner joined_rvs = Some joined ->
                           op joined <> MakeVector /\ op joined <> Join)
        \/ exists joined mixture_rvs join_axis operands,
             Some [X_rv; Y_rv] = Some mixture_rvs /\ Some NoneConst = Some join_axis
             /\ owner joined_rvs = Some joined
             /\ Forall2 (fun rv rv' => unwrap_promised rv = Return rv')
                        operands mixture_rvs
             /\ (op joined = MakeVector /\ operands = inputs joined
                 /\ join_axis = NoneConst
                 \/ exists ax,
                      op joined = Join /\ inputs joined = ax :: operands
                      /\ join_axis = match example_constant_fold ax with
                                     | Some z => Constant (TensorType "int64" []) (DInt z)
                                     | None => ax
                                     end)).
Proof.
  exact (get_stack_mixture_vars_spec example_subtensor_ops example_constant_fold
           scalar_index_node (Some [X_rv; Y_rv]) (Some NoneConst) eq_refl).
Defined.

Lemma find_measurable_index_mixture_none_only_if_witness :
  well_formed_index_node example_subtensor_ops int_vector_index_node = true
  /\ find_measurable_index_mixture example_subtensor_ops example_constant_fold
       int_vector_index_node = Return None
  /\ misses_precondition example_constant_fold int_vector_index_node.
Proof.
  split; [reflexivity|]. split; [reflexivity|].
  exact (find_measurable_index_mixture_none_only_if example_subtensor_ops
           example_constant_fold int_vector_index_node eq_refl eq_refl).
Defined.

Lemma repeated_index_guard_untyped_witness :
  find_measurable_index_mixture example_subtensor_ops example_constant_fold
    newaxis_index_node = Raise AttributeError.
Proof.
  apply (repeated_index_guard_untyped example_subtensor_ops example_constant_fold
           newaxis_index_node [Input 5 (TensorType "bool" [false])] [] NoneConst
           NoneTypeT eq_refl eq_refl).
  - constructor; [|constructor]. apply (boolean_array _ [false]). reflexivity.
  - reflexivity.
  - reflexivity.
  - intros dt bc H. discriminate H.
Defined.

Lemma split_valued_ifelse_single_witness :
  split_valued_ifelse unit example_toposort example_single_valued tt ifelse_node
  = Return (Some [(branch_valued_out first_branch,
                   first_valued if_cond first_branch float_scalar)]).
Proof.
  exact (split_valued_ifelse_single unit example_toposort example_single_valued
           tt ifelse_node 2 if_cond [X_rv; Z_rv; Y_rv; W_rv]
           (valued_node (Out ifelse_node 0) 10) first_branch 1 float_scalar
           eq_refl (fun H => Nat.neq_succ_diag_l 1 H) eq_refl eq_refl eq_refl eq_refl
           eq_refl).
Defined.

Lemma split_valued_ifelse_rootless_branch_witness :
  split_valued_ifelse unit example_toposort example_valued_nodes tt
    rootless_ifelse_node = Raise ValueError.
Proof.
  apply (split_valued_ifelse_rootless_branch unit example_toposort
           example_valued_nodes tt rootless_ifelse_node 2 if_cond
           [Input 12 float_scalar; Z_rv; Y_rv; W_rv]
           [(Z_rv, W_rv, Input 11 float_scalar,
             Out (valued_node (Out rootless_ifelse_node 1) 11) 0);
            (Input 12 float_scalar, Y_rv, Input 10 float_scalar,
             Out (valued_node (Out rootless_ifelse_node 0) 10) 0)]
           eq_refl (fun H => Nat.neq_succ_diag_l 1 H) eq_refl eq_refl).
  apply Exists_cons_tl. apply Exists_cons_hd. left. reflexivity.
Defined.

End Graph.

Module Tensor.

(** ** Tensor values

    The value of a tensor variable: a shape and an entry for every position
    (a list of coordinates, one per dimension). *)

Record tensor (A : Type) : Type := mkTensor {
  tshape : list nat;
  tdata : list nat -> A
}.

Arguments mkTensor {A} tshape tdata.
Arguments tshape {A} t.
Arguments tdata {A} t p.

Definition ndim {A : Type} (t : tensor A) : nat := length (tshape t).

(** A position of a tensor of a given shape. *)
Definition valid_position (shape p : list nat) : Prop := Forall2 lt p shape.

(** All positions of a shape, in row-major order. *)
Fixpoint all_positions (shape : list nat) : list (list nat) :=
  match shape with
  | [] => [[]]
  | d :: rest => flat_map (fun i => map (cons i) (all_positions rest)) (seq 0 d)
  end.

(** [t.item()], the entry of a tensor with a single entry. *)
Definition item {A : Type} (t : tensor A) : A := tdata t (repeat 0 (ndim t)).

(** Python's [seq[i]] for a possibly negative [i]. *)
Definition py_getitem {A : Type} (l : list A) (i : Z) : result A :=
  if (0 <=? i)%Z then getitem l (Z.to_nat i)
  else if (- Z.of_nat (length l) <=? i)%Z
       then getitem l (Z.to_nat (Z.of_nat (length l) + i))
       else Raise IndexError.

(** *** Broadcasting *)

(** Broadcast of two shapes given from their last dimension on. *)
Fixpoint broadcast_dims (a b : list nat) : result (list nat) :=
  match a, b with
  | [], _ => Return b
  | _, [] => Return a
  | x :: a', y :: b' =>
      r <- broadcast_dims a' b' ;;
      if x =? y then Return (x :: r)
      else if x =? 1 then Return (y :: r)
      else if y =? 1 then Return (x :: r)
      else Raise ValueError
  end.

Definition broadcast_shape (s1 s2 : list nat) : result (list nat) :=
  r <- broadcast_dims (rev s1) (rev s2) ;; Return (rev r).

Fixpoint broadcast_shapes (shapes : list (list nat)) : result (list nat) :=
  match shapes with
  | [] => Return []
  | s :: rest => acc <- broadcast_shapes rest ;; broadcast_shape s acc
  end.

(** The position read in a tensor of shape [shape] for position [p] of a
    tensor it is broadcast to: the last coordinates of [p], with 0 along the
    dimensions of length 1. *)
Definition broadcast_position (shape p : list nat) : list nat :=
  map (fun di => if fst di =? 1 then 0 else snd di)
      (combine shape (skipn (length p - length shape) p)).

Definition broadcast_to {A : Type} (t : tensor A) (shape : list nat) : tensor A :=
  mkTensor shape (fun p => tdata t (broadcast_position (tshape t) p)).

(** [pt.broadcast_arrays]. *)
Definition broadcast_arrays {A : Type} (ts : list (tensor A)) : result (list (tensor A)) :=
  shape <- broadcast_shapes (map tshape ts) ;;
  Return (map (fun t => broadcast_to t shape) ts).

(** *** Indexing with new axes, ranges *)

(** [t[(None,) * k]]: [k] new leading axes. *)
Definition newaxes_front {A : Type} (k : nat) (t : tensor A) : tensor A :=
  mkTensor (repeat 1 k ++ tshape t) (fun p => tdata t (skipn k p)).

(** [t[(Ellipsis,) + (None,) * k]]: [k] new trailing axes. *)
Definition newaxes_back {A : Type} (k : nat) (t : tensor A) : tensor A :=
  mkTensor (tshape t ++ repeat 1 k) (fun p => tdata t (firstn (ndim t) p)).

(** The number of entries of [range(start, stop, step)]; none when [step]
    is 0. *)
Definition range_length (start stop step : Z) : nat :=
  if (0 <? step)%Z then Z.to_nat ((stop - start + step - 1) / step)
  else if (step <? 0)%Z then Z.to_nat ((start - stop - step - 1) / (- step))
  else 0.

(** [pt.arange(start, stop, step)]. *)
Definition arange (start stop step : Z) : tensor Z :=
  mkTensor [range_length start stop step]
           (fun p => (start + Z.of_nat (hd 0%nat p) * step)%Z).

(** ** Indices *)

(** A slice with constant bounds, [slice(start, stop, step)]. *)
Record slice : Type := mkSlice {
  start : option Z;
  stop : option Z;
  step : option Z
}.

(** An index of an indexing expression: [None] (a new axis), a slice, or
    an integer tensor (a scalar has rank 0). *)
Inductive index : Type :=
| NewAxis
| Slice (s : slice)
| TensorIndex (t : tensor Z).

Definition is_newaxis (x : index) : bool :=
  match x with
  | NewAxis => true
  | _ => false
  end.

(** [pytensor.tensor.subtensor.is_basic_idx]: slices and [None]. *)
Definition is_basic_idx (x : index) : bool :=
  match x with
  | NewAxis | Slice _ => true
  | TensorIndex _ => false
  end.

(** [getattr(idx, "ndim", 0)]. *)
Definition index_ndim (x : index) : nat :=
  match x with
  | TensorIndex t => ndim t
  | _ => 0
  end.

(** [list.index(x, start)]. *)
Fixpoint index_from (x : bool) (from : nat) (l : list bool) : option nat :=
  match l with
  | [] => None
  | b :: r =>
      match from with
      | 0 => if Bool.eqb b x then Some 0 else option_map S (index_from x 0 r)
      | S from' => option_map S (index_from x from' r)
      end
  end.

Definition count_true (l : list bool) : nat := length (filter (fun b => b) l).

Section ExpandIndices.

(** [get_canonical_form_slice(idx, s)] of [pytensor.tensor.subtensor]: the
    start, stop and step of the canonical form of a slice along a dimension
    of length [s]. *)
Variable get_canonical_form_slice : slice -> nat -> Z * Z * Z.

Definition full_indices (indices : list index) (shape : list nat) : list index :=
  let n_non_newaxis := length (filter (fun idx => negb (is_newaxis idx)) indices) in
  let n_missing_dims := length shape - n_non_newaxis in
  indices ++ repeat (Slice (mkSlice None None None)) n_missing_dims.

(** Lines 117-124: the first advanced index (the length of the shape when
    there is none) and whether the advanced indices are split by a basic
    one. *)
Definition subspace_layout (index_types : list bool) (shape : list nat) : nat * bool :=
  match index_from false 0 index_types with
  | None => (length shape, false)
  | Some first_adv_idx =>
      match index_from true first_adv_idx index_types with
      | None => (first_adv_idx, false)
      | Some first_bsc_after_adv_idx =>
          match index_from false first_bsc_after_adv_idx index_types with
          | None => (first_adv_idx, false)
          | Some _ => (first_adv_idx, true)
          end
      end
  end.

Definition n_basic_indices (full : list index) : nat :=
  count_true (map is_basic_idx full).

Definition n_subspace_dims (full : list index) : nat :=
  list_max (map index_ndim (filter (fun idx => negb (is_basic_idx idx)) full)).

(** [shape_copy.pop(0)]. *)
Definition pop0 (shape_copy : list nat) : result (nat * list nat) :=
  match shape_copy with
  | [] => Raise IndexError
  | s :: rest => Return (s, rest)
  end.

(** The loop of lines 144-207 from position [d] on. *)
Fixpoint expand_loop (first_adv_idx : nat) (moved_subspace : bool)
    (n_basic n_subspace : nat)
    (d : nat) (rest : list index) (shape_copy : list nat) (n_preceding_basics : nat)
  : result (list (tensor Z)) :=
  let n_output_dims := n_subspace + n_basic in
  match rest with
  | [] => Return []
  | idx :: rest' =>
      match idx with
      | TensorIndex t =>
          sr <- pop0 shape_copy ;;
          let expanded_idx :=
            if moved_subspace then newaxes_back n_basic t
            else newaxes_back (n_basic - n_preceding_basics)
                              (newaxes_front n_preceding_basics t) in
          _ <- py_assert (ndim expanded_idx <=? n_output_dims) ;;
          more <- expand_loop first_adv_idx moved_subspace n_basic n_subspace
                    (S d) rest' (snd sr) n_preceding_basics ;;
          Return (expanded_idx :: more)
      | NewAxis =>
          expand_loop first_adv_idx moved_subspace n_basic n_subspace
            (S d) rest' shape_copy (n_preceding_basics + 1)
      | Slice sl =>
          sr <- pop0 shape_copy ;;
          let '(start, stop, step) := get_canonical_form_slice sl (fst sr) in
          let idx := arange start stop step in
          let expanded_idx :=
            if moved_subspace
            then newaxes_back (n_basic - n_preceding_basics - 1)
                              (newaxes_front (n_subspace + n_preceding_basics) idx)
            else
              let n_preceding_dims :=
                (if first_adv_idx <? d then n_subspace else 0) + n_preceding_basics in
              newaxes_back (n_output_dims - n_preceding_dims - 1)
                           (newaxes_front n_preceding_dims idx) in
          _ <- py_assert (ndim expanded_idx <=? n_output_dims) ;;
          more <- expand_loop first_adv_idx moved_subspace n_basic n_subspace
                    (S d) rest' (snd sr) (n_preceding_basics + 1) ;;
          Return (expanded_idx :: more)
      end
  end.

Definition expand_indices (indices : list index) (shape : list nat)
  : result (list (tensor Z)) :=
  let full := full_indices indices shape in
  let index_types := map is_basic_idx full in
  let '(first_adv_idx, moved_subspace) := subspace_layout index_types shape in
  adv_indices <- expand_loop first_adv_idx moved_subspace
                   (n_basic_indices full) (n_subspace_dims full)
                   0 full shape 0 ;;
  broadcast_arrays adv_indices.

End ExpandIndices.

(** ** Element-wise primitives, gathering and scattering *)

(** [pt.eq(t, m)] for an integer [m]. *)
Definition eq_scalar (t : tensor Z) (m : Z) : tensor bool :=
  mkTensor (tshape t) (fun p => Z.eqb (tdata t p) m).

(** The tuple of coordinate vectors [pt.nonzero] returns, one vector per
    dimension of the mask, kept as the number of vectors and the list of the
    positions they spell. *)
Record coordinates : Type := mkCoordinates {
  coord_rank : nat;
  coord_positions : list (list nat)
}.

(** [pt.nonzero(mask)]: the positions of the true entries in row-major
    order; a mask of rank 0 is refused. *)
Definition nonzero (mask : tensor bool) : result coordinates :=
  match tshape mask with
  | [] => Raise ValueError
  | _ => Return (mkCoordinates (ndim mask)
                   (filter (tdata mask) (all_positions (tshape mask))))
  end.

(** [t[coords]]: entry [k] is the part of [t] at the [k]-th position. *)
Definition take {A : Type} (t : tensor A) (coords : coordinates) : tensor A :=
  mkTensor (length (coord_positions coords) :: skipn (coord_rank coords) (tshape t))
           (fun p => tdata t (nth (hd 0 p) (coord_positions coords) [] ++ tl p)).

Definition position_eqb (p q : list nat) : bool := Graph.list_eqb Nat.eqb p q.

(** The last [k] with [positions[k] = p]. *)
Fixpoint last_index (p : list nat) (positions : list (list nat)) : option nat :=
  match positions with
  | [] => None
  | q :: rest =>
      match last_index p rest with
      | Some k => Some (S k)
      | None => if position_eqb q p then Some 0 else None
      end
  end.

(** [pt.set_subtensor(buf[coords], y)]: [buf] with [y], broadcast over the
    positions, written at them. *)
Definition set_subtensor {A : Type} (buf : tensor A) (coords : coordinates)
    (y : tensor A) : tensor A :=
  let d := coord_rank coords in
  mkTensor (tshape buf)
           (fun p => match last_index (firstn d p) (coord_positions coords) with
                     | Some k => tdata y (broadcast_position (tshape y) (k :: skipn d p))
                     | None => tdata buf p
                     end).

(** [pt.expand_dims(t, axis)] and [pt.squeeze(t, axis)] for an integer
    axis, counted from the end when negative. *)
Definition insert_at {A : Type} (k : nat) (a : A) (l : list A) : list A :=
  firstn k l ++ a :: skipn k l.

Definition remove_at {A : Type} (k : nat) (l : list A) : list A :=
  firstn k l ++ skipn (S k) l.

Definition normalize_axis (axis : Z) (n : nat) : result nat :=
  if ((0 <=? axis) && (axis <? Z.of_nat n))%Z then Return (Z.to_nat axis)
  else if ((- Z.of_nat n <=? axis) && (axis <? 0))%Z
       then Return (Z.to_nat (Z.of_nat n + axis))
       else Raise ValueError.

Definition expand_dims {A : Type} (t : tensor A) (axis : Z) : result (tensor A) :=
  k <- normalize_axis axis (S (ndim t)) ;;
  Return (mkTensor (insert_at k 1 (tshape t)) (fun p => tdata t (remove_at k p))).

Definition squeeze {A : Type} (t : tensor A) (axis : Z) : result (tensor A) :=
  k <- normalize_axis axis (ndim t) ;;
  if nth k (tshape t) 0 =? 1
  then Return (mkTensor (remove_at k (tshape t)) (fun p => tdata t (insert_at k 0 p)))
  else Raise ValueError.

(** ** Log-density derivations *)

Section LogProb.

(** The entries of observed values and of log-densities, with the zero and
    the addition of the floating-point type and the content of a buffer that
    was allocated and not written. *)
Variable V : Type.
Variable zero : V.
Variable add : V -> V -> V.
Variable uninitialized : V.

Variable get_canonical_form_slice : slice -> nat -> Z * Z * Z.

(** The graph of a component: a measurable variable, indexed as the
    derivation indexes it. *)
Inductive rv_graph : Type :=
| Component (name : nat)
| NewAxisFront (rv : rv_graph)
| FirstItem (rv : rv_graph)
| AdvancedIndex (rv : rv_graph) (indices : list (tensor Z)).

(** The rewrites handed to the equilibrium rewriter. *)
Inductive rewrite : Type :=
| local_rv_size_lift
| local_dimshuffle_rv_lift
| local_subtensor_rv_lift
| local_lift_DiracDelta.

(** [EquilibriumGraphRewriter(rewrites, max_use_ratio).rewrite] on the
    graph of one output, [pymc.logprob.abstract._logprob_helper] and
    [pytensor.tensor.shape.shape_tuple]. *)
Variable EquilibriumGraphRewriter : list rewrite -> nat -> rv_graph -> rv_graph.
Variable _logprob_helper : rv_graph -> tensor V -> tensor V.
Variable shape_tuple : rv_graph -> list nat.

Definition rv_pull_down (x : rv_graph) : rv_graph :=
  let rewrites := [local_rv_size_lift; local_dimshuffle_rv_lift;
                   local_subtensor_rv_lift; local_lift_DiracDelta] in
  EquilibriumGraphRewriter rewrites 100 x.

(** An input of a [MixtureRV] node by what it stands for: [NoneConst], a
    slice constant, an integer tensor (a constant or not) or a component. *)
Inductive input : Type :=
| InNone
| InSlice (s : slice)
| InTensor (constant : bool) (t : tensor Z)
| InComponent (rv : rv_graph).

Definition as_index (x : input) : result index :=
  match x with
  | InNone => Return NewAxis
  | InSlice s => Return (Slice s)
  | InTensor _ t => Return (TensorIndex t)
  | InComponent _ => Raise TypeError
  end.

Definition as_component (x : input) : result rv_graph :=
  match x with
  | InComponent rv => Return rv
  | _ => Raise TypeError
  end.

(** [x.ndim]. *)
Definition input_ndim (x : input) : result nat :=
  match x with
  | InTensor _ t => Return (ndim t)
  | _ => Raise AttributeError
  end.

(** [constant_fold((join_axis,))[0].item()] and [join_axis.data]. *)
Definition constant_value (x : input) : result Z :=
  match x with
  | InTensor true t => Return (item t)
  | InTensor false _ => Raise ValueError
  | _ => Raise TypeError
  end.

Definition constant_data (x : input) : result Z :=
  match x with
  | InTensor true t => Return (item t)
  | _ => Raise AttributeError
  end.

Definition isinstance_NoneTypeT (x : input) : bool :=
  match x with
  | InNone => true
  | _ => false
  end.

Fixpoint mapM {A B : Type} (f : A -> result B) (l : list A) : result (list B) :=
  match l with
  | [] => Return []
  | a :: r => b <- f a ;; bs <- mapM f r ;; Return (b :: bs)
  end.

(** [tuple(v[idx_m_on_axis] for i, v in enumerate(bcast_indices) if i !=
    join_axis_val)], from position [i] on. *)
Fixpoint gather_other (join_axis_val : Z) (idx_m_on_axis : coordinates)
    (i : nat) (bcast_indices : list (tensor Z)) : list (tensor Z) :=
  match bcast_indices with
  | [] => []
  | v :: rest =>
      let more := gather_other join_axis_val idx_m_on_axis (S i) rest in
      if negb (Z.of_nat i =? join_axis_val)%Z then take v idx_m_on_axis :: more
      else more
  end.

(** [rv.ndim]: the number of dimensions of a component is the length of
    its [shape_tuple]. *)
Fixpoint rv_ndim (rv : rv_graph) : nat :=
  match rv with
  | Component _ => length (shape_tuple rv)
  | NewAxisFront rv' => S (rv_ndim rv')
  | FirstItem rv' => rv_ndim rv' - 1
  | AdvancedIndex rv' indices =>
      list_max (map ndim indices) + (rv_ndim rv' - length indices)
  end.

(** [rv[0]] and [rv[indices]] for a tuple of integer tensors: indexing by
    more indices than [rv] has dimensions is an [IndexError]. *)
Definition first_item (rv : rv_graph) : result rv_graph :=
  if 1 <=? rv_ndim rv then Return (FirstItem rv) else Raise IndexError.

Definition advanced_index (rv : rv_graph) (indices : list (tensor Z))
  : result rv_graph :=
  if length indices <=? rv_ndim rv then Return (AdvancedIndex rv indices)
  else Raise IndexError.

(** One round of the loop at lines 358-372. *)
Definition vector_step (value : tensor V) (bcast_indices : list (tensor Z))
    (join_axis_val : Z) (m : nat) (rv : rv_graph) (logp_val : tensor V)
  : result (tensor V) :=
  on_axis <- py_getitem bcast_indices join_axis_val ;;
  idx_m_on_axis <- nonzero (eq_scalar on_axis (Z.of_nat m)) ;;
  let m_indices := gather_other join_axis_val idx_m_on_axis 0 bcast_indices in
  rv <- first_item rv ;;
  indexed <- match m_indices with
             | [] => Return rv
             | _ => advanced_index rv m_indices
             end ;;
  let rv_m := rv_pull_down indexed in
  let val_m := take value idx_m_on_axis in
  let logp_m := _logprob_helper rv_m val_m in
  Return (set_subtensor logp_val idx_m_on_axis logp_m).

Fixpoint vector_loop (value : tensor V) (bcast_indices : list (tensor Z))
    (join_axis_val : Z) (m : nat) (comp_rvs : list rv_graph) (logp_val : tensor V)
  : result (tensor V) :=
  match comp_rvs with
  | [] => Return logp_val
  | rv :: rest =>
      logp_val <- vector_step value bcast_indices join_axis_val m rv logp_val ;;
      vector_loop value bcast_indices join_axis_val (S m) rest logp_val
  end.

(** Element-wise addition with broadcasting. *)
Definition tensor_add (a b : tensor V) : result (tensor V) :=
  shape <- broadcast_shape (tshape a) (tshape b) ;;
  Return (mkTensor shape
            (fun p => add (tdata a (broadcast_position (tshape a) p))
                          (tdata b (broadcast_position (tshape b) p)))).

Definition zeros_like (t : tensor V) : tensor V :=
  mkTensor (tshape t) (fun _ => zero).

(** [pytensor.ifelse.ifelse] on values: the condition is a scalar. *)
Definition ifelse {A : Type} (cond : bool) (then_branch else_branch : A) : A :=
  if cond then then_branch else else_branch.

(** The loop at lines 388-396. *)
Fixpoint scalar_loop (value : tensor V) (join_axis_val : option Z) (index : tensor Z)
    (i : nat) (comp_rvs : list rv_graph) (logp_val : tensor V) : result (tensor V) :=
  match comp_rvs with
  | [] => Return logp_val
  | comp_rv :: rest =>
      let comp_logp := _logprob_helper comp_rv value in
      comp_logp <- match join_axis_val with
                   | Some axis => squeeze comp_logp axis
                   | None => Return comp_logp
                   end ;;
      logp_val <- tensor_add logp_val
                    (ifelse (item (eq_scalar index (Z.of_nat i)))
                            comp_logp (zeros_like comp_logp)) ;;
      scalar_loop value join_axis_val index (S i) rest logp_val
  end.

(** Lines 340-352: the value of the join axis, the components in [Join]
    format and the shape the indices are expanded against. *)
Definition vector_setup (join_axis : input) (comp_rvs : list rv_graph)
  : result (Z * list rv_graph * list nat) :=
  if isinstance_NoneTypeT join_axis
  then
    let join_axis_val := 0%Z in
    let comp_rvs := map NewAxisFront comp_rvs in
    let original_shape := [length comp_rvs] in
    Return (join_axis_val, comp_rvs, original_shape)
  else
    join_axis_val <- constant_value join_axis ;;
    first_comp <- getitem comp_rvs 0 ;;
    let original_shape := shape_tuple first_comp in
    Return (join_axis_val, comp_rvs, original_shape).

Definition logprob_MixtureRV (indices_end_idx : nat) (values : list (tensor V))
    (inputs : list input) : result (tensor V) :=
  match values with
  | [value] =>
      join_axis <- getitem inputs 0 ;;
      let indices := firstn (indices_end_idx - 1) (skipn 1 inputs) in
      let comp_rvs := skipn indices_end_idx inputs in
      _ <- py_assert (0 <? length indices) ;;
      first_index <- getitem indices 0 ;;
      vector <- (if 1 <? length indices then Return true
                 else n <- input_ndim first_index ;; Return (0 <? n)) ;;
      if (vector : bool) then
        indices <- mapM as_index indices ;;
        comp_rvs <- mapM as_component comp_rvs ;;
        setup <- vector_setup join_axis comp_rvs ;;
        let '(join_axis_val, comp_rvs, original_shape) := setup in
        bcast_indices <- expand_indices get_canonical_form_slice indices original_shape ;;
        first_bcast <- getitem bcast_indices 0 ;;
        let logp_val := mkTensor (tshape first_bcast) (fun _ => uninitialized) in
        vector_loop value bcast_indices join_axis_val 0 comp_rvs logp_val
      else
        index <- match first_index with
                 | InTensor _ t => Return t
                 | _ => Raise TypeError
                 end ;;
        comp_rvs <- mapM as_component comp_rvs ;;
        join_axis_val <- (if isinstance_NoneTypeT join_axis then Return None
                          else a <- constant_data join_axis ;; Return (Some a)) ;;
        value <- match join_axis_val with
                 | Some axis => expand_dims value axis
                 | None => Return value
                 end ;;
        scalar_loop value join_axis_val index 0 comp_rvs (mkTensor [] (fun _ => zero))
  | _ => Raise ValueError
  end.

(** Element-wise [switch] with broadcasting. *)
Definition switch (cond : tensor bool) (a b : tensor V) : result (tensor V) :=
  s <- broadcast_shape (tshape a) (tshape b) ;;
  shape <- broadcast_shape (tshape cond) s ;;
  Return (mkTensor shape
            (fun p => if tdata cond (broadcast_position (tshape cond) p)
                      then tdata a (broadcast_position (tshape a) p)
                      else tdata b (broadcast_position (tshape b) p))).

Definition logprob_switch_mixture (values : list (tensor V)) (switch_cond : tensor bool)
    (component_true component_false : rv_graph) : result (tensor V) :=
  match values with
  | [value] =>
      switch switch_cond
             (_logprob_helper component_true value)
             (_logprob_helper component_false value)
  | _ => Raise ValueError
  end.

Definition logprob_ifelse (values : list (tensor V)) (if_var : tensor bool)
    (rv_then rv_else : rv_graph) : result (tensor V) :=
  match values with
  | [value] =>
      let logps_then := _logprob_helper rv_then value in
      let logps_else := _logprob_helper rv_else value in
      Return (ifelse (item if_var) logps_then logps_else)
  | _ => Raise ValueError
  end.

Set Default Proof Using "Type".

(** The zero of the entries is neutral for their addition. *)
Hypothesis add_zero_l : forall x, add zero x = x.
Hypothesis add_zero_r : forall x, add x zero = x.

(** ** Properties of broadcasting *)

Lemma broadcast_dims_same (a : list nat) : broadcast_dims a a = Return a.
Proof.
  induction a as [|x a IH]; cbn [broadcast_dims]; [reflexivity|].
  rewrite IH. cbn [bind]. rewrite Nat.eqb_refl. reflexivity.
Qed.

Lemma broadcast_shape_same (s : list nat) : broadcast_shape s s = Return s.
Proof.
  unfold broadcast_shape. rewrite broadcast_dims_same. cbn [bind].
  rewrite rev_involutive. reflexivity.
Qed.

Lemma broadcast_shape_nil_l (s : list nat) : broadcast_shape [] s = Return s.
Proof.
  unfold broadcast_shape. cbn [rev broadcast_dims bind].
  rewrite rev_involutive. reflexivity.
Qed.

Lemma broadcast_position_nil (p : list nat) : broadcast_position [] p = [].
Proof. reflexivity. Qed.

Lemma broadcast_position_valid (shape p : list nat) :
  valid_position shape p -> broadcast_position shape p = p.
Proof.
  unfold valid_position, broadcast_position. intros H.
  rewrite (Forall2_length H), Nat.sub_diag. cbn [skipn].
  induction H as [|i d p shape Hlt _ IH]; [reflexivity|].
  cbn [combine map fst snd]. rewrite IH. f_equal.
  destruct (d =? 1) eqn:E; [|reflexivity].
  apply Nat.eqb_eq in E. lia.
Qed.

(** ** The switch and if-else derivations *)

(** C4: the log-density of a measurable switch is one element-wise select
    between the densities of the two branches, and that of a measurable
    single-output if-else is the density of the branch the condition picks:
    where the condition is true everywhere the result is the density of the
    true branch, where it is false everywhere that of the false branch. *)
Theorem conditional_logprob_selects
    (value : tensor V) (switch_cond if_var : tensor bool)
    (component_true component_false : rv_graph) :
  let logp_true := _logprob_helper component_true value in
  let logp_false := _logprob_helper component_false value in
  (forall out,
      logprob_switch_mixture [value] switch_cond component_true component_false
      = Return out ->
      (forall p,
          tdata out p
          = if tdata switch_cond (broadcast_position (tshape switch_cond) p)
            then tdata logp_true (broadcast_position (tshape logp_true) p)
            else tdata logp_false (broadcast_position (tshape logp_false) p))
      /\ ((forall q, tdata switch_cond q = true) ->
          forall p, tdata out p
                    = tdata logp_true (broadcast_position (tshape logp_true) p))
      /\ ((forall q, tdata switch_cond q = false) ->
          forall p, tdata out p
                    = tdata logp_false (broadcast_position (tshape logp_false) p)))
  /\ (tshape switch_cond = tshape logp_true ->
      tshape logp_false = tshape logp_true ->
      exists out,
        logprob_switch_mixture [value] switch_cond component_true component_false
        = Return out
        /\ tshape out = tshape logp_true
        /\ forall p, valid_position (tshape logp_true) p ->
                     tdata out p = if tdata switch_cond p then tdata logp_true p
                                   else tdata logp_false p)
  /\ logprob_ifelse [value] if_var component_true component_false
     = Return (if item if_var then logp_true else logp_false).
Proof.
  intros logp_true logp_false. split; [|split].
  - intros out H. unfold logprob_switch_mixture, switch in H.
    apply Graph.bind_Return in H. destruct H as [s [_ H]].
    apply Graph.bind_Return in H. destruct H as [shape [_ H]].
    injection H as <-. cbn [tdata]. fold logp_true logp_false.
    split; [reflexivity|]. split; intros Hc p; rewrite Hc; reflexivity.
  - intros Hc Hf. unfold logprob_switch_mixture, switch.
    fold logp_true logp_false. rewrite Hc, Hf, broadcast_shape_same.
    cbn [bind]. rewrite broadcast_shape_same. cbn [bind].
    eexists. split; [reflexivity|]. split; [reflexivity|].
    intros p Hp. cbn [tdata]. rewrite (broadcast_position_valid _ _ Hp).
    reflexivity.
  - reflexivity.
Qed.

(** ** The scalar regime of the mixture derivation *)

(** The density of one component as line 389-391 derive it, the axis of
    line 382, and the sum of line 392 read at a position. *)
Definition component_density (value : tensor V) (join_axis_val : option Z)
    (comp_rv : rv_graph) : result (tensor V) :=
  match join_axis_val with
  | Some axis => squeeze (_logprob_helper comp_rv value) axis
  | None => Return (_logprob_helper comp_rv value)
  end.

Definition scalar_join_axis (join_axis : input) : result (option Z) :=
  if isinstance_NoneTypeT join_axis then Return None
  else a <- constant_data join_axis ;; Return (Some a).

Definition expanded_value (value : tensor V) (join_axis_val : option Z)
  : result (tensor V) :=
  match join_axis_val with
  | Some axis => expand_dims value axis
  | None => Return value
  end.

Fixpoint select_sum (index : Z) (i : nat) (densities : list (tensor V))
    (p : list nat) (acc : V) : V :=
  match densities with
  | [] => acc
  | d :: rest =>
      select_sum index (S i) rest p
        (add acc (if (index =? Z.of_nat i)%Z then tdata d p else zero))
  end.

Lemma mapM_as_component (comps : list rv_graph) :
  mapM as_component (map InComponent comps) = Return comps.
Proof.
  induction comps as [|c comps IH]; [reflexivity|].
  cbn [map mapM as_component bind]. rewrite IH. reflexivity.
Qed.

Lemma item_eq_scalar (index : tensor Z) (m : Z) :
  item (eq_scalar index m) = (item index =? m)%Z.
Proof. reflexivity. Qed.

Lemma scalar_loop_spec (value : tensor V) (join_axis_val : option Z)
    (index : tensor Z) (shape : list nat) (comps : list rv_graph) :
  forall (densities : list (tensor V)) (i : nat) (acc : tensor V),
    Forall2 (fun comp d => component_density value join_axis_val comp = Return d)
            comps densities ->
    Forall (fun d => tshape d = shape) densities ->
    tshape acc = [] \/ tshape acc = shape ->
    exists out,
      scalar_loop value join_axis_val index i comps acc = Return out
      /\ tshape out = match comps with [] => tshape acc | _ => shape end
      /\ forall p, valid_position shape p ->
           tdata out (broadcast_position (tshape out) p)
           = select_sum (item index) i densities p
               (tdata acc (broadcast_position (tshape acc) p)).
Proof.
  induction comps as [|comp comps IH]; intros densities i acc Hd Hs Hacc.
  - inversion Hd; subst. exists acc. repeat split.
  - inversion Hd as [|c d cs ds Hc Hds]; subst.
    inversion Hs as [|d' ds' Hshape Hshapes]; subst.
    cbn [scalar_loop]. unfold component_density in Hc.
    assert (Hlogp : match join_axis_val with
                    | Some axis => squeeze (_logprob_helper comp value) axis
                    | None => Return (_logprob_helper comp value)
                    end = Return d) by exact Hc.
    rewrite Hlogp. cbn [bind]. rewrite item_eq_scalar.
    set (term := ifelse (item index =? Z.of_nat i)%Z d (zeros_like d)).
    assert (Hterm : tshape term = tshape d).
    { unfold term, ifelse. destruct (item index =? Z.of_nat i)%Z; reflexivity. }
    unfold tensor_add. rewrite Hterm.
    assert (Hb : broadcast_shape (tshape acc) (tshape d) = Return (tshape d)).
    { destruct Hacc as [-> | ->];
        [apply broadcast_shape_nil_l | apply broadcast_shape_same]. }
    rewrite Hb. cbn [bind].
    match goal with
    | |- exists out, scalar_loop _ _ _ _ _ ?acc' = _ /\ _ =>
        destruct (IH ds (S i) acc' Hds Hshapes (or_intror eq_refl))
          as [out [Hout [Hsh Hdata]]]
    end.
    exists out. split; [exact Hout|]. split.
    + rewrite Hsh. cbn [tshape]. destruct comps; reflexivity.
    + intros p Hp. rewrite (Hdata p Hp). cbn [select_sum tshape tdata].
      rewrite (broadcast_position_valid _ _ Hp). f_equal. f_equal.
      rewrite ?(broadcast_position_valid _ _ Hp).
      unfold term, ifelse. destruct (item index =? Z.of_nat i)%Z; reflexivity.
Qed.

Lemma select_sum_none (index : Z) (densities : list (tensor V)) (p : list nat) :
  forall (i : nat) (acc : V),
    (forall j, i <= j < i + length densities -> index <> Z.of_nat j) ->
    select_sum index i densities p acc = acc.
Proof using add_zero_r.
  induction densities as [|d ds IH]; intros i acc H; [reflexivity|].
  cbn [select_sum]. cbn [length] in H.
  assert (E : (index =? Z.of_nat i)%Z = false).
  { apply Z.eqb_neq. apply H. lia. }
  rewrite E, add_zero_r. apply IH. intros j Hj. apply H. lia.
Qed.

Lemma select_sum_one (index : Z) (densities : list (tensor V)) (p : list nat) :
  forall (i k : nat) (d : tensor V) (acc : V),
    nth_error densities k = Some d ->
    index = Z.of_nat (i + k) ->
    select_sum index i densities p acc = add acc (tdata d p).
Proof using add_zero_r.
  induction densities as [|d0 ds IH]; intros i k d acc Hk Hi.
  - destruct k; discriminate Hk.
  - cbn [select_sum]. destruct k as [|k].
    + cbn in Hk. injection Hk as ->. rewrite Nat.add_0_r in Hi.
      rewrite Hi, Z.eqb_refl. apply select_sum_none. intros j Hj. lia.
    + cbn in Hk.
      assert (E : (index =? Z.of_nat i)%Z = false) by (apply Z.eqb_neq; lia).
      rewrite E, add_zero_r. apply (IH (S i) k d acc Hk). rewrite Hi. f_equal. lia.
Qed.

(** ** The vector regime of the mixture derivation *)

(** The positions where the join-axis index equals [m], the remaining
    sub-indices gathered there, and the density derived for component [m]:
    what one round of the loop computes. *)
Definition component_positions (on_axis : tensor Z) (m : nat) : coordinates :=
  mkCoordinates (ndim on_axis)
    (filter (tdata (eq_scalar on_axis (Z.of_nat m))) (all_positions (tshape on_axis))).

Definition component_rv (bcast_indices : list (tensor Z)) (join_axis_val : Z)
    (coords : coordinates) (rv : rv_graph) : rv_graph :=
  let m_indices := gather_other join_axis_val coords 0 bcast_indices in
  rv_pull_down
    (match m_indices with
     | [] => FirstItem rv
     | _ => AdvancedIndex (FirstItem rv) m_indices
     end).

Definition component_logp (value : tensor V) (bcast_indices : list (tensor Z))
    (join_axis_val : Z) (on_axis : tensor Z) (m : nat) (rv : rv_graph) : tensor V :=
  let coords := component_positions on_axis m in
  _logprob_helper (component_rv bcast_indices join_axis_val coords rv)
                  (take value coords).

Lemma position_eqb_eq (p q : list nat) : position_eqb p q = true -> p = q.
Proof.
  unfold position_eqb. revert q.
  induction p as [|x p IH]; intros [|y q]; simpl; try discriminate;
    [reflexivity|].
  intros H. apply andb_true_iff in H. destruct H as [Hx Hp].
  apply Nat.eqb_eq in Hx. rewrite Hx, (IH q Hp). reflexivity.
Qed.

Lemma position_eqb_refl (p : list nat) : position_eqb p p = true.
Proof.
  unfold position_eqb. induction p as [|x p IH]; simpl; [reflexivity|].
  rewrite Nat.eqb_refl. exact IH.
Qed.

Lemma last_index_Some (p : list nat) (positions : list (list nat)) :
  forall k, last_index p positions = Some k -> nth_error positions k = Some p.
Proof.
  induction positions as [|q rest IH]; intros k; cbn [last_index]; [discriminate|].
  destruct (last_index p rest) as [k'|].
  - intros H. injection H as <-. cbn. apply IH. reflexivity.
  - destruct (position_eqb q p) eqn:E; [|discriminate].
    intros H. injection H as <-. cbn. apply position_eqb_eq in E. congruence.
Qed.

Lemma last_index_In (p : list nat) (positions : list (list nat)) :
  In p positions -> exists k, last_index p positions = Some k.
Proof.
  induction positions as [|q rest IH]; [intros []|]. cbn [last_index].
  intros [->|Hin].
  - destruct (last_index p rest) as [k|]; [exists (S k); reflexivity|].
    rewrite position_eqb_refl. exists 0. reflexivity.
  - destruct (IH Hin) as [k ->]. exists (S k). reflexivity.
Qed.

Lemma last_index_not_In (p : list nat) (positions : list (list nat)) :
  ~ In p positions -> last_index p positions = None.
Proof.
  intros Hn. destruct (last_index p positions) as [k|] eqn:E; [|reflexivity].
  exfalso. apply Hn. apply last_index_Some in E.
  exact (nth_error_In _ _ E).
Qed.

Lemma all_positions_complete (shape p : list nat) :
  valid_position shape p -> In p (all_positions shape).
Proof.
  unfold valid_position. intros H.
  induction H as [|i d p shape Hlt _ IH]; [left; reflexivity|].
  cbn [all_positions]. apply in_flat_map. exists i. split.
  - apply in_seq. lia.
  - apply in_map. exact IH.
Qed.

Lemma nonzero_eq_scalar (on_axis : tensor Z) (m : nat) :
  tshape on_axis <> [] ->
  nonzero (eq_scalar on_axis (Z.of_nat m)) = Return (component_positions on_axis m).
Proof.
  intros H. unfold nonzero, component_positions, ndim. cbn [tshape eq_scalar].
  destruct (tshape on_axis) eqn:E; [congruence|]. reflexivity.
Qed.

Lemma gather_other_past (coords : coordinates) (axis : Z) (rest : list (tensor Z)) :
  forall j, (axis < Z.of_nat j)%Z ->
            gather_other axis coords j rest = map (fun v => take v coords) rest.
Proof.
  induction rest as [|w rest IH]; intros j Hj; [reflexivity|].
  cbn [gather_other map].
  assert (E : (Z.of_nat j =? axis)%Z = false) by (apply Z.eqb_neq; lia).
  rewrite E. cbn [negb]. f_equal. apply IH. lia.
Qed.

(** With a join axis counted from the front, the gathered sub-indices are
    those of the other dimensions. *)
Lemma gather_other_remove (coords : coordinates) (bcast_indices : list (tensor Z)) :
  forall (i k : nat),
    gather_other (Z.of_nat (i + k)) coords i bcast_indices
    = map (fun v => take v coords) (remove_at k bcast_indices).
Proof.
  induction bcast_indices as [|v rest IH]; intros i k.
  - unfold remove_at. rewrite firstn_nil, skipn_nil. reflexivity.
  - cbn [gather_other]. destruct k as [|k].
    + rewrite Nat.add_0_r, Z.eqb_refl. cbn [negb]. unfold remove_at.
      cbn [firstn skipn app]. apply gather_other_past. lia.
    + assert (E : (Z.of_nat i =? Z.of_nat (i + S k))%Z = false)
        by (apply Z.eqb_neq; lia).
      rewrite E. cbn [negb]. unfold remove_at. cbn [firstn skipn app map].
      f_equal. replace (i + S k) with (S i + k) by lia. apply IH.
Qed.

Lemma py_getitem_nonneg {A : Type} (l : list A) (i : Z) (x : A) :
  (0 <= i)%Z -> py_getitem l i = Return x -> nth_error l (Z.to_nat i) = Some x.
Proof.
  intros Hi. unfold py_getitem, getitem.
  assert (E : (0 <=? i)%Z = true) by (apply Z.leb_le; exact Hi).
  rewrite E. destruct (nth_error l (Z.to_nat i)); [|discriminate].
  intros H. injection H as <-. reflexivity.
Qed.

Lemma length_remove_at {A : Type} (k : nat) (l : list A) :
  k < length l -> length (remove_at k l) = length l - 1.
Proof.
  intros H. unfold remove_at. rewrite length_app, length_firstn, length_skipn. lia.
Qed.

(** With a join axis counted from the front that selects one of the
    broadcast indices, a component with no fewer dimensions than there are
    indices is indexed without error. *)
Lemma index_component_ok (bcast_indices : list (tensor Z)) (join_axis_val : Z)
    (coords : coordinates) (rv : rv_graph) :
  (0 <= join_axis_val)%Z ->
  Z.to_nat join_axis_val < length bcast_indices ->
  length bcast_indices <= rv_ndim rv ->
  let m_indices := gather_other join_axis_val coords 0 bcast_indices in
  (rv0 <- first_item rv ;;
   match m_indices with
   | [] => Return rv0
   | _ => advanced_index rv0 m_indices
   end)
  = Return (match m_indices with
            | [] => FirstItem rv
            | _ => AdvancedIndex (FirstItem rv) m_indices
            end).
Proof.
  intros Hnonneg Hlt Hrank m_indices.
  assert (Hlen : length m_indices = length bcast_indices - 1).
  { unfold m_indices.
    pose proof (gather_other_remove coords bcast_indices 0 (Z.to_nat join_axis_val))
      as Hg.
    cbn [Nat.add] in Hg. rewrite (Z2Nat.id join_axis_val Hnonneg) in Hg.
    rewrite Hg, length_map. apply length_remove_at. exact Hlt. }
  unfold first_item.
  assert (E1 : (1 <=? rv_ndim rv) = true) by (apply Nat.leb_le; lia).
  rewrite E1. cbn [bind].
  destruct m_indices as [|i0 rest] eqn:Em; [reflexivity|].
  unfold advanced_index. cbn [rv_ndim].
  assert (E2 : (length (i0 :: rest) <=? rv_ndim rv - 1) = true)
    by (apply Nat.leb_le; lia).
  rewrite E2. reflexivity.
Qed.

Lemma vector_loop_spec (value : tensor V) (bcast_indices : list (tensor Z))
    (join_axis_val : Z) (on_axis : tensor Z) (comps : list rv_graph) :
  tshape on_axis <> [] ->
  py_getitem bcast_indices join_axis_val = Return on_axis ->
  (0 <= join_axis_val)%Z ->
  Forall (fun rv => length bcast_indices <= rv_ndim rv) comps ->
  forall (m0 : nat) (buf : tensor V),
  exists out,
    vector_loop value bcast_indices join_axis_val m0 comps buf = Return out
    /\ tshape out = tshape buf
    /\ forall p, valid_position (tshape on_axis) p ->
         (forall j rv, nth_error comps j = Some rv ->
                       tdata on_axis p = Z.of_nat (m0 + j) ->
            let logp := component_logp value bcast_indices join_axis_val on_axis
                          (m0 + j) rv in
            exists k,
              nth_error (coord_positions (component_positions on_axis (m0 + j))) k
              = Some p
              /\ tdata out p = tdata logp (broadcast_position (tshape logp) [k]))
         /\ ((forall j, j < length comps -> tdata on_axis p <> Z.of_nat (m0 + j)) ->
             tdata out p = tdata buf p).
Proof.
  intros Hrank Haxis Hnonneg Hranks.
  pose proof (py_getitem_nonneg _ _ _ Hnonneg Haxis) as Hnth.
  assert (Hlt : Z.to_nat join_axis_val < length bcast_indices).
  { apply nth_error_Some. rewrite Hnth. discriminate. }
  induction comps as [|rv comps IH]; intros m0 buf.
  - exists buf. split; [reflexivity|]. split; [reflexivity|].
    intros p Hp. split; [|reflexivity]. intros [|j] rv' H; discriminate H.
  - inversion Hranks as [|rv0 comps0 Hndim Hrest]; subst.
    specialize (IH Hrest).
    cbn [vector_loop]. unfold vector_step. rewrite Haxis. cbn [bind].
    rewrite (nonzero_eq_scalar on_axis m0 Hrank). cbn [bind].
    pose proof (index_component_ok bcast_indices join_axis_val
                  (component_positions on_axis m0) rv Hnonneg Hlt Hndim) as Hidx.
    cbn zeta in Hidx.
    destruct (first_item rv) as [rv1|e] eqn:Efirst; cbn [bind] in Hidx |- *;
      [|discriminate Hidx].
    rewrite Hidx. cbn [bind].
    fold (component_rv bcast_indices join_axis_val (component_positions on_axis m0) rv).
    fold (component_logp value bcast_indices join_axis_val on_axis m0 rv).
    set (logp0 := component_logp value bcast_indices join_axis_val on_axis m0 rv).
    set (buf' := set_subtensor buf (component_positions on_axis m0) logp0).
    destruct (IH (S m0) buf') as [out [Hout [Hsh Hdata]]].
    exists out. split; [exact Hout|]. split; [exact Hsh|].
    intros p Hp. destruct (Hdata p Hp) as [Hhit Hmiss].
    assert (Hlen : length p = ndim on_axis)
      by exact (Forall2_length Hp).
    assert (Hbuf' : tdata buf' p
                    = match last_index p (coord_positions (component_positions on_axis m0)) with
                      | Some k => tdata logp0 (broadcast_position (tshape logp0) [k])
                      | None => tdata buf p
                      end).
    { unfold buf', set_subtensor. cbn [tdata coord_rank component_positions].
      rewrite <- Hlen, firstn_all, skipn_all. reflexivity. }
    split.
    + intros [|j] rv' Hrv Hm.
      * cbn in Hrv. injection Hrv as <-. rewrite Nat.add_0_r in *.
        assert (Hin : In p (coord_positions (component_positions on_axis m0))).
        { cbn [coord_positions component_positions]. apply filter_In. split.
          - apply all_positions_complete. exact Hp.
          - cbn [tdata eq_scalar]. apply Z.eqb_eq. exact Hm. }
        destruct (last_index_In _ _ Hin) as [k Hk].
        exists k. split; [exact (last_index_Some _ _ _ Hk)|].
        rewrite Hmiss; [rewrite Hbuf', Hk; reflexivity|].
        intros j _. rewrite Hm. lia.
      * cbn in Hrv. replace (m0 + S j) with (S m0 + j) in * by lia.
        exact (Hhit j rv' Hrv Hm).
    + intros Hnone. rewrite Hmiss.
      * rewrite Hbuf', last_index_not_In; [reflexivity|].
        cbn [coord_positions component_positions]. intros Hin.
        apply filter_In in Hin. destruct Hin as [_ Hin].
        cbn [tdata eq_scalar] in Hin. apply Z.eqb_eq in Hin.
        apply (Hnone 0); [cbn; lia|]. rewrite Nat.add_0_r. exact Hin.
      * intros j Hj. replace (S m0 + j) with (m0 + S j) by lia.
        apply Hnone. cbn [length]. lia.
Qed.

Lemma broadcast_arrays_shape {A : Type} (ts outs : list (tensor A)) :
  broadcast_arrays ts = Return outs ->
  exists shape, broadcast_shapes (map tshape ts) = Return shape
                /\ outs = map (fun t => broadcast_to t shape) ts
                /\ Forall (fun t => tshape t = shape) outs.
Proof.
  unfold broadcast_arrays. intros H. apply Graph.bind_Return in H.
  destruct H as [shape [Hs H]]. injection H as <-.
  exists shape. split; [exact Hs|]. split; [reflexivity|].
  apply Forall_forall. intros t Ht. apply in_map_iff in Ht.
  destruct Ht as [t' [<- _]]. reflexivity.
Qed.

Lemma expand_indices_same_shape (indices : list index) (shape : list nat)
    (outs : list (tensor Z)) :
  expand_indices get_canonical_form_slice indices shape = Return outs ->
  exists common, Forall (fun t => tshape t = common) outs.
Proof.
  unfold expand_indices. destruct (subspace_layout _ _) as [first_adv moved].
  intros H. apply Graph.bind_Return in H. destruct H as [adv [_ H]].
  destruct (broadcast_arrays_shape adv outs H) as [common [_ [_ Hall]]].
  exists common. exact Hall.
Qed.

Lemma getitem_In {A : Type} (l : list A) (i : nat) (x : A) :
  getitem l i = Return x -> In x l.
Proof.
  unfold getitem. destruct (nth_error l i) eqn:E; [|discriminate].
  intros H. injection H as <-. exact (nth_error_In _ _ E).
Qed.

Lemma py_getitem_In {A : Type} (l : list A) (i : Z) (x : A) :
  py_getitem l i = Return x -> In x l.
Proof.
  unfold py_getitem. destruct (0 <=? i)%Z; [apply getitem_In|].
  destruct (- Z.of_nat (length l) <=? i)%Z; [apply getitem_In | discriminate].
Qed.

Lemma firstn_length_app {A : Type} (l r : list A) : firstn (length l) (l ++ r) = l.
Proof. induction l as [|a l IH]; [reflexivity|]. cbn. rewrite IH. reflexivity. Qed.

Lemma skipn_length_app {A : Type} (l r : list A) : skipn (length l) (l ++ r) = r.
Proof. induction l as [|a l IH]; [reflexivity|]. exact IH. Qed.

(** ** Broadcasting to a common shape *)

(** [bto_rev a t]: a shape [a] broadcasts to a shape [t], both given from
    their last dimension on. *)
Fixpoint bto_rev (a t : list nat) : Prop :=
  match a, t with
  | [], _ => True
  | _ :: _, [] => False
  | x :: a', y :: t' => (x = y \/ x = 1) /\ bto_rev a' t'
  end.

Definition broadcasts_to (s t : list nat) : Prop := bto_rev (rev s) (rev t).

Lemma bto_rev_refl (a : list nat) : bto_rev a a.
Proof.
  induction a as [|x a IH]; cbn; [exact I|].
  split; [left; reflexivity | exact IH].
Qed.

Lemma bto_rev_length (a t : list nat) : bto_rev a t -> length a <= length t.
Proof.
  revert t. induction a as [|x a IH]; intros [|y t]; cbn; try lia.
  intros [_ H]. specialize (IH t H). lia.
Qed.

Lemma bto_rev_ones (k : nat) (t : list nat) :
  k <= length t -> bto_rev (repeat 1 k) t.
Proof.
  revert t. induction k as [|k IH]; intros t H; [exact I|].
  destruct t as [|y t]; cbn in H; [lia|]. cbn.
  split; [right; reflexivity | apply IH; lia].
Qed.

Lemma bto_rev_app (a t b u : list nat) :
  length a = length t -> bto_rev a t -> bto_rev b u -> bto_rev (a ++ b) (t ++ u).
Proof.
  revert t. induction a as [|x a IH]; intros [|y t] Hlen Ha Hb; cbn in *;
    try discriminate; [exact Hb|].
  destruct Ha as [Hx Ha]. split; [exact Hx|]. apply IH; [lia | exact Ha | exact Hb].
Qed.

Lemma bto_rev_app_ones (a t u : list nat) (k : nat) :
  bto_rev a t -> length a + k <= length t + length u ->
  bto_rev (a ++ repeat 1 k) (t ++ u).
Proof.
  revert t. induction a as [|x a IH]; intros t Ha Hlen.
  - cbn [app]. apply bto_rev_ones. rewrite length_app. cbn in Hlen. lia.
  - destruct t as [|y t]; [destruct Ha|]. cbn in *. destruct Ha as [Hx Ha].
    split; [exact Hx|]. apply IH; [exact Ha | lia].
Qed.

Lemma bto_rev_trans (a c t : list nat) : bto_rev a c -> bto_rev c t -> bto_rev a t.
Proof.
  revert c t. induction a as [|x a IH]; intros c t Hac Hct; [exact I|].
  destruct c as [|y c]; [destruct Hac|]. destruct t as [|z t]; [destruct Hct|].
  cbn in *. destruct Hac as [Hx Hac]. destruct Hct as [Hy Hct].
  split; [|exact (IH c t Hac Hct)].
  destruct Hx as [-> | ->]; [exact Hy | right; reflexivity].
Qed.

Lemma broadcast_dims_sound (a b c : list nat) :
  broadcast_dims a b = Return c ->
  bto_rev a c /\ bto_rev b c /\ length c = Nat.max (length a) (length b).
Proof.
  revert b c. induction a as [|x a IH]; intros b c H.
  - cbn in H. injection H as <-. split; [exact I|].
    split; [apply bto_rev_refl | reflexivity].
  - destruct b as [|y b].
    + cbn in H. injection H as <-. split; [apply bto_rev_refl|].
      split; [exact I | cbn; lia].
    + cbn [broadcast_dims] in H. apply Graph.bind_Return in H.
      destruct H as [r [Hr H]]. destruct (IH b r Hr) as [Ha [Hb Hlen]].
      destruct (x =? y) eqn:Exy.
      * apply Nat.eqb_eq in Exy. subst y. injection H as <-. cbn.
        repeat split; auto; try lia.
      * destruct (x =? 1) eqn:Ex1.
        -- apply Nat.eqb_eq in Ex1. subst x. injection H as <-. cbn.
           repeat split; auto; try lia.
        -- destruct (y =? 1) eqn:Ey1; [|discriminate H].
           apply Nat.eqb_eq in Ey1. subst y. injection H as <-. cbn.
           repeat split; auto; try lia.
Qed.

Lemma broadcast_dims_complete (a b t : list nat) :
  bto_rev a t -> bto_rev b t ->
  exists c, broadcast_dims a b = Return c /\ bto_rev c t.
Proof.
  revert b t. induction a as [|x a IH]; intros b t Ha Hb.
  - exists b. split; [reflexivity | exact Hb].
  - destruct b as [|y b].
    + exists (x :: a). split; [reflexivity | exact Ha].
    + destruct t as [|z t]; [destruct Ha|]. cbn in Ha, Hb.
      destruct Ha as [Hx Ha]. destruct Hb as [Hy Hb].
      destruct (IH b t Ha Hb) as [r [Hr Hrt]].
      cbn [broadcast_dims]. rewrite Hr. cbn [bind].
      destruct (x =? y) eqn:Exy.
      * exists (x :: r). split; [reflexivity|]. cbn. split; assumption.
      * destruct (x =? 1) eqn:Ex1.
        -- exists (y :: r). split; [reflexivity|]. cbn. split; assumption.
        -- apply Nat.eqb_neq in Exy, Ex1.
           assert (y = 1) as -> by (destruct Hx, Hy; congruence).
           cbn. exists (x :: r). split; [reflexivity|]. cbn. split; assumption.
Qed.

Lemma broadcast_shapes_sound (shapes : list (list nat)) (c : list nat) :
  broadcast_shapes shapes = Return c ->
  Forall (fun s => broadcasts_to s c) shapes
  /\ length c = list_max (map (@length nat) shapes).
Proof.
  revert c. induction shapes as [|s shapes IH]; intros c H.
  - cbn in H. injection H as <-. split; [constructor | reflexivity].
  - cbn [broadcast_shapes] in H. apply Graph.bind_Return in H.
    destruct H as [acc [Hacc H]]. destruct (IH acc Hacc) as [Hall Hlen].
    unfold broadcast_shape in H. apply Graph.bind_Return in H.
    destruct H as [r [Hr H]]. injection H as <-.
    destruct (broadcast_dims_sound _ _ _ Hr) as [Hs [Ha Hl]].
    split.
    + constructor.
      * unfold broadcasts_to. rewrite rev_involutive. exact Hs.
      * rewrite Forall_forall in *. intros s' Hs'. specialize (Hall s' Hs').
        unfold broadcasts_to in *. rewrite rev_involutive.
        exact (bto_rev_trans _ _ _ Hall Ha).
    + cbn [map list_max]. rewrite length_rev, Hl, !length_rev, Hlen. reflexivity.
Qed.

Lemma broadcast_shapes_complete (shapes : list (list nat)) (t : list nat) :
  Forall (fun s => broadcasts_to s t) shapes ->
  exists c, broadcast_shapes shapes = Return c /\ broadcasts_to c t.
Proof.
  induction 1 as [|s shapes Hs _ IH].
  - exists []. split; [reflexivity | exact I].
  - destruct IH as [acc [Hacc Hat]]. cbn [broadcast_shapes]. rewrite Hacc.
    cbn [bind]. unfold broadcast_shape, broadcasts_to in *.
    destruct (broadcast_dims_complete _ _ _ Hs Hat) as [r [Hr Hrt]].
    rewrite Hr. cbn [bind]. exists (rev r). split; [reflexivity|].
    rewrite rev_involutive. exact Hrt.
Qed.

(** A shape padded with dimensions of length 1 broadcasts to a target that
    agrees with it in the middle. *)
Lemma broadcasts_to_padded (a b : nat) (s x m y : list nat) :
  broadcasts_to s m -> length y = b -> a + length s <= length x + length m ->
  broadcasts_to (repeat 1 a ++ s ++ repeat 1 b) (x ++ m ++ y).
Proof.
  unfold broadcasts_to. intros Hs Hy Hlen.
  rewrite !rev_app_distr, !rev_repeat, <- !app_assoc.
  apply bto_rev_app.
  - rewrite repeat_length, length_rev. lia.
  - rewrite <- Hy, <- length_rev. clear. induction (rev y) as [|z l IH]; cbn;
      [exact I|]. split; [right; reflexivity | exact IH].
  - apply bto_rev_app_ones; [exact Hs|]. rewrite !length_rev. lia.
Qed.

(** A single dimension among dimensions of length 1 broadcasts to a target
    of the same rank that has it at the same place. *)
Lemma broadcasts_to_single (k m x : nat) (t : list nat) :
  length t = k + 1 + m -> nth_error t k = Some x ->
  broadcasts_to (repeat 1 k ++ [x] ++ repeat 1 m) t.
Proof.
  intros Hlen Hk.
  destruct (nth_error_split t k Hk) as [t1 [t2 [-> Hl1]]].
  rewrite length_app in Hlen. cbn [length] in Hlen.
  replace (x :: t2) with ([x] ++ t2) by reflexivity.
  apply broadcasts_to_padded.
  - unfold broadcasts_to. apply bto_rev_refl.
  - lia.
  - cbn [length]. lia.
Qed.

(** ** The index expansion *)

Definition count_basic (l : list index) : nat := count_true (map is_basic_idx l).

Definition count_non_newaxis (l : list index) : nat :=
  length (filter (fun idx => negb (is_newaxis idx)) l).

(** The shapes of the advanced indices. *)
Fixpoint advanced_shapes (l : list index) : list (list nat) :=
  match l with
  | [] => []
  | TensorIndex t :: r => tshape t :: advanced_shapes r
  | _ :: r => advanced_shapes r
  end.

(** The length each basic index contributes to the result: 1 for a new
    axis, the length of its range for a slice. *)
Fixpoint basic_dims (l : list index) (shape_copy : list nat) : list nat :=
  match l with
  | [] => []
  | NewAxis :: r => 1 :: basic_dims r shape_copy
  | Slice sl :: r =>
      (let '(start, stop, step) := get_canonical_form_slice sl (hd 0 shape_copy) in
       range_length start stop step) :: basic_dims r (tl shape_copy)
  | TensorIndex _ :: r => basic_dims r (tl shape_copy)
  end.

(** The rank of the expanded index made for an index. *)
Definition expanded_rank (n_basic n_subspace : nat) (idx : index) (t : tensor Z) : Prop :=
  match idx with
  | NewAxis => False
  | Slice _ => ndim t = n_subspace + n_basic
  | TensorIndex u => ndim t = ndim u + n_basic
  end.

Lemma count_basic_app (l r : list index) :
  count_basic (l ++ r) = count_basic l + count_basic r.
Proof.
  unfold count_basic, count_true. rewrite map_app, filter_app, length_app.
  reflexivity.
Qed.

Lemma count_basic_cons (idx : index) (l : list index) :
  count_basic (idx :: l) = (if is_basic_idx idx then 1 else 0) + count_basic l.
Proof.
  unfold count_basic, count_true. cbn [map filter].
  destruct (is_basic_idx idx); reflexivity.
Qed.

Lemma basic_dims_length (l : list index) :
  forall shape_copy, length (basic_dims l shape_copy) = count_basic l.
Proof.
  induction l as [|idx l IH]; intros sc; [reflexivity|].
  rewrite count_basic_cons. destruct idx; cbn [basic_dims length is_basic_idx];
    rewrite IH; reflexivity.
Qed.

Section ExpandLoop.

Variables (first_adv_idx : nat) (moved_subspace : bool).
Variables (n_basic n_subspace P : nat).
Variables (sub dims target : list nat).

Hypothesis target_eq :
  target = if moved_subspace then sub ++ dims
           else firstn P dims ++ sub ++ skipn P dims.
Hypothesis sub_length : length sub = n_subspace.
Hypothesis dims_length : length dims = n_basic.
Hypothesis P_le : P <= n_basic.

Lemma target_length : length target = n_subspace + n_basic.
Proof using target_eq sub_length dims_length P_le.
  rewrite target_eq. destruct moved_subspace.
  - rewrite length_app. lia.
  - rewrite !length_app, length_firstn, length_skipn. lia.
Qed.

Lemma expand_loop_shapes (rest : list index) :
  forall (d : nat) (shape_copy : list nat) (n_preceding_basics : nat)
         (seen : list nat),
    dims = seen ++ basic_dims rest shape_copy ->
    length seen = n_preceding_basics ->
    count_non_newaxis rest <= length shape_copy ->
    Forall (fun idx => match idx with
                       | TensorIndex t => broadcasts_to (tshape t) sub
                       | _ => True
                       end) rest ->
    (moved_subspace = false ->
     forall pre t rest', rest = pre ++ TensorIndex t :: rest' ->
                         n_preceding_basics + count_basic pre = P) ->
    (moved_subspace = false ->
     forall pre sl rest', rest = pre ++ Slice sl :: rest' ->
       nth_error target
         ((if first_adv_idx <? d + length pre then n_subspace else 0)
          + (n_preceding_basics + count_basic pre))
       = nth_error dims (n_preceding_basics + count_basic pre)) ->
    exists adv,
      expand_loop get_canonical_form_slice first_adv_idx moved_subspace
        n_basic n_subspace d rest shape_copy n_preceding_basics = Return adv
      /\ Forall2 (expanded_rank n_basic n_subspace)
                 (filter (fun idx => negb (is_newaxis idx)) rest) adv
      /\ Forall (fun t => broadcasts_to (tshape t) target) adv.
Proof using target_eq sub_length dims_length P_le.
  pose proof target_length as Htl.
  induction rest as [|idx rest IH];
    intros d shape_copy npb seen Hdims Hseen Hcount Hadv Hcontig Hslice.
  - exists []. repeat split; constructor.
  - inversion Hadv as [|i r Hidx Hrest]; subst i r.
    destruct idx as [|sl|t].
    + (* a new axis *)
      cbn [expand_loop].
      destruct (IH (S d) shape_copy (npb + 1) (seen ++ [1])) as [adv [Hrun [Hrank Hto]]].
      * rewrite <- app_assoc. exact Hdims.
      * rewrite length_app. cbn [length]. lia.
      * exact Hcount.
      * exact Hrest.
      * intros Hm pre t rest' E.
        specialize (Hcontig Hm (NewAxis :: pre) t rest').
        rewrite count_basic_cons in Hcontig. cbn [is_basic_idx app] in Hcontig.
        rewrite <- Hcontig by (rewrite E; reflexivity). lia.
      * intros Hm pre sl rest' E.
        specialize (Hslice Hm (NewAxis :: pre) sl rest').
        rewrite count_basic_cons in Hslice. cbn [is_basic_idx app length] in Hslice.
        replace (S d + length pre) with (d + S (length pre)) by lia.
        replace (npb + 1 + count_basic pre) with (npb + (1 + count_basic pre)) by lia.
        apply Hslice. rewrite E. reflexivity.
      * exists adv. cbn [filter is_newaxis negb]. repeat split; assumption.
    + (* a slice *)
      cbn [expand_loop]. cbn [count_non_newaxis filter is_newaxis negb length] in Hcount.
      unfold count_non_newaxis in Hcount. cbn [filter is_newaxis negb length] in Hcount.
      destruct shape_copy as [|s shape_copy]; [cbn in Hcount; lia|].
      cbn [pop0 bind fst snd]. cbn [basic_dims hd tl] in Hdims.
      destruct (get_canonical_form_slice sl s) as [[start stop] step].
      set (len := range_length start stop step) in *.
      assert (Hk : nth_error dims npb = Some len).
      { rewrite Hdims, nth_error_app2 by lia. rewrite Hseen, Nat.sub_diag.
        reflexivity. }
      assert (Hnb : npb < n_basic).
      { rewrite <- dims_length. apply nth_error_Some. rewrite Hk. discriminate. }
      set (k := if moved_subspace then n_subspace + npb
                else (if first_adv_idx <? d then n_subspace else 0) + npb).
      assert (Htk : nth_error target k = Some len).
      { unfold k. destruct moved_subspace eqn:Em.
        - rewrite target_eq, nth_error_app2 by lia.
          replace (n_subspace + npb - length sub) with npb by lia. exact Hk.
        - specialize (Hslice eq_refl [] sl rest eq_refl).
          cbn [length count_basic count_true map filter] in Hslice.
          rewrite !Nat.add_0_r in Hslice. rewrite Hslice. exact Hk. }
      assert (Hklt : k < n_subspace + n_basic).
      { rewrite <- Htl. apply nth_error_Some. rewrite Htk. discriminate. }
      assert (Hshape :
                tshape (if moved_subspace
                        then newaxes_back (n_basic - npb - 1)
                               (newaxes_front (n_subspace + npb)
                                  (arange start stop step))
                        else newaxes_back
                               (n_subspace + n_basic
                                - ((if first_adv_idx <? d then n_subspace else 0) + npb)
                                - 1)
                               (newaxes_front
                                  ((if first_adv_idx <? d then n_subspace else 0) + npb)
                                  (arange start stop step)))
                = repeat 1 k ++ [len] ++ repeat 1 (n_subspace + n_basic - k - 1)).
      { unfold k. destruct moved_subspace; cbn [tshape newaxes_back newaxes_front arange];
          rewrite <- app_assoc; fold len.
        - replace (n_subspace + n_basic - (n_subspace + npb) - 1)
            with (n_basic - npb - 1) by lia. reflexivity.
        - reflexivity. }
      match goal with
      | |- exists adv, (_ <- py_assert (ndim ?e <=? _) ;; _) = _ /\ _ =>
          set (expanded := e) in *
      end.
      assert (Hnd : ndim expanded = n_subspace + n_basic).
      { unfold ndim. rewrite Hshape, !length_app, !repeat_length. cbn [length]. lia. }
      rewrite Hnd, Nat.leb_refl. cbn [py_assert bind].
      destruct (IH (S d) shape_copy (npb + 1) (seen ++ [len])) as [adv [Hrun [Hrank Hto]]].
      * rewrite <- app_assoc. exact Hdims.
      * rewrite length_app. cbn [length]. lia.
      * cbn [length] in Hcount. unfold count_non_newaxis. lia.
      * exact Hrest.
      * intros Hm pre t rest' E.
        specialize (Hcontig Hm (Slice sl :: pre) t rest').
        rewrite count_basic_cons in Hcontig. cbn [is_basic_idx app] in Hcontig.
        rewrite <- Hcontig by (rewrite E; reflexivity). lia.
      * intros Hm pre sl' rest' E.
        specialize (Hslice Hm (Slice sl :: pre) sl' rest').
        rewrite count_basic_cons in Hslice. cbn [is_basic_idx app length] in Hslice.
        replace (S d + length pre) with (d + S (length pre)) by lia.
        replace (npb + 1 + count_basic pre) with (npb + (1 + count_basic pre)) by lia.
        apply Hslice. rewrite E. reflexivity.
      * rewrite Hrun. cbn [bind]. exists (expanded :: adv).
        split; [reflexivity|]. cbn [filter is_newaxis negb]. split.
        -- constructor; [exact Hnd | exact Hrank].
        -- constructor; [|exact Hto]. rewrite Hshape.
           apply broadcasts_to_single; [rewrite Htl; lia | exact Htk].
    + (* an advanced index *)
      cbn [expand_loop]. unfold count_non_newaxis in Hcount.
      cbn [filter is_newaxis negb length] in Hcount.
      destruct shape_copy as [|s shape_copy]; [cbn in Hcount; lia|].
      cbn [pop0 bind fst snd]. cbn [basic_dims hd tl] in Hdims.
      assert (Hrank_t : ndim t <= n_subspace).
      { unfold broadcasts_to in Hidx. apply bto_rev_length in Hidx.
        rewrite !length_rev in Hidx. unfold ndim. lia. }
      assert (Hnpb : npb <= n_basic).
      { rewrite <- dims_length, Hdims, length_app. lia. }
      match goal with
      | |- exists adv, (_ <- py_assert (ndim ?e <=? _) ;; _) = _ /\ _ =>
          set (expanded := e) in *
      end.
      assert (Hshape : tshape expanded
                       = if moved_subspace then tshape t ++ repeat 1 n_basic
                         else repeat 1 npb ++ tshape t ++ repeat 1 (n_basic - npb)).
      { unfold expanded. destruct moved_subspace;
          cbn [tshape newaxes_back newaxes_front];
          rewrite <- ?app_assoc; reflexivity. }
      assert (Hnd : ndim expanded = ndim t + n_basic).
      { unfold ndim at 1. rewrite Hshape. destruct moved_subspace;
          rewrite !length_app, !repeat_length; unfold ndim; lia. }
      assert (Hle : (ndim expanded <=? n_subspace + n_basic) = true)
        by (apply Nat.leb_le; lia).
      rewrite Hle. cbn [py_assert bind].
      destruct (IH (S d) shape_copy npb seen) as [adv [Hrun [Hrank Hto]]].
      * exact Hdims.
      * exact Hseen.
      * cbn [length] in Hcount. unfold count_non_newaxis. lia.
      * exact Hrest.
      * intros Hm pre t' rest' E.
        specialize (Hcontig Hm (TensorIndex t :: pre) t' rest').
        rewrite count_basic_cons in Hcontig. cbn [is_basic_idx app] in Hcontig.
        rewrite <- Hcontig by (rewrite E; reflexivity). lia.
      * intros Hm pre sl' rest' E.
        specialize (Hslice Hm (TensorIndex t :: pre) sl' rest').
        rewrite count_basic_cons in Hslice. cbn [is_basic_idx app length] in Hslice.
        replace (S d + length pre) with (d + S (length pre)) by lia.
        apply Hslice. rewrite E. reflexivity.
      * rewrite Hrun. cbn [bind]. exists (expanded :: adv).
        split; [reflexivity|]. cbn [filter is_newaxis negb]. split.
        -- constructor; [exact Hnd | exact Hrank].
        -- constructor; [|exact Hto]. rewrite Hshape, target_eq.
           destruct moved_subspace eqn:Em.
           ++ apply (broadcasts_to_padded 0 n_basic (tshape t) [] sub dims);
                [exact Hidx | exact dims_length | cbn [length]; unfold ndim in *; lia].
           ++ specialize (Hcontig eq_refl [] t rest eq_refl).
              cbn [count_basic count_true map filter length] in Hcontig.
              rewrite Nat.add_0_r in Hcontig. subst npb.
              apply broadcasts_to_padded; [exact Hidx | |].
              ** rewrite length_skipn. lia.
              ** rewrite length_firstn. unfold ndim in *. lia.
Qed.

End ExpandLoop.

Lemma index_from_Some (x : bool) (l : list bool) :
  forall from i,
    index_from x from l = Some i ->
    from <= i /\ nth_error l i = Some x
    /\ forall j, from <= j -> j < i -> nth_error l j <> Some x.
Proof.
  induction l as [|b l IH]; intros from i H; [discriminate H|].
  cbn [index_from] in H. destruct from as [|from].
  - destruct (Bool.eqb b x) eqn:E.
    + injection H as <-. apply Bool.eqb_prop in E. subst b.
      repeat split; [lia | intros j _ Hj; lia].
    + destruct (index_from x 0 l) as [i'|] eqn:Ei; [|discriminate H].
      injection H as <-. destruct (IH 0 i' Ei) as [_ [Hn Hb]].
      repeat split; [lia | exact Hn |]. intros [|j] _ Hj.
      * cbn. intros Hc. injection Hc as ->. rewrite Bool.eqb_reflx in E.
        discriminate E.
      * cbn. apply Hb; lia.
  - destruct (index_from x from l) as [i'|] eqn:Ei; [|discriminate H].
    injection H as <-. destruct (IH from i' Ei) as [Hle [Hn Hb]].
    repeat split; [lia | exact Hn |]. intros [|j] Hj1 Hj2; [lia|].
    cbn. apply Hb; lia.
Qed.

Lemma index_from_None (x : bool) (l : list bool) :
  forall from, index_from x from l = None ->
               forall j, from <= j -> nth_error l j <> Some x.
Proof.
  induction l as [|b l IH]; intros from H j Hj.
  - destruct j; discriminate.
  - cbn [index_from] in H. destruct from as [|from].
    + destruct (Bool.eqb b x) eqn:E; [discriminate H|].
      destruct (index_from x 0 l) eqn:Ei; [discriminate H|].
      destruct j as [|j].
      * cbn. intros Hc. injection Hc as ->. rewrite Bool.eqb_reflx in E.
        discriminate E.
      * cbn. apply (IH 0 Ei). lia.
    + destruct (index_from x from l) eqn:Ei; [discriminate H|].
      destruct j as [|j]; [lia|]. cbn. apply (IH from Ei). lia.
Qed.

(** When the advanced indices are not split, no basic index lies between
    the first advanced index and any advanced index. *)
Lemma subspace_layout_contiguous (types : list bool) (shape : list nat)
    (first_adv_idx d : nat) :
  subspace_layout types shape = (first_adv_idx, false) ->
  nth_error types d = Some false ->
  first_adv_idx <= d
  /\ nth_error types first_adv_idx = Some false
  /\ forall j, first_adv_idx <= j -> j < d -> nth_error types j <> Some true.
Proof.
  unfold subspace_layout. intros H Hd.
  destruct (index_from false 0 types) as [fa|] eqn:Efa.
  2:{ exfalso. exact (index_from_None _ _ _ Efa d (Nat.le_0_l d) Hd). }
  destruct (index_from_Some _ _ _ _ Efa) as [_ [Hfa Hbefore]].
  assert (Hle : fa <= d).
  { destruct (Nat.le_gt_cases fa d) as [Hle|Hgt]; [exact Hle|].
    exfalso. exact (Hbefore d (Nat.le_0_l d) Hgt Hd). }
  destruct (index_from true fa types) as [fb|] eqn:Efb.
  - destruct (index_from false fb types) as [fc|] eqn:Efc; [discriminate H|].
    injection H as <-.
    destruct (index_from_Some _ _ _ _ Efb) as [Hfb [_ Hbetween]].
    repeat split; [exact Hle | exact Hfa |].
    intros j Hj1 Hj2. apply Hbetween; [exact Hj1|].
    destruct (Nat.le_gt_cases fb d) as [Hle'|Hgt]; [|lia].
    exfalso. exact (index_from_None _ _ _ Efc d Hle' Hd).
  - injection H as <-. repeat split; [exact Hle | exact Hfa |].
    intros j Hj1 _. exact (index_from_None _ _ _ Efb j Hj1).
Qed.

Lemma subspace_layout_no_advanced (types : list bool) (shape : list nat)
    (first_adv_idx : nat) (moved : bool) :
  subspace_layout types shape = (first_adv_idx, moved) ->
  nth_error types first_adv_idx <> Some false ->
  forall j, nth_error types j <> Some false.
Proof.
  unfold subspace_layout. intros H Hfa j.
  destruct (index_from false 0 types) as [fa|] eqn:Efa.
  - exfalso. destruct (index_from_Some _ _ _ _ Efa) as [_ [Hn _]].
    destruct (index_from true fa types) as [fb|];
      [destruct (index_from false fb types)|]; injection H as <- _;
      exact (Hfa Hn).
  - exact (index_from_None _ _ _ Efa j (Nat.le_0_l j)).
Qed.

Lemma nth_error_types (pre rest : list index) (idx : index) :
  nth_error (map is_basic_idx (pre ++ idx :: rest)) (length pre)
  = Some (is_basic_idx idx).
Proof.
  rewrite map_app, nth_error_app2 by (rewrite length_map; lia).
  rewrite length_map, Nat.sub_diag. reflexivity.
Qed.

Lemma count_basic_none (l : list index) :
  (forall j, nth_error (map is_basic_idx l) j <> Some true) -> count_basic l = 0.
Proof.
  induction l as [|idx l IH]; intros H; [reflexivity|].
  rewrite count_basic_cons.
  destruct (is_basic_idx idx) eqn:E.
  - exfalso. apply (H 0). cbn. rewrite E. reflexivity.
  - apply IH. intros j. exact (H (S j)).
Qed.

Lemma count_basic_firstn_le (k : nat) (l : list index) :
  count_basic (firstn k l) <= count_basic l.
Proof.
  rewrite <- (firstn_skipn k l) at 2. rewrite count_basic_app. lia.
Qed.

Lemma list_max_ge (l : list nat) (x : nat) : In x l -> x <= list_max l.
Proof.
  intros H. pose proof (proj1 (list_max_le l (list_max l)) (Nat.le_refl _)) as Hall.
  rewrite Forall_forall in Hall. exact (Hall x H).
Qed.

Lemma list_max_attained (l : list nat) : l <> [] -> In (list_max l) l.
Proof.
  induction l as [|x l IH]; [congruence|]. intros _.
  destruct l as [|y l].
  - left. cbn. lia.
  - change (list_max (x :: y :: l)) with (Nat.max x (list_max (y :: l))).
    destruct (Nat.max_spec x (list_max (y :: l))) as [[_ E]|[_ E]]; rewrite E.
    + right. apply IH. discriminate.
    + left. reflexivity.
Qed.

Lemma advanced_shapes_app_slices (l : list index) (k : nat) (sl : slice) :
  advanced_shapes (l ++ repeat (Slice sl) k) = advanced_shapes l.
Proof.
  induction l as [|idx l IH].
  - induction k as [|k IHk]; [reflexivity | exact IHk].
  - destruct idx; cbn [app advanced_shapes]; rewrite IH; reflexivity.
Qed.

Lemma advanced_ranks (l : list index) :
  map (@length nat) (advanced_shapes l)
  = map index_ndim (filter (fun idx => negb (is_basic_idx idx)) l).
Proof.
  induction l as [|idx l IH]; [reflexivity|].
  destruct idx; cbn [advanced_shapes filter is_basic_idx negb map index_ndim];
    rewrite ?IH; reflexivity.
Qed.

Lemma advanced_broadcast (l : list index) (sub : list nat) :
  Forall (fun s => broadcasts_to s sub) (advanced_shapes l) ->
  Forall (fun idx => match idx with
                     | TensorIndex t => broadcasts_to (tshape t) sub
                     | _ => True
                     end) l.
Proof.
  induction l as [|idx l IH]; intros H; [constructor|].
  destruct idx; cbn [advanced_shapes] in H.
  - constructor; [exact I | exact (IH H)].
  - constructor; [exact I | exact (IH H)].
  - inversion H; subst. constructor; [assumption | apply IH; assumption].
Qed.

Lemma count_non_newaxis_full (indices : list index) (shape : list nat) :
  length indices <= length shape ->
  count_non_newaxis (full_indices indices shape) = length shape.
Proof.
  intros H. unfold full_indices, count_non_newaxis.
  rewrite filter_app, length_app.
  assert (Hle : length (filter (fun idx => negb (is_newaxis idx)) indices)
                <= length indices) by apply filter_length_le.
  assert (Hrep : forall k,
             filter (fun idx => negb (is_newaxis idx))
                    (repeat (Slice (mkSlice None None None)) k)
             = repeat (Slice (mkSlice None None None)) k).
  { induction k as [|k IHk]; [reflexivity|]. cbn. rewrite IHk. reflexivity. }
  rewrite Hrep, repeat_length. lia.
Qed.

Lemma Forall2_In_l {A B : Type} (R : A -> B -> Prop) (l : list A) (l' : list B)
    (a : A) :
  Forall2 R l l' -> In a l -> exists b, In b l' /\ R a b.
Proof.
  induction 1 as [|x y l l' Hxy _ IH]; [intros []|].
  intros [<-|Hin].
  - exists y. split; [left; reflexivity | exact Hxy].
  - destruct (IH Hin) as [b [Hb Hab]]. exists b. split; [right; exact Hb | exact Hab].
Qed.

Lemma Forall2_In_r {A B : Type} (R : A -> B -> Prop) (l : list A) (l' : list B)
    (b : B) :
  Forall2 R l l' -> In b l' -> exists a, In a l /\ R a b.
Proof.
  induction 1 as [|x y l l' Hxy _ IH]; [intros []|].
  intros [<-|Hin].
  - exists x. split; [left; reflexivity | exact Hxy].
  - destruct (IH Hin) as [a [Ha Hab]]. exists a. split; [right; exact Ha | exact Hab].
Qed.

(** The ranks of the expanded indices have the announced maximum. *)
Lemma expanded_rank_max (n_basic n_subspace : nat) (l : list index)
    (adv : list (tensor Z)) :
  Forall2 (expanded_rank n_basic n_subspace) l adv ->
  (forall u, In (TensorIndex u) l -> ndim u <= n_subspace) ->
  ((exists sl, In (Slice sl) l)
   \/ exists u, In (TensorIndex u) l /\ ndim u = n_subspace) ->
  list_max (map (@length nat) (map tshape adv)) = n_subspace + n_basic.
Proof.
  intros Hr Hle Hex. apply Nat.le_antisymm.
  - apply list_max_le. rewrite Forall_forall. intros x Hx.
    rewrite map_map in Hx. apply in_map_iff in Hx. destruct Hx as [t [<- Ht]].
    destruct (Forall2_In_r _ _ _ t Hr Ht) as [idx [Hidx Hrank]].
    destruct idx as [|sl|u]; cbn in Hrank; [destruct Hrank | |];
      unfold ndim in *; [lia|]. specialize (Hle u Hidx). unfold ndim in Hle. lia.
  - destruct Hex as [[sl Hin]|[u [Hin Hu]]].
    + destruct (Forall2_In_l _ _ _ _ Hr Hin) as [t [Ht Hrank]]. cbn in Hrank.
      rewrite <- Hrank. apply list_max_ge. rewrite map_map.
      apply in_map_iff. exists t. split; [reflexivity | exact Ht].
    + destruct (Forall2_In_l _ _ _ _ Hr Hin) as [t [Ht Hrank]]. cbn in Hrank.
      rewrite <- Hu, <- Hrank. apply list_max_ge. rewrite map_map.
      apply in_map_iff. exists t. split; [reflexivity | exact Ht].
Qed.

Lemma no_advanced_subspace (full : list index) :
  (forall j, nth_error (map is_basic_idx full) j <> Some false) ->
  n_subspace_dims full = 0.
Proof.
  intros H. unfold n_subspace_dims.
  assert (E : filter (fun idx => negb (is_basic_idx idx)) full = []).
  { induction full as [|idx l IH]; [reflexivity|]. cbn [filter].
    destruct (is_basic_idx idx) eqn:Eb.
    - cbn [negb]. apply IH. intros j. exact (H (S j)).
    - exfalso. apply (H 0). cbn. rewrite Eb. reflexivity. }
  rewrite E. reflexivity.
Qed.

Definition is_slice (x : index) : bool :=
  match x with
  | Slice _ => true
  | _ => false
  end.

(** The expanded indices go one per dimension and the largest of their
    ranks is the rank announced. *)
Lemma expanded_ranks_common (indices : list index) (shape : list nat)
    (adv : list (tensor Z)) :
  length indices <= length shape ->
  let full := full_indices indices shape in
  Forall2 (expanded_rank (n_basic_indices full) (n_subspace_dims full))
          (filter (fun idx => negb (is_newaxis idx)) full) adv ->
  length adv = length shape
  /\ list_max (map (@length nat) (map tshape adv))
     = n_subspace_dims full + n_basic_indices full.
Proof.
  intros Hlen full Hrank.
  assert (Hcnn : count_non_newaxis full = length shape)
    by (apply count_non_newaxis_full; exact Hlen).
  split; [rewrite <- (Forall2_length Hrank); exact Hcnn|].
  set (nb := n_basic_indices full) in *. set (ns := n_subspace_dims full) in *.
  destruct shape as [|s0 shape'].
  - destruct indices; [|cbn in Hlen; lia].
    cbn in Hrank. inversion Hrank. reflexivity.
  - apply (expanded_rank_max nb ns _ adv Hrank).
    + intros u Hu. apply filter_In in Hu. destruct Hu as [Hu _].
      apply list_max_ge. apply in_map_iff. exists (TensorIndex u).
      split; [reflexivity|]. apply filter_In. split; [exact Hu | reflexivity].
    + destruct (existsb is_slice full) eqn:Es.
      * left. apply existsb_exists in Es. destruct Es as [x [Hx Hsl]].
        destruct x as [|sl|]; try discriminate Hsl. exists sl.
        apply filter_In. split; [exact Hx | reflexivity].
      * right.
        assert (Hnonempty : filter (fun idx => negb (is_basic_idx idx)) full <> []).
        { intros Hnil. unfold count_non_newaxis in Hcnn.
          assert (Hz : filter (fun idx => negb (is_newaxis idx)) full = []).
          { clear - Es Hnil. induction full as [|x l IH]; [reflexivity|].
            cbn [existsb] in Es. apply orb_false_iff in Es.
            destruct Es as [Hx Hl]. cbn [filter] in Hnil |- *.
            destruct x; cbn in *; try discriminate.
            apply IH; assumption. }
          rewrite Hz in Hcnn. cbn in Hcnn. lia. }
        assert (Hin : In ns (map index_ndim
                               (filter (fun idx => negb (is_basic_idx idx)) full))).
        { apply list_max_attained. intros Hm. apply Hnonempty.
          exact (map_eq_nil _ _ Hm). }
        apply in_map_iff in Hin. destruct Hin as [x [Hx Hxin]].
        apply filter_In in Hxin. destruct Hxin as [Hxin Hxadv].
        destruct x as [| |u]; try discriminate Hxadv.
        exists u. split; [|exact Hx].
        apply filter_In. split; [exact Hxin | reflexivity].
Qed.

(** The loop needs no more than enough dimensions: it returns one expanded
    index for every index that is not a new axis, of the rank its kind
    gives it. *)
Lemma expand_loop_ranks (first_adv_idx : nat) (moved_subspace : bool)
    (n_basic n_subspace : nat) (rest : list index) :
  forall (d : nat) (shape_copy : list nat) (n_preceding_basics : nat),
    count_non_newaxis rest <= length shape_copy ->
    n_preceding_basics + count_basic rest <= n_basic ->
    Forall (fun idx => index_ndim idx <= n_subspace) rest ->
    exists adv,
      expand_loop get_canonical_form_slice first_adv_idx moved_subspace
        n_basic n_subspace d rest shape_copy n_preceding_basics = Return adv
      /\ Forall2 (expanded_rank n_basic n_subspace)
                 (filter (fun idx => negb (is_newaxis idx)) rest) adv.
Proof.
  induction rest as [|idx rest IH]; intros d shape_copy npb Hcount Hnb Hnd.
  - exists []. split; [reflexivity | constructor].
  - inversion Hnd as [|i r Hidx Hrest]; subst i r.
    rewrite count_basic_cons in Hnb. unfold count_non_newaxis in Hcount.
    destruct idx as [|sl|t]; cbn [is_basic_idx filter is_newaxis negb length] in *.
    + cbn [expand_loop].
      destruct (IH (S d) shape_copy (npb + 1)) as [adv [Hrun Hrank]];
        [exact Hcount | lia | exact Hrest |].
      exists adv. split; assumption.
    + cbn [expand_loop].
      destruct shape_copy as [|s shape_copy]; [cbn in Hcount; lia|].
      cbn [pop0 bind fst snd].
      destruct (get_canonical_form_slice sl s) as [[start stop] step].
      match goal with
      | |- exists adv, (_ <- py_assert (ndim ?e <=? _) ;; _) = _ /\ _ =>
          set (expanded := e) in *
      end.
      assert (Hrank_e : ndim expanded = n_subspace + n_basic).
      { unfold expanded, ndim.
        destruct moved_subspace; cbn [tshape newaxes_back newaxes_front arange];
          rewrite !length_app, !repeat_length; cbn [length];
          destruct (first_adv_idx <? d); lia. }
      rewrite Hrank_e, Nat.leb_refl. cbn [py_assert bind].
      destruct (IH (S d) shape_copy (npb + 1)) as [adv [Hrun Hrank]];
        [cbn [length] in Hcount; unfold count_non_newaxis; lia | lia | exact Hrest |].
      rewrite Hrun. cbn [bind]. exists (expanded :: adv).
      split; [reflexivity|]. constructor; [exact Hrank_e | exact Hrank].
    + cbn [expand_loop].
      destruct shape_copy as [|s shape_copy]; [cbn in Hcount; lia|].
      cbn [pop0 bind fst snd]. cbn [index_ndim] in Hidx.
      match goal with
      | |- exists adv, (_ <- py_assert (ndim ?e <=? _) ;; _) = _ /\ _ =>
          set (expanded := e) in *
      end.
      assert (Hrank_e : ndim expanded = ndim t + n_basic).
      { unfold expanded, ndim.
        destruct moved_subspace; cbn [tshape newaxes_back newaxes_front];
          rewrite !length_app, !repeat_length; lia. }
      assert (Hle : (ndim expanded <=? n_subspace + n_basic) = true)
        by (apply Nat.leb_le; lia).
      rewrite Hle. cbn [py_assert bind].
      destruct (IH (S d) shape_copy npb) as [adv [Hrun Hrank]];
        [cbn [length] in Hcount; unfold count_non_newaxis; lia | lia | exact Hrest |].
      rewrite Hrun. cbn [bind]. exists (expanded :: adv).
      split; [reflexivity|]. constructor; [exact Hrank_e | exact Hrank].
Qed.

Lemma index_ndim_le_subspace (full : list index) :
  Forall (fun idx => index_ndim idx <= n_subspace_dims full) full.
Proof.
  apply Forall_forall. intros idx Hin. destruct idx as [| |t]; cbn; try lia.
  apply list_max_ge. apply in_map_iff. exists (TensorIndex t).
  split; [reflexivity|]. apply filter_In. split; [exact Hin | reflexivity].
Qed.

(** With advanced indices that broadcast together, the expanded indices
    broadcast to one shape. *)
Lemma expand_indices_returns (indices : list index) (shape sub : list nat) :
  length indices <= length shape ->
  broadcast_shapes (advanced_shapes indices) = Return sub ->
  exists outs, expand_indices get_canonical_form_slice indices shape = Return outs.
Proof.
  intros Hlen Hsub. set (full := full_indices indices shape).
  unfold expand_indices. fold full.
  destruct (subspace_layout (map is_basic_idx full) shape) as [fa moved] eqn:Elayout.
  assert (Hadv : advanced_shapes full = advanced_shapes indices)
    by apply advanced_shapes_app_slices.
  destruct (broadcast_shapes_sound _ _ Hsub) as [Hto Hsublen].
  rewrite <- Hadv in Hto, Hsublen. rewrite advanced_ranks in Hsublen.
  fold (n_subspace_dims full) in Hsublen.
  set (nb := n_basic_indices full) in *. set (ns := n_subspace_dims full) in *.
  set (dims := basic_dims full shape).
  set (P := count_basic (firstn fa full)).
  set (target := if moved then sub ++ dims
                 else firstn P dims ++ sub ++ skipn P dims).
  assert (Hdims : length dims = nb) by apply basic_dims_length.
  assert (HP : P <= nb) by apply count_basic_firstn_le.
  assert (Hcnn : count_non_newaxis full = length shape)
    by (apply count_non_newaxis_full; exact Hlen).
  destruct (expand_loop_shapes fa moved nb ns P sub dims target eq_refl Hsublen
              Hdims HP full 0 shape 0 [])
    as [adv [Hrun [Hrank Hbto]]].
  - reflexivity.
  - reflexivity.
  - rewrite Hcnn. lia.
  - apply advanced_broadcast. exact Hto.
  - intros Em pre t rest' E. subst moved. cbn [Nat.add].
    pose proof (nth_error_types pre rest' (TensorIndex t)) as Hd.
    rewrite <- E in Hd. cbn [is_basic_idx] in Hd.
    destruct (subspace_layout_contiguous _ _ _ _ Elayout Hd) as [Hle [_ Hnone]].
    unfold P. rewrite E, firstn_app.
    replace (fa - length pre) with 0 by lia. cbn [firstn]. rewrite app_nil_r.
    rewrite <- (firstn_skipn fa pre) at 1. rewrite count_basic_app.
    rewrite (count_basic_none (skipn fa pre)); [lia|].
    intros j Hj.
    assert (Hjlt : j < length (skipn fa pre)).
    { apply nth_error_Some. intros Hn. rewrite nth_error_map, Hn in Hj.
      discriminate Hj. }
    rewrite length_skipn in Hjlt.
    apply (Hnone (fa + j)); [lia | lia |].
    rewrite E, map_app, nth_error_app1 by (rewrite length_map; lia).
    rewrite <- Hj, !nth_error_map, nth_error_skipn. reflexivity.
  - intros Em pre sl rest' E. subst moved. cbn [Nat.add].
    pose proof (nth_error_types pre rest' (Slice sl)) as Hd.
    rewrite <- E in Hd. cbn [is_basic_idx] in Hd.
    unfold target.
    destruct (nth_error (map is_basic_idx full) fa) as [[|]|] eqn:Efa.
    1,3: assert (Hns : ns = 0)
           by (apply no_advanced_subspace;
               apply (subspace_layout_no_advanced _ _ _ _ Elayout);
               rewrite Efa; discriminate).
    1,2: assert (Hnil : sub = [])
           by (destruct sub; [reflexivity | cbn in Hsublen; lia]);
         rewrite Hnil, Hns; cbn [app]; rewrite firstn_skipn;
         destruct (fa <? length pre); reflexivity.
    destruct (fa <? length pre) eqn:Elt.
    + apply Nat.ltb_lt in Elt.
      assert (HPle : P <= count_basic pre).
      { unfold P. rewrite E, firstn_app.
        replace (fa - length pre) with 0 by lia. cbn [firstn]. rewrite app_nil_r.
        apply count_basic_firstn_le. }
      rewrite nth_error_app2 by (rewrite length_firstn; lia).
      rewrite length_firstn, Nat.min_l by lia.
      rewrite nth_error_app2 by lia.
      rewrite nth_error_skipn. f_equal. lia.
    + apply Nat.ltb_ge in Elt.
      assert (Hne : length pre <> fa) by (intros <-; congruence).
      assert (HPgt : count_basic pre < P).
      { unfold P. rewrite E, firstn_app, count_basic_app.
        rewrite firstn_all2 by lia.
        destruct (fa - length pre) as [|k] eqn:Ek; [lia|].
        cbn [firstn]. rewrite count_basic_cons. cbn [is_basic_idx]. lia. }
      cbn [Nat.add].
      rewrite nth_error_app1 by (rewrite length_firstn; lia).
      rewrite nth_error_firstn.
      assert (Hlt : (count_basic pre <? P) = true) by (apply Nat.ltb_lt; lia).
      rewrite Hlt. reflexivity.
  - assert (Hshapes : Forall (fun s => broadcasts_to s target) (map tshape adv)).
    { apply Forall_map. exact Hbto. }
    destruct (broadcast_shapes_complete _ _ Hshapes) as [common [Hc Hct]].
    exists (map (fun t => broadcast_to t common) adv).
    rewrite Hrun. cbn [bind]. unfold broadcast_arrays. rewrite Hc. reflexivity.
Qed.

(** C3: for indices no more numerous than the dimensions of the shape, the
    loop of [expand_indices] makes one expanded index per dimension of the
    shape; the arrays [expand_indices] returns are as many, all of one common
    shape, whose rank is the largest rank of the advanced indices plus the
    number of basic indices; and it returns them whenever the advanced
    indices broadcast together. *)
Theorem expand_indices_broadcast (indices : list index) (shape : list nat) :
  length indices <= length shape ->
  let full := full_indices indices shape in
  let n_output_dims := n_subspace_dims full + n_basic_indices full in
  (exists adv,
      expand_loop get_canonical_form_slice
        (fst (subspace_layout (map is_basic_idx full) shape))
        (snd (subspace_layout (map is_basic_idx full) shape))
        (n_basic_indices full) (n_subspace_dims full) 0 full shape 0 = Return adv
      /\ length adv = length shape
      /\ Forall (fun t => ndim t <= n_output_dims) adv)
  /\ (forall outs,
        expand_indices get_canonical_form_slice indices shape = Return outs ->
        length outs = length shape
        /\ exists common, Forall (fun t => tshape t = common) outs
                          /\ length common = n_output_dims)
  /\ (forall sub,
        broadcast_shapes (advanced_shapes indices) = Return sub ->
        exists outs,
          expand_indices get_canonical_form_slice indices shape = Return outs).
Proof.
  intros Hlen full n_output_dims.
  assert (Hcnn : count_non_newaxis full = length shape)
    by (apply count_non_newaxis_full; exact Hlen).
  destruct (expand_loop_ranks
              (fst (subspace_layout (map is_basic_idx full) shape))
              (snd (subspace_layout (map is_basic_idx full) shape))
              (n_basic_indices full) (n_subspace_dims full) full 0 shape 0)
    as [adv [Hrun Hrank]].
  { rewrite Hcnn. lia. }
  { cbn [Nat.add]. unfold n_basic_indices, count_basic. lia. }
  { apply index_ndim_le_subspace. }
  destruct (expanded_ranks_common indices shape adv Hlen Hrank) as [Hlen_adv Hmax].
  fold full in Hmax. fold n_output_dims in Hmax.
  split; [|split].
  - exists adv. split; [exact Hrun|]. split; [exact Hlen_adv|].
    apply Forall_forall. intros t Ht. rewrite <- Hmax.
    apply list_max_ge. rewrite map_map. apply in_map_iff.
    exists t. split; [reflexivity | exact Ht].
  - intros outs H. unfold expand_indices in H. fold full in H.
    destruct (subspace_layout (map is_basic_idx full) shape) as [fa moved].
    cbn [fst snd] in Hrun. rewrite Hrun in H. cbn [bind] in H.
    destruct (broadcast_arrays_shape adv outs H) as [common [Hc [-> Hall]]].
    split; [rewrite length_map; exact Hlen_adv|].
    exists common. split; [exact Hall|].
    destruct (broadcast_shapes_sound _ _ Hc) as [_ Hclen].
    rewrite Hclen. exact Hmax.
  - intros sub Hsub. exact (expand_indices_returns indices shape sub Hlen Hsub).
Qed.

(** ** Further properties of the derivations *)

(** *** Index values that select no component *)

Lemma logprob_MixtureRV_scalar_loop
    (value expanded : tensor V) (join_axis : input) (join_axis_val : option Z)
    (constant : bool) (index : tensor Z) (comps : list rv_graph) :
  tshape index = [] ->
  scalar_join_axis join_axis = Return join_axis_val ->
  expanded_value value join_axis_val = Return expanded ->
  logprob_MixtureRV 2 [value]
    (join_axis :: InTensor constant index :: map InComponent comps)
  = scalar_loop expanded join_axis_val index 0 comps (mkTensor [] (fun _ => zero)).
Proof.
  intros Hrank Haxis Hvalue. unfold logprob_MixtureRV.
  cbn [getitem nth_error bind skipn firstn Nat.sub length Nat.ltb Nat.leb
       py_assert input_ndim].
  unfold ndim. rewrite Hrank.
  cbn [length Nat.ltb Nat.leb bind]. rewrite mapM_as_component. cbn [bind].
  unfold scalar_join_axis in Haxis. rewrite Haxis. cbn [bind].
  unfold expanded_value in Hvalue. rewrite Hvalue. reflexivity.
Qed.

(** The sum of line 392 over the densities [densities] of the components:
    [out] has their shape, its entries are the sum, started from zero, of
    the density of the component where the index equals its position and of
    zero for every other component; so when the index is the position of a
    component, [out] is the density of that component and the terms of the
    others are zero. *)
Definition conditional_sum (index : Z) (densities : list (tensor V))
    (shape : list nat) (out : tensor V) : Prop :=
  (densities <> [] -> tshape out = shape)
  /\ (forall p, valid_position shape p ->
        tdata out (broadcast_position (tshape out) p)
        = select_sum index 0 densities p zero)
  /\ (forall k d, nth_error densities k = Some d ->
                  index = Z.of_nat k ->
        (forall p, valid_position shape p -> tdata out p = tdata d p)
        /\ (forall j d' p, j <> k -> nth_error densities j = Some d' ->
              (if (index =? Z.of_nat j)%Z then tdata d' p else zero) = zero)).

Lemma scalar_loop_sum (value : tensor V) (join_axis_val : option Z)
    (index : tensor Z) (shape : list nat) (comps : list rv_graph)
    (densities : list (tensor V)) :
  Forall2 (fun comp d => component_density value join_axis_val comp = Return d)
          comps densities ->
  Forall (fun d => tshape d = shape) densities ->
  exists out,
    scalar_loop value join_axis_val index 0 comps (mkTensor [] (fun _ => zero))
    = Return out
    /\ conditional_sum (item index) densities shape out.
Proof using add_zero_l add_zero_r.
  intros Hd Hshape.
  destruct (scalar_loop_spec value join_axis_val index shape comps densities 0
              (mkTensor [] (fun _ => zero)) Hd Hshape (or_introl eq_refl))
    as [out [Hout [Hsh Hdata]]].
  assert (Hshape_out : densities <> [] -> tshape out = shape).
  { intros Hne. rewrite Hsh. destruct comps; [|reflexivity].
    inversion Hd; subst. congruence. }
  exists out. split; [exact Hout|]. split; [exact Hshape_out|]. split.
  - intros p Hp. rewrite (Hdata p Hp). reflexivity.
  - intros k d Hk Hi. split.
    + intros p Hp.
      assert (Hne : densities <> []) by (intros ->; destruct k; discriminate Hk).
      specialize (Hdata p Hp). rewrite (Hshape_out Hne) in Hdata.
      rewrite (broadcast_position_valid _ _ Hp) in Hdata. rewrite Hdata.
      cbn [tdata]. rewrite (select_sum_one (item index) densities p 0 k d zero Hk)
        by (rewrite Hi; reflexivity).
      apply add_zero_l.
    + intros j d' p Hj _.
      assert (E : (item index =? Z.of_nat j)%Z = false)
        by (apply Z.eqb_neq; lia).
      rewrite E. reflexivity.
Qed.

(** The position [k] an axis denotes among [n] dimensions: the axis itself,
    or, when it is negative, counted from the end. *)
Definition axis_position (axis : Z) (n k : nat) : Prop :=
  ((0 <= axis < Z.of_nat n)%Z /\ k = Z.to_nat axis)
  \/ ((- Z.of_nat n <= axis < 0)%Z /\ k = Z.to_nat (Z.of_nat n + axis)).

Lemma normalize_axis_position (axis : Z) (n k : nat) :
  axis_position axis n k -> normalize_axis axis n = Return k.
Proof.
  unfold normalize_axis. intros [[H ->] | [H ->]].
  - assert (E : ((0 <=? axis) && (axis <? Z.of_nat n))%Z = true).
    { apply andb_true_iff. split; [apply Z.leb_le | apply Z.ltb_lt]; lia. }
    rewrite E. reflexivity.
  - assert (E1 : ((0 <=? axis) && (axis <? Z.of_nat n))%Z = false).
    { apply andb_false_iff. left. apply Z.leb_gt. lia. }
    assert (E2 : ((- Z.of_nat n <=? axis) && (axis <? 0))%Z = true).
    { apply andb_true_iff. split; [apply Z.leb_le | apply Z.ltb_lt]; lia. }
    rewrite E1, E2. reflexivity.
Qed.

(** C2: in the scalar regime the log-density is the sum over the components
    of the density of the component where the index equals its position and
    of zero elsewhere.  Without a join axis every density is derived at the
    observed value.  With a constant join axis it is derived at the value
    with a dimension of length 1 inserted at the axis, and read with that
    dimension removed.  So with the index equal to [k] the result is the
    density of component [k], and the term of every other component is
    zero. *)
Theorem logprob_MixtureRV_scalar
    (value : tensor V) (constant : bool) (index : tensor Z) (comps : list rv_graph) :
  tshape index = [] ->
  (forall shape,
      let density := fun comp => _logprob_helper comp value in
      Forall (fun comp => tshape (density comp) = shape) comps ->
      exists out,
        logprob_MixtureRV 2 [value]
          (InNone :: InTensor constant index :: map InComponent comps)
        = Return out
        /\ conditional_sum (item index) (map density comps) shape out)
  /\ (forall axis k k' shape,
        axis_position (item axis) (S (ndim value)) k ->
        let expanded :=
          mkTensor (insert_at k 1 (tshape value))
                   (fun p => tdata value (remove_at k p)) in
        let density := fun comp =>
          mkTensor (remove_at k' shape)
                   (fun p => tdata (_logprob_helper comp expanded) (insert_at k' 0 p)) in
        Forall (fun comp => tshape (_logprob_helper comp expanded) = shape) comps ->
        axis_position (item axis) (length shape) k' ->
        nth k' shape 0 = 1 ->
        exists out,
          logprob_MixtureRV 2 [value]
            (InTensor true axis :: InTensor constant index :: map InComponent comps)
          = Return out
          /\ conditional_sum (item index) (map density comps) (remove_at k' shape) out).
Proof using add_zero_l add_zero_r.
  intros Hrank. split.
  - intros shape density Hshapes.
    assert (Hd : Forall2 (fun comp d => component_density value None comp = Return d)
                         comps (map density comps)).
    { clear Hshapes. induction comps as [|comp l IH]; cbn [map]; constructor;
        [reflexivity | exact IH]. }
    assert (Hs : Forall (fun d => tshape d = shape) (map density comps)).
    { apply Forall_map. exact Hshapes. }
    destruct (scalar_loop_sum value None index shape comps (map density comps) Hd Hs)
      as [out [Hout Hsum]].
    exists out. split; [|exact Hsum].
    rewrite (logprob_MixtureRV_scalar_loop value value InNone None constant index
               comps Hrank eq_refl eq_refl).
    exact Hout.
  - intros axis k k' shape Hpos expanded density Hshapes Hpos' Hone.
    pose proof (normalize_axis_position _ _ _ Hpos) as Hnorm.
    pose proof (normalize_axis_position _ _ _ Hpos') as Hnorm'.
    assert (Hvalue : expanded_value value (Some (item axis)) = Return expanded).
    { unfold expanded_value, expand_dims. rewrite Hnorm. reflexivity. }
    assert (Hd : Forall2 (fun comp d =>
                   component_density expanded (Some (item axis)) comp = Return d)
                   comps (map density comps)).
    { induction Hshapes as [|comp l Hc _ IH]; cbn [map]; constructor; [|exact IH].
      unfold component_density, squeeze, ndim. rewrite Hc, Hnorm'. cbn [bind].
      rewrite Hone. reflexivity. }
    assert (Hs : Forall (fun d => tshape d = remove_at k' shape) (map density comps)).
    { apply Forall_map. apply Forall_forall. intros comp _. reflexivity. }
    destruct (scalar_loop_sum expanded (Some (item axis)) index (remove_at k' shape)
                comps (map density comps) Hd Hs)
      as [out [Hout Hsum]].
    exists out. split; [|exact Hsum].
    rewrite (logprob_MixtureRV_scalar_loop value expanded (InTensor true axis)
               (Some (item axis)) constant index comps Hrank eq_refl Hvalue).
    exact Hout.
Qed.

(** In the scalar regime an index that is negative or not less than the
    number of components selects no density: every term of the sum is zero
    and so is the log-density returned. *)
Theorem logprob_MixtureRV_scalar_out_of_range
    (value expanded : tensor V) (join_axis : input) (join_axis_val : option Z)
    (constant : bool) (index : tensor Z)
    (comps : list rv_graph) (densities : list (tensor V)) (shape : list nat) :
  tshape index = [] ->
  scalar_join_axis join_axis = Return join_axis_val ->
  expanded_value value join_axis_val = Return expanded ->
  Forall2 (fun comp d => component_density expanded join_axis_val comp = Return d)
          comps densities ->
  Forall (fun d => tshape d = shape) densities ->
  comps <> [] ->
  (item index < 0 \/ Z.of_nat (length comps) <= item index)%Z ->
  exists out,
    logprob_MixtureRV 2 [value]
      (join_axis :: InTensor constant index :: map InComponent comps) = Return out
    /\ tshape out = shape
    /\ forall p, valid_position shape p -> tdata out p = zero.
Proof using add_zero_r.
  intros Hrank Haxis Hvalue Hd Hshape Hne Hrange.
  destruct (scalar_loop_spec expanded join_axis_val index shape comps densities 0
              (mkTensor [] (fun _ => zero)) Hd Hshape (or_introl eq_refl))
    as [out [Hout [Hsh Hdata]]].
  assert (Hshape_out : tshape out = shape).
  { rewrite Hsh. destruct comps; [congruence | reflexivity]. }
  exists out. split; [|split].
  - rewrite (logprob_MixtureRV_scalar_loop value expanded join_axis join_axis_val
               constant index comps Hrank Haxis Hvalue). exact Hout.
  - exact Hshape_out.
  - intros p Hp. specialize (Hdata p Hp). rewrite Hshape_out in Hdata.
    rewrite (broadcast_position_valid _ _ Hp) in Hdata. rewrite Hdata.
    cbn [tdata]. apply select_sum_none. intros j Hj.
    rewrite <- (Forall2_length Hd) in Hj. lia.
Qed.

Lemma logprob_MixtureRV_vector_loop
    (value : tensor V) (join_axis : input) (index_inputs : list input)
    (comp_rvs : list rv_graph) (indices : list index)
    (join_axis_val : Z) (comps : list rv_graph) (original_shape : list nat)
    (b0 : tensor Z) (bs : list (tensor Z)) :
  (1 < length index_inputs
   \/ exists c t, index_inputs = [InTensor c t] /\ 0 < ndim t) ->
  mapM as_index index_inputs = Return indices ->
  vector_setup join_axis comp_rvs = Return (join_axis_val, comps, original_shape) ->
  expand_indices get_canonical_form_slice indices original_shape
  = Return (b0 :: bs) ->
  logprob_MixtureRV (1 + length index_inputs) [value]
    (join_axis :: index_inputs ++ map InComponent comp_rvs)
  = vector_loop value (b0 :: bs) join_axis_val 0 comps
      (mkTensor (tshape b0) (fun _ => uninitialized)).
Proof.
  intros Hregime Hidx Hsetup Hexpand. unfold logprob_MixtureRV.
  cbn [getitem nth_error bind skipn Nat.add Nat.sub].
  rewrite Nat.sub_0_r, firstn_length_app.
  replace (skipn (length index_inputs) (index_inputs ++ map InComponent comp_rvs))
    with (map InComponent comp_rvs) by (rewrite skipn_length_app; reflexivity).
  assert (Hpos : (0 <? length index_inputs) = true).
  { apply Nat.ltb_lt. destruct Hregime as [H|[c [t [-> _]]]]; cbn; lia. }
  rewrite Hpos. cbn [py_assert bind].
  destruct index_inputs as [|i0 irest]; [discriminate Hpos|].
  cbn [getitem nth_error bind].
  assert (Hvec : (if 1 <? length (i0 :: irest) then Return true
                  else n <- input_ndim i0 ;; Return (0 <? n)) = Return true).
  { destruct Hregime as [H|[c [t [E Hn]]]].
    - apply Nat.ltb_lt in H. rewrite H. reflexivity.
    - injection E as -> ->. cbn [length Nat.ltb Nat.leb input_ndim bind].
      destruct (ndim t); [lia | reflexivity]. }
  rewrite Hvec. cbn [bind]. rewrite Hidx. cbn [bind].
  rewrite mapM_as_component. cbn [bind]. rewrite Hsetup. cbn [bind].
  rewrite Hexpand. reflexivity.
Qed.

(** In the vector regime, with a join axis counted from the front, an
    observed value of no fewer dimensions than the broadcast indices and
    components of no fewer dimensions than there are broadcast indices, the
    buffer is written only where the join-axis index equals the position of
    a component: where it is negative or not less than the number of
    components, the log-density returned is the content of the buffer as
    [pt.empty] allocated it. *)
Theorem logprob_MixtureRV_vector_unwritten
    (value : tensor V) (join_axis : input) (index_inputs : list input)
    (comp_rvs : list rv_graph) (indices : list index)
    (join_axis_val : Z) (comps : list rv_graph) (original_shape : list nat)
    (bcast_indices : list (tensor Z)) (on_axis : tensor Z) :
  (1 < length index_inputs
   \/ exists c t, index_inputs = [InTensor c t] /\ 0 < ndim t) ->
  mapM as_index index_inputs = Return indices ->
  vector_setup join_axis comp_rvs = Return (join_axis_val, comps, original_shape) ->
  expand_indices get_canonical_form_slice indices original_shape
  = Return bcast_indices ->
  (0 <= join_axis_val)%Z ->
  py_getitem bcast_indices join_axis_val = Return on_axis ->
  tshape on_axis <> [] ->
  ndim on_axis <= ndim value ->
  Forall (fun rv => length bcast_indices <= rv_ndim rv) comps ->
  exists out,
    logprob_MixtureRV (1 + length index_inputs) [value]
      (join_axis :: index_inputs ++ map InComponent comp_rvs) = Return out
    /\ forall p,
         valid_position (tshape on_axis) p ->
         (tdata on_axis p < 0 \/ Z.of_nat (length comps) <= tdata on_axis p)%Z ->
         tdata out p = uninitialized.
Proof.
  intros Hregime Hidx Hsetup Hexpand Hnonneg Haxis Hrank _ Hranks.
  pose proof (py_getitem_In _ _ _ Haxis) as Hin.
  destruct bcast_indices as [|b0 bs]; [destruct Hin|].
  destruct (vector_loop_spec value (b0 :: bs) join_axis_val on_axis comps
              Hrank Haxis Hnonneg Hranks 0
              (mkTensor (tshape b0) (fun _ => uninitialized)))
    as [out [Hout [_ Hdata]]].
  exists out. split.
  - rewrite (logprob_MixtureRV_vector_loop value join_axis index_inputs comp_rvs
               indices join_axis_val comps original_shape b0 bs
               Hregime Hidx Hsetup Hexpand). exact Hout.
  - intros p Hp Hrange. destruct (Hdata p Hp) as [_ Hmiss].
    rewrite Hmiss; [reflexivity|]. intros j Hj. cbn [Nat.add]. lia.
Qed.

(** *** Errors of the index expansion *)

Lemma broadcast_dims_raises (a : list nat) :
  forall (b : list nat) (e : exception),
    broadcast_dims a b = Raise e -> e = ValueError.
Proof.
  induction a as [|x a IH]; intros [|y b] e H; cbn [broadcast_dims] in H;
    try discriminate H.
  destruct (broadcast_dims a b) as [r|e'] eqn:E; cbn [bind] in H.
  - destruct (x =? y); [discriminate H|]. destruct (x =? 1); [discriminate H|].
    destruct (y =? 1); [discriminate H|]. injection H as <-. reflexivity.
  - injection H as <-. exact (IH b e' E).
Qed.

Lemma broadcast_shapes_raises (shapes : list (list nat)) (e : exception) :
  broadcast_shapes shapes = Raise e -> e = ValueError.
Proof.
  induction shapes as [|s shapes IH]; cbn [broadcast_shapes]; intros H;
    [discriminate H|].
  destruct (broadcast_shapes shapes) as [acc|e'] eqn:E; cbn [bind] in H.
  - unfold broadcast_shape in H.
    destruct (broadcast_dims (rev s) (rev acc)) as [r|e'] eqn:Ed; cbn [bind] in H;
      [discriminate H|].
    injection H as <-. exact (broadcast_dims_raises _ _ _ Ed).
  - injection H as <-. apply IH. reflexivity.
Qed.

Lemma broadcast_arrays_raises {A : Type} (ts : list (tensor A)) (e : exception) :
  broadcast_arrays ts = Raise e -> e = ValueError.
Proof.
  unfold broadcast_arrays. intros H.
  destruct (broadcast_shapes (map tshape ts)) as [shape|e'] eqn:E; cbn [bind] in H;
    [discriminate H|].
  injection H as <-. exact (broadcast_shapes_raises _ _ E).
Qed.

Lemma filter_non_newaxis_slices (k : nat) (sl : slice) :
  filter (fun idx => negb (is_newaxis idx)) (repeat (Slice sl) k)
  = repeat (Slice sl) k.
Proof. induction k as [|k IH]; [reflexivity|]. cbn. rewrite IH. reflexivity. Qed.

(** New axes take no dimension of the shape: the missing dimensions are
    counted from the indices that are not new axes. *)
Lemma count_non_newaxis_filled (indices : list index) (shape : list nat) :
  count_non_newaxis indices <= length shape ->
  count_non_newaxis (full_indices indices shape) = length shape.
Proof.
  intros H. unfold full_indices, count_non_newaxis in *.
  rewrite filter_app, length_app, filter_non_newaxis_slices, repeat_length. lia.
Qed.

Lemma full_indices_short (indices : list index) (shape : list nat) :
  length shape <= count_non_newaxis indices ->
  full_indices indices shape = indices.
Proof.
  intros H. unfold full_indices, count_non_newaxis in *.
  replace (length shape - length (filter (fun idx => negb (is_newaxis idx)) indices))
    with 0 by lia.
  apply app_nil_r.
Qed.

(** The loop runs out of dimensions when the indices that are not new axes
    outnumber them. *)
Lemma expand_loop_short (first_adv_idx : nat) (moved_subspace : bool)
    (n_basic n_subspace : nat) (rest : list index) :
  forall (d : nat) (shape_copy : list nat) (n_preceding_basics : nat),
    length shape_copy < count_non_newaxis rest ->
    n_preceding_basics + count_basic rest <= n_basic ->
    Forall (fun idx => index_ndim idx <= n_subspace) rest ->
    expand_loop get_canonical_form_slice first_adv_idx moved_subspace
      n_basic n_subspace d rest shape_copy n_preceding_basics = Raise IndexError.
Proof.
  induction rest as [|idx rest IH]; intros d shape_copy npb Hcount Hnb Hnd.
  - cbn in Hcount. lia.
  - inversion Hnd as [|i r Hidx Hrest]; subst i r.
    rewrite count_basic_cons in Hnb. unfold count_non_newaxis in Hcount.
    destruct idx as [|sl|t]; cbn [is_basic_idx filter is_newaxis negb length] in *.
    + cbn [expand_loop]. apply IH; [exact Hcount | lia | exact Hrest].
    + cbn [expand_loop].
      destruct shape_copy as [|s shape_copy]; [reflexivity|].
      cbn [pop0 bind fst snd].
      destruct (get_canonical_form_slice sl s) as [[start stop] step].
      match goal with
      | |- (_ <- py_assert (ndim ?e <=? _) ;; _) = _ => set (expanded := e) in *
      end.
      assert (Hrank_e : ndim expanded = n_subspace + n_basic).
      { unfold expanded, ndim.
        destruct moved_subspace; cbn [tshape newaxes_back newaxes_front arange];
          rewrite !length_app, !repeat_length; cbn [length];
          destruct (first_adv_idx <? d); lia. }
      rewrite Hrank_e, Nat.leb_refl. cbn [py_assert bind].
      rewrite IH; [reflexivity | | lia | exact Hrest].
      cbn [length] in Hcount. unfold count_non_newaxis. lia.
    + cbn [expand_loop].
      destruct shape_copy as [|s shape_copy]; [reflexivity|].
      cbn [pop0 bind fst snd]. cbn [index_ndim] in Hidx.
      match goal with
      | |- (_ <- py_assert (ndim ?e <=? _) ;; _) = _ => set (expanded := e) in *
      end.
      assert (Hrank_e : ndim expanded = ndim t + n_basic).
      { unfold expanded, ndim.
        destruct moved_subspace; cbn [tshape newaxes_back newaxes_front];
          rewrite !length_app, !repeat_length; lia. }
      assert (Hle : (ndim expanded <=? n_subspace + n_basic) = true)
        by (apply Nat.leb_le; lia).
      rewrite Hle. cbn [py_assert bind].
      rewrite IH; [reflexivity | | lia | exact Hrest].
      cbn [length] in Hcount. unfold count_non_newaxis. lia.
Qed.

(** With more indices other than new axes than the shape has dimensions,
    [expand_indices] raises [IndexError] when it pops the exhausted shape;
    otherwise the only exception it can raise is the [ValueError] of index
    arrays that do not broadcast together: the assertion on the rank of the
    expanded indices never fails. *)
Theorem expand_indices_errors (indices : list index) (shape : list nat) :
  (length shape < count_non_newaxis indices ->
   expand_indices get_canonical_form_slice indices shape = Raise IndexError)
  /\ (count_non_newaxis indices <= length shape ->
      forall e, expand_indices get_canonical_form_slice indices shape = Raise e ->
                e = ValueError).
Proof.
  split.
  - intros H. unfold expand_indices.
    rewrite (full_indices_short indices shape) by lia.
    destruct (subspace_layout (map is_basic_idx indices) shape) as [fa moved].
    rewrite expand_loop_short; [reflexivity | exact H | | ].
    + cbn [Nat.add]. unfold n_basic_indices, count_basic. lia.
    + apply index_ndim_le_subspace.
  - intros H e He. unfold expand_indices in He.
    set (full := full_indices indices shape) in *.
    destruct (subspace_layout (map is_basic_idx full) shape) as [fa moved].
    destruct (expand_loop_ranks fa moved (n_basic_indices full)
                (n_subspace_dims full) full 0 shape 0) as [adv [Hrun _]].
    { unfold full. rewrite (count_non_newaxis_filled indices shape H). lia. }
    { cbn [Nat.add]. unfold n_basic_indices, count_basic. lia. }
    { apply index_ndim_le_subspace. }
    rewrite Hrun in He. cbn [bind] in He.
    exact (broadcast_arrays_raises adv e He).
Qed.

(** *** The vector regime, from the inputs of the placeholder *)

(** The index inputs of a placeholder read as indices: [NoneConst], a slice
    constant, an integer tensor. *)
Inductive input_index : input -> index -> Prop :=
| none_index : input_index InNone NewAxis
| slice_index s : input_index (InSlice s) (Slice s)
| tensor_index c t : input_index (InTensor c t) (TensorIndex t).

(** The vector regime: more than one index, or one index of rank > 0. *)
Definition vector_regime (index_inputs : list input) : Prop :=
  1 < length index_inputs
  \/ exists c t, index_inputs = [InTensor c t] /\ 0 < ndim t.

(** The buffer [out] assembled from the densities of the components [comps]:
    it has the shape of the broadcast indices, and where the broadcast index
    [on_axis] of the join axis equals [m] it holds, for the position, the
    density derived for component [m], simplified by the equilibrium rewriter
    from [rv[0]] indexed by the broadcast indices of the other axes gathered
    where [on_axis] equals [m], at the observed values gathered there. *)
Definition assembled (value : tensor V) (bcast_indices : list (tensor Z))
    (axis : nat) (on_axis : tensor Z) (comps : list rv_graph) (out : tensor V)
  : Prop :=
  tshape out = tshape on_axis
  /\ forall p m rv,
       valid_position (tshape on_axis) p ->
       tdata on_axis p = Z.of_nat m ->
       nth_error comps m = Some rv ->
       let positions :=
         filter (fun q => (tdata on_axis q =? Z.of_nat m)%Z)
                (all_positions (tshape on_axis)) in
       let coords := mkCoordinates (ndim on_axis) positions in
       let sub_indices :=
         map (fun v => take v coords) (remove_at axis bcast_indices) in
       let indexed := match sub_indices with
                      | [] => FirstItem rv
                      | _ => AdvancedIndex (FirstItem rv) sub_indices
                      end in
       let logp :=
         _logprob_helper
           (EquilibriumGraphRewriter
              [local_rv_size_lift; local_dimshuffle_rv_lift;
               local_subtensor_rv_lift; local_lift_DiracDelta] 100 indexed)
           (take value coords) in
       exists k,
         nth_error positions k = Some p
         /\ tdata out p = tdata logp (broadcast_position (tshape logp) [k])
         /\ (tshape logp = [length positions] -> tdata out p = tdata logp [k]).

Lemma mapM_as_index (index_inputs : list input) (indices : list index) :
  Forall2 input_index index_inputs indices ->
  mapM as_index index_inputs = Return indices.
Proof.
  induction 1 as [|x i xs idxs Hx _ IH]; [reflexivity|].
  cbn [mapM]. destruct Hx; cbn [as_index bind]; rewrite IH; reflexivity.
Qed.

Lemma expand_loop_length (first_adv_idx : nat) (moved_subspace : bool)
    (n_basic n_subspace : nat) (rest : list index) :
  forall (d : nat) (shape_copy : list nat) (n_preceding_basics : nat)
         (adv : list (tensor Z)),
    expand_loop get_canonical_form_slice first_adv_idx moved_subspace
      n_basic n_subspace d rest shape_copy n_preceding_basics = Return adv ->
    length adv = count_non_newaxis rest
    /\ count_non_newaxis rest <= length shape_copy.
Proof.
  unfold count_non_newaxis.
  induction rest as [|idx rest IH]; intros d sc npb adv H.
  - cbn in H. injection H as <-. cbn. lia.
  - destruct idx as [|sl|t]; cbn [expand_loop] in H;
      cbn [filter is_newaxis negb length].
    + exact (IH _ _ _ _ H).
    + destruct sc as [|s0 sc]; cbn [pop0 bind] in H; [discriminate H|].
      cbn [fst snd] in H.
      destruct (get_canonical_form_slice sl s0) as [[start stop] step].
      apply Graph.bind_Return in H. destruct H as [_ [_ H]].
      apply Graph.bind_Return in H. destruct H as [more [Hmore H]].
      injection H as <-. destruct (IH _ _ _ _ Hmore) as [Hlen Hle].
      cbn [length]. lia.
    + destruct sc as [|s0 sc]; cbn [pop0 bind] in H; [discriminate H|].
      cbn [fst snd] in H.
      apply Graph.bind_Return in H. destruct H as [_ [_ H]].
      apply Graph.bind_Return in H. destruct H as [more [Hmore H]].
      injection H as <-. destruct (IH _ _ _ _ Hmore) as [Hlen Hle].
      cbn [length]. lia.
Qed.

(** The expanded indices go one per dimension of the shape. *)
Lemma expand_indices_length (indices : list index) (shape : list nat)
    (outs : list (tensor Z)) :
  expand_indices get_canonical_form_slice indices shape = Return outs ->
  length outs = length shape.
Proof.
  unfold expand_indices. intros H.
  destruct (subspace_layout _ _) as [fa moved].
  apply Graph.bind_Return in H. destruct H as [adv [Hadv H]].
  destruct (broadcast_arrays_shape adv outs H) as [common [_ [-> _]]].
  rewrite length_map.
  destruct (expand_loop_length _ _ _ _ _ _ _ _ _ Hadv) as [Hlen Hle].
  rewrite Hlen.
  destruct (Nat.le_gt_cases (count_non_newaxis indices) (length shape)) as [Hc|Hc].
  - apply count_non_newaxis_filled. exact Hc.
  - rewrite full_indices_short in Hle |- * by lia. lia.
Qed.

Lemma expand_indices_common (indices : list index) (shape : list nat)
    (outs : list (tensor Z)) (t u : tensor Z) :
  expand_indices get_canonical_form_slice indices shape = Return outs ->
  In t outs -> In u outs -> tshape t = tshape u.
Proof.
  intros H Ht Hu. destruct (expand_indices_same_shape _ _ _ H) as [common Hc].
  rewrite Forall_forall in Hc. rewrite (Hc t Ht), (Hc u Hu). reflexivity.
Qed.

(** The derivation in the vector regime, from the join axis, the components
    in [Join] format and the shape the indices are expanded against. *)
Lemma logprob_MixtureRV_vector_run
    (value : tensor V) (join_axis : input) (index_inputs : list input)
    (indices : list index) (comp_rvs comps : list rv_graph)
    (join_axis_val : Z) (original_shape : list nat)
    (bcast_indices : list (tensor Z)) (on_axis : tensor Z) :
  vector_regime index_inputs ->
  Forall2 input_index index_inputs indices ->
  vector_setup join_axis comp_rvs = Return (join_axis_val, comps, original_shape) ->
  expand_indices get_canonical_form_slice indices original_shape
  = Return bcast_indices ->
  (0 <= join_axis_val)%Z ->
  nth_error bcast_indices (Z.to_nat join_axis_val) = Some on_axis ->
  (tshape on_axis <> [] ->
   Forall (fun rv => length bcast_indices <= rv_ndim rv) comps ->
   exists out,
     logprob_MixtureRV (1 + length index_inputs) [value]
       (join_axis :: index_inputs ++ map InComponent comp_rvs) = Return out
     /\ assembled value bcast_indices (Z.to_nat join_axis_val) on_axis comps out)
  /\ (tshape on_axis = [] ->
      comps <> [] ->
      logprob_MixtureRV (1 + length index_inputs) [value]
        (join_axis :: index_inputs ++ map InComponent comp_rvs)
      = Raise ValueError).
Proof.
  intros Hregime Hidx Hsetup Hexpand Hnonneg Hnth.
  assert (Haxis : py_getitem bcast_indices join_axis_val = Return on_axis).
  { unfold py_getitem, getitem.
    assert (E : (0 <=? join_axis_val)%Z = true) by (apply Z.leb_le; exact Hnonneg).
    rewrite E, Hnth. reflexivity. }
  pose proof (nth_error_In _ _ Hnth) as Hin.
  destruct bcast_indices as [|b0 bs]; [destruct Hin|].
  pose proof (logprob_MixtureRV_vector_loop value join_axis index_inputs comp_rvs
                indices join_axis_val comps original_shape b0 bs Hregime
                (mapM_as_index _ _ Hidx) Hsetup Hexpand) as Hrun.
  split.
  - intros Hrank Hranks.
    destruct (vector_loop_spec value (b0 :: bs) join_axis_val on_axis comps
                Hrank Haxis Hnonneg Hranks 0
                (mkTensor (tshape b0) (fun _ => uninitialized)))
      as [out [Hout [Hsh Hdata]]].
    exists out. split; [rewrite Hrun; exact Hout|]. split.
    + rewrite Hsh. cbn [tshape].
      exact (expand_indices_common _ _ _ b0 on_axis Hexpand (or_introl eq_refl) Hin).
    + intros p m rv Hp Hm Hrv positions coords sub_indices indexed logp.
      destruct (Hdata p Hp) as [Hhit _].
      destruct (Hhit m rv Hrv Hm) as [k [Hk Hval]].
      cbn [Nat.add] in Hk, Hval.
      assert (Hlogp : component_logp value (b0 :: bs) join_axis_val on_axis m rv
                      = logp).
      { unfold component_logp, component_rv, rv_pull_down, logp, indexed,
          sub_indices, coords, positions.
        pose proof (gather_other_remove (component_positions on_axis m) (b0 :: bs)
                      0 (Z.to_nat join_axis_val)) as Hg.
        cbn [Nat.add] in Hg. rewrite (Z2Nat.id join_axis_val Hnonneg) in Hg.
        rewrite Hg. reflexivity. }
      rewrite Hlogp in Hval.
      exists k. split; [exact Hk|]. split; [exact Hval|].
      intros Hshape. rewrite Hval, Hshape.
      rewrite broadcast_position_valid; [reflexivity|].
      constructor; [|constructor]. apply nth_error_Some.
      change (coord_positions (component_positions on_axis m)) with positions in Hk.
      rewrite Hk. discriminate.
  - intros Hscalar Hne. rewrite Hrun.
    destruct comps as [|rv comps]; [congruence|].
    cbn [vector_loop]. unfold vector_step. rewrite Haxis. cbn [bind].
    unfold nonzero. cbn [tshape eq_scalar]. rewrite Hscalar. reflexivity.
Qed.


(** *** A negative join axis *)

Lemma py_getitem_negative {A : Type} (l : list A) (i : Z) :
  (i < 0)%Z ->
  py_getitem l i = Raise IndexError
  \/ exists x, py_getitem l i = Return x /\ In x l.
Proof.
  intros Hneg. unfold py_getitem.
  assert (E : (0 <=? i)%Z = false) by (apply Z.leb_gt; exact Hneg).
  rewrite E. destruct (- Z.of_nat (length l) <=? i)%Z; [|left; reflexivity].
  unfold getitem. destruct (nth_error l _) as [x|] eqn:Ex.
  - right. exists x. split; [reflexivity | exact (nth_error_In _ _ Ex)].
  - left. reflexivity.
Qed.

(** A join along a constant negative axis is not derived: the broadcast
    index of the join axis is read from the end, but the comparison
    [i != join_axis_val] of the positions with the axis excludes none of the
    broadcast indices, so the first component, less its first dimension, is
    indexed by as many indices as it had dimensions: an [IndexError]. *)
Theorem logprob_MixtureRV_negative_axis
    (value : tensor V) (a : tensor Z) (index_inputs : list input)
    (indices : list index) (first : rv_graph) (rest : list rv_graph)
    (bcast_indices : list (tensor Z)) :
  vector_regime index_inputs ->
  Forall2 input_index index_inputs indices ->
  expand_indices get_canonical_form_slice indices (shape_tuple first)
  = Return bcast_indices ->
  Forall (fun t => tshape t <> []) bcast_indices ->
  rv_ndim first <= length (shape_tuple first) ->
  (item a < 0)%Z ->
  logprob_MixtureRV (1 + length index_inputs) [value]
    (InTensor true a :: index_inputs ++ map InComponent (first :: rest))
  = Raise IndexError.
Proof.
  intros Hregime Hidx Hexpand Hranks Hndim Hneg.
  pose proof (expand_indices_length _ _ _ Hexpand) as Hlen.
  assert (Hsetup : vector_setup (InTensor true a) (first :: rest)
                   = Return (item a, first :: rest, shape_tuple first))
    by reflexivity.
  destruct bcast_indices as [|b0 bs].
  - unfold logprob_MixtureRV.
    cbn [getitem nth_error bind skipn Nat.add Nat.sub].
    rewrite Nat.sub_0_r, firstn_length_app.
    replace (skipn (length index_inputs)
               (index_inputs ++ map InComponent (first :: rest)))
      with (map InComponent (first :: rest))
      by (rewrite skipn_length_app; reflexivity).
    assert (Hpos : (0 <? length index_inputs) = true).
    { apply Nat.ltb_lt. destruct Hregime as [H|[c [t [-> _]]]]; cbn; lia. }
    rewrite Hpos. cbn [py_assert bind].
    destruct index_inputs as [|i0 irest]; [discriminate Hpos|].
    cbn [getitem nth_error bind].
    assert (Hvec : (if 1 <? length (i0 :: irest) then Return true
                    else n <- input_ndim i0 ;; Return (0 <? n)) = Return true).
    { destruct Hregime as [H|[c [t [E Hn]]]].
      - apply Nat.ltb_lt in H. rewrite H. reflexivity.
      - injection E as -> ->. cbn [length Nat.ltb Nat.leb input_ndim bind].
        destruct (ndim t); [lia | reflexivity]. }
    rewrite Hvec. cbn [bind]. rewrite (mapM_as_index _ _ Hidx). cbn [bind].
    rewrite mapM_as_component. cbn [bind]. rewrite Hsetup. cbn [bind].
    rewrite Hexpand. reflexivity.
  - rewrite (logprob_MixtureRV_vector_loop value (InTensor true a) index_inputs
               (first :: rest) indices (item a) (first :: rest) (shape_tuple first)
               b0 bs Hregime (mapM_as_index _ _ Hidx) Hsetup Hexpand).
    cbn [vector_loop]. unfold vector_step.
    destruct (py_getitem_negative (b0 :: bs) (item a) Hneg)
      as [-> | [on_axis [-> Hin]]]; [reflexivity|].
    cbn [bind].
    rewrite Forall_forall in Hranks.
    rewrite (nonzero_eq_scalar on_axis 0 (Hranks on_axis Hin)). cbn [bind].
    rewrite (gather_other_past (component_positions on_axis 0) (item a) (b0 :: bs) 0)
      by (cbn; lia).
    cbn [map]. unfold first_item.
    destruct (1 <=? rv_ndim first) eqn:E1; [|reflexivity].
    cbn [bind]. unfold advanced_index. cbn [rv_ndim length].
    cbn [length] in Hlen.
    assert (E2 : (S (length (map (fun v => take v (component_positions on_axis 0)) bs))
                  <=? rv_ndim first - 1) = false).
    { apply Nat.leb_gt. rewrite length_map. apply Nat.leb_le in E1. lia. }
    rewrite E2. reflexivity.
Qed.

(** *** A stack indexed by one integer vector *)

Lemma all_positions_valid (shape : list nat) :
  forall p, In p (all_positions shape) -> valid_position shape p.
Proof.
  unfold valid_position. induction shape as [|d rest IH]; intros p H.
  - cbn in H. destruct H as [<-|[]]. constructor.
  - cbn [all_positions] in H. apply in_flat_map in H. destruct H as [i [Hi H]].
    apply in_map_iff in H. destruct H as [q [<- Hq]].
    constructor; [apply in_seq in Hi; lia | exact (IH q Hq)].
Qed.


(** *** The value expanded and the density squeezed along the join axis *)

Lemma normalize_axis_lt (axis : Z) (n k : nat) :
  normalize_axis axis n = Return k -> k < n.
Proof.
  unfold normalize_axis. intros H.
  destruct ((0 <=? axis) && (axis <? Z.of_nat n))%Z eqn:E1.
  - injection H as <-. apply andb_true_iff in E1. destruct E1 as [E0 E1].
    apply Z.leb_le in E0. apply Z.ltb_lt in E1. lia.
  - destruct ((- Z.of_nat n <=? axis) && (axis <? 0))%Z eqn:E2; [|discriminate H].
    injection H as <-. apply andb_true_iff in E2. destruct E2 as [E0 E2].
    apply Z.leb_le in E0. apply Z.ltb_lt in E2. lia.
Qed.

Lemma length_insert_at {A : Type} (k : nat) (a : A) (l : list A) :
  k <= length l -> length (insert_at k a l) = S (length l).
Proof.
  intros H. unfold insert_at. rewrite length_app, length_firstn. cbn [length].
  rewrite length_skipn. lia.
Qed.

Lemma nth_insert_at {A : Type} (k : nat) (a d : A) (l : list A) :
  k <= length l -> nth k (insert_at k a l) d = a.
Proof.
  intros H. unfold insert_at. rewrite app_nth2; rewrite length_firstn;
    [|lia]. replace (k - Nat.min k (length l)) with 0 by lia. reflexivity.
Qed.

Lemma remove_insert_at {A : Type} (k : nat) (a : A) (l : list A) :
  k <= length l -> remove_at k (insert_at k a l) = l.
Proof.
  intros H. unfold remove_at, insert_at.
  assert (Hlen : length (firstn k l) = k) by (rewrite length_firstn; lia).
  rewrite firstn_app, Hlen, Nat.sub_diag, firstn_firstn, Nat.min_id.
  cbn [firstn]. rewrite app_nil_r.
  replace (S k) with (length (firstn k l) + 1) by lia.
  rewrite skipn_app, skipn_all2 by lia.
  replace (length (firstn k l) + 1 - length (firstn k l)) with 1 by lia.
  cbn [skipn app]. apply firstn_skipn.
Qed.

(** In the scalar regime with a constant join axis the value is given a
    dimension of length 1 along the axis and every density loses it again:
    when the densities have the shape of the value they are derived at, the
    log-density has the shape of the observed value and reads, for the
    component the index selects, the density of the expanded value at the
    position with coordinate 0 along the axis. *)
Theorem logprob_MixtureRV_scalar_round_trip
    (value : tensor V) (axis : tensor Z) (constant : bool) (index : tensor Z)
    (comps : list rv_graph) (k : nat) :
  tshape index = [] ->
  normalize_axis (item axis) (S (ndim value)) = Return k ->
  let expanded :=
    mkTensor (insert_at k 1 (tshape value)) (fun p => tdata value (remove_at k p)) in
  Forall (fun comp => tshape (_logprob_helper comp expanded) = tshape expanded) comps ->
  comps <> [] ->
  exists out,
    logprob_MixtureRV 2 [value]
      (InTensor true axis :: InTensor constant index :: map InComponent comps)
    = Return out
    /\ tshape out = tshape value
    /\ forall i comp,
         item index = Z.of_nat i ->
         nth_error comps i = Some comp ->
         forall p, valid_position (tshape value) p ->
                   tdata out p = tdata (_logprob_helper comp expanded) (insert_at k 0 p).
Proof using add_zero_l add_zero_r.
  intros Hrank Hnorm expanded Hshapes Hne.
  assert (Hk : k <= length (tshape value)).
  { apply normalize_axis_lt in Hnorm. unfold ndim in Hnorm. lia. }
  set (squeezed := fun comp =>
         mkTensor (remove_at k (tshape (_logprob_helper comp expanded)))
                  (fun p => tdata (_logprob_helper comp expanded) (insert_at k 0 p))).
  assert (Hvalue : expanded_value value (Some (item axis)) = Return expanded).
  { unfold expanded_value, expand_dims. rewrite Hnorm. reflexivity. }
  assert (Hdens : Forall2 (fun comp d =>
                    component_density expanded (Some (item axis)) comp = Return d)
                    comps (map squeezed comps)).
  { clear Hne. induction Hshapes as [|comp l Hc _ IH]; cbn [map]; constructor.
    - unfold component_density, squeeze, ndim. rewrite Hc.
      cbn [tshape expanded]. rewrite length_insert_at by exact Hk.
      unfold ndim in Hnorm. rewrite Hnorm. cbn [bind].
      rewrite nth_insert_at by exact Hk. cbn [Nat.eqb].
      unfold squeezed. rewrite Hc. reflexivity.
    - exact IH. }
  assert (Hsq : Forall (fun d => tshape d = tshape value) (map squeezed comps)).
  { apply Forall_map. rewrite Forall_forall in *. intros comp Hin.
    unfold squeezed. cbn [tshape]. rewrite (Hshapes comp Hin).
    cbn [tshape expanded]. apply remove_insert_at. exact Hk. }
  destruct (scalar_loop_spec expanded (Some (item axis)) index (tshape value) comps
              (map squeezed comps) 0 (mkTensor [] (fun _ => zero))
              Hdens Hsq (or_introl eq_refl))
    as [out [Hout [Hsh Hdata]]].
  assert (Hshape_out : tshape out = tshape value).
  { rewrite Hsh. destruct comps; [congruence | reflexivity]. }
  exists out. split; [|split].
  - rewrite (logprob_MixtureRV_scalar_loop value expanded (InTensor true axis)
               (Some (item axis)) constant index comps Hrank eq_refl Hvalue).
    exact Hout.
  - exact Hshape_out.
  - intros i comp Hi Hcomp p Hp. specialize (Hdata p Hp).
    rewrite Hshape_out in Hdata.
    rewrite (broadcast_position_valid _ _ Hp) in Hdata. rewrite Hdata.
    cbn [tdata].
    rewrite (select_sum_one (item index) (map squeezed comps) p 0 i (squeezed comp) zero).
    + rewrite add_zero_l. reflexivity.
    + rewrite nth_error_map, Hcomp. reflexivity.
    + rewrite Hi. reflexivity.
Qed.

(** *** Basic indices expand to an open grid *)

(** The output axis and the canonical range of every slice of a list of
    indices, the first of which has [n_preceding_basics] basic indices
    before it. *)
Fixpoint slice_axes (n_preceding_basics : nat) (l : list index) (shape_copy : list nat)
  : list (nat * (Z * Z * Z)) :=
  match l with
  | [] => []
  | NewAxis :: r => slice_axes (S n_preceding_basics) r shape_copy
  | Slice sl :: r =>
      (n_preceding_basics, get_canonical_form_slice sl (hd 0 shape_copy))
      :: slice_axes (S n_preceding_basics) r (tl shape_copy)
  | TensorIndex _ :: r => slice_axes n_preceding_basics r (tl shape_copy)
  end.

(** The expanded index of a slice: its range laid along its own axis of
    the [n_basic] output axes, which has the length of the range in
    [dims]. *)
Definition grid_entry (n_basic from : nat) (dims : list nat)
    (ar : nat * (Z * Z * Z)) (t : tensor Z) : Prop :=
  let '(axis, (start, stop, step)) := ar in
  from <= axis < n_basic
  /\ nth_error dims axis = Some (range_length start stop step)
  /\ tshape t = repeat 1 axis ++ [range_length start stop step]
                ++ repeat 1 (n_basic - axis - 1)
  /\ forall p, tdata t p = (start + Z.of_nat (nth axis p 0%nat) * step)%Z.

Lemma hd_skipn_firstn (a : nat) (p : list nat) :
  hd 0 (skipn a (firstn (a + 1) p)) = nth a p 0.
Proof.
  revert p. induction a as [|a IH]; intros [|x p]; try reflexivity.
  cbn [Nat.add firstn skipn nth]. apply IH.
Qed.

Lemma broadcast_dims_ones_l (k : nat) :
  forall (D A B : list nat),
    length D = k ->
    broadcast_dims (repeat 1 k ++ A) (D ++ B)
    = (r <- broadcast_dims A B ;; Return (D ++ r)).
Proof.
  induction k as [|k IH]; intros [|y D] A B Hlen; try discriminate Hlen.
  - cbn [repeat app]. destruct (broadcast_dims A B); reflexivity.
  - cbn [repeat app broadcast_dims]. rewrite IH by (cbn in Hlen; lia).
    destruct (broadcast_dims A B) as [r|e]; cbn [bind]; [|reflexivity].
    destruct (1 =? y) eqn:E; [|reflexivity].
    apply Nat.eqb_eq in E. subst y. reflexivity.
Qed.

Lemma broadcast_dims_nil_r (a : list nat) : broadcast_dims a [] = Return a.
Proof. destruct a; reflexivity. Qed.

Lemma basic_dims_newaxes (l : list index) :
  forall npb sc,
    forallb is_basic_idx l = true ->
    slice_axes npb l sc = [] ->
    basic_dims l sc = repeat 1 (count_basic l).
Proof.
  induction l as [|idx l IH]; intros npb sc Hb Hs; [reflexivity|].
  rewrite count_basic_cons. destruct idx as [|sl|t]; cbn in Hb, Hs.
  - cbn [basic_dims is_basic_idx Nat.add repeat]. f_equal. exact (IH _ _ Hb Hs).
  - discriminate Hs.
  - discriminate Hb.
Qed.

Lemma nth_error_past_ones (npb x axis : nat) (X : list nat) :
  npb + 1 <= axis ->
  nth_error (repeat 1 npb ++ x :: X) axis = nth_error (repeat 1 (npb + 1) ++ X) axis.
Proof.
  intros H. rewrite !nth_error_app2 by (rewrite repeat_length; lia).
  rewrite !repeat_length. replace (axis - npb) with (S (axis - (npb + 1))) by lia.
  reflexivity.
Qed.

(** The loop on basic indices: every slice gives its range along its own
    axis, and the ranges broadcast to the lengths of the basic indices. *)
Lemma expand_loop_basic (first_adv_idx n_basic : nat) (rest : list index) :
  forall (d : nat) (shape_copy : list nat) (n_preceding_basics : nat),
    forallb is_basic_idx rest = true ->
    count_non_newaxis rest <= length shape_copy ->
    n_preceding_basics + count_basic rest = n_basic ->
    let dims := repeat 1 n_preceding_basics ++ basic_dims rest shape_copy in
    exists adv,
      expand_loop get_canonical_form_slice first_adv_idx false n_basic 0
        d rest shape_copy n_preceding_basics = Return adv
      /\ Forall2 (grid_entry n_basic n_preceding_basics dims)
                 (slice_axes n_preceding_basics rest shape_copy) adv
      /\ (adv <> [] -> broadcast_shapes (map tshape adv) = Return dims).
Proof.
  induction rest as [|idx rest IH]; intros d shape_copy npb Hb Hcount Hnb dims.
  - exists []. split; [reflexivity|]. split; [constructor | congruence].
  - rewrite count_basic_cons in Hnb. unfold count_non_newaxis in Hcount.
    destruct idx as [|sl|t]; cbn [forallb is_basic_idx andb] in Hb;
      [| |discriminate Hb];
      cbn [is_basic_idx filter is_newaxis negb length] in Hcount, Hnb.
    + cbn [expand_loop slice_axes].
      destruct (IH (S d) shape_copy (npb + 1) Hb Hcount ltac:(lia))
        as [adv [Hrun [Hgrid Hbc]]].
      assert (Hdims : repeat 1 (npb + 1) ++ basic_dims rest shape_copy = dims).
      { unfold dims. cbn [basic_dims]. rewrite repeat_app, <- app_assoc.
        reflexivity. }
      cbn zeta in Hgrid, Hbc. rewrite Hdims in Hgrid, Hbc.
      exists adv. split; [exact Hrun|]. split; [|exact Hbc].
      rewrite Nat.add_1_r in Hgrid.
      eapply Forall2_impl; [|exact Hgrid].
      intros [axis [[start stop] step]] t'. cbn [grid_entry].
      intros [Hax H]. split; [lia | exact H].
    + cbn [expand_loop slice_axes].
      destruct shape_copy as [|s shape_copy]; [cbn in Hcount; lia|].
      cbn [pop0 bind fst snd hd tl].
      destruct (get_canonical_form_slice sl s) as [[start stop] step] eqn:Ecanon.
      replace ((if first_adv_idx <? d then 0 else 0) + npb) with npb
        by (destruct (first_adv_idx <? d); reflexivity).
      cbn [Nat.add].
      set (len := range_length start stop step).
      set (expanded := newaxes_back (n_basic - npb - 1)
                         (newaxes_front npb (arange start stop step))).
      assert (Hshape_e : tshape expanded
                         = repeat 1 npb ++ [len] ++ repeat 1 (n_basic - npb - 1)).
      { unfold expanded. cbn [tshape newaxes_back newaxes_front arange].
        rewrite <- app_assoc. reflexivity. }
      assert (Hrank_e : ndim expanded = n_basic).
      { unfold ndim. rewrite Hshape_e, !length_app, !repeat_length. cbn [length]. lia. }
      rewrite Hrank_e, Nat.leb_refl. cbn [py_assert bind].
      destruct (IH (S d) shape_copy (npb + 1) Hb
                  ltac:(cbn [length] in Hcount; unfold count_non_newaxis; lia)
                  ltac:(lia))
        as [adv [Hrun [Hgrid Hbc]]].
      cbn zeta in Hgrid, Hbc.
      rewrite Hrun. cbn [bind]. exists (expanded :: adv).
      assert (Hdims : dims = repeat 1 npb ++ len :: basic_dims rest shape_copy).
      { unfold dims. cbn [basic_dims hd tl]. rewrite Ecanon. reflexivity. }
      split; [reflexivity|]. split.
      * constructor.
        -- cbn [grid_entry]. fold len. split; [lia|]. split; [|split].
           ++ rewrite Hdims, nth_error_app2 by (rewrite repeat_length; lia).
              rewrite repeat_length, Nat.sub_diag. reflexivity.
           ++ exact Hshape_e.
           ++ intros p. unfold expanded.
              cbn [tdata newaxes_back newaxes_front arange].
              unfold ndim. cbn [tshape newaxes_front arange].
              rewrite length_app, repeat_length.
              cbn [length]. rewrite hd_skipn_firstn. reflexivity.
        -- rewrite Nat.add_1_r in Hgrid.
           eapply Forall2_impl; [|exact Hgrid].
           intros [axis [[start' stop'] step']] t'. cbn [grid_entry].
           intros [Hax [Hnth H]]. split; [lia|]. split; [|exact H].
           rewrite Hdims, nth_error_past_ones by lia. rewrite Nat.add_1_r.
           exact Hnth.
      * intros _. cbn [map broadcast_shapes]. rewrite Hshape_e.
        destruct adv as [|t0 adv'].
        -- cbn [map broadcast_shapes bind]. unfold broadcast_shape.
           rewrite Hdims. inversion Hgrid as [Hs|].
           rewrite (basic_dims_newaxes rest (npb + 1) shape_copy Hb (eq_sym Hs)).
           replace (count_basic rest) with (n_basic - npb - 1) by lia.
           cbn [rev]. rewrite broadcast_dims_nil_r. cbn [bind].
           rewrite rev_involutive. reflexivity.
        -- rewrite Hbc by discriminate. cbn [bind]. unfold broadcast_shape.
           rewrite !rev_app_distr, !rev_repeat. cbn [rev app].
           rewrite <- !app_assoc. cbn [app].
           rewrite (Nat.add_1_r npb). cbn [repeat].
           rewrite broadcast_dims_ones_l
             by (rewrite length_rev, basic_dims_length; lia).
           cbn [broadcast_dims]. rewrite broadcast_dims_same. cbn [bind].
           assert (E : (if len =? 1 then Return (len :: repeat 1 npb)
                        else if len =? 1 then Return (1 :: repeat 1 npb)
                             else if 1 =? 1 then Return (len :: repeat 1 npb)
                                  else Raise ValueError)
                       = Return (len :: repeat 1 npb)).
           { destruct (len =? 1); reflexivity. }
           rewrite E. cbn [bind]. rewrite Hdims.
           rewrite rev_app_distr. cbn [rev]. rewrite rev_involutive, rev_repeat.
           rewrite <- app_assoc. reflexivity.
Qed.

Lemma index_from_all_true (l : list bool) :
  forallb (fun b => b) l = true -> index_from false 0 l = None.
Proof.
  induction l as [|b l IH]; [reflexivity|]. cbn [forallb index_from].
  intros H. apply andb_true_iff in H. destruct H as [-> Hl].
  cbn [Bool.eqb]. rewrite (IH Hl). reflexivity.
Qed.

Lemma forallb_basic_full (indices : list index) (shape : list nat) :
  forallb is_basic_idx indices = true ->
  forallb is_basic_idx (full_indices indices shape) = true.
Proof.
  intros H. unfold full_indices. rewrite forallb_app, H. cbn [andb].
  induction (length shape - _) as [|k IH]; [reflexivity | exact IH].
Qed.

Lemma n_subspace_dims_basic (full : list index) :
  forallb is_basic_idx full = true -> n_subspace_dims full = 0.
Proof.
  intros H. unfold n_subspace_dims.
  replace (filter (fun idx => negb (is_basic_idx idx)) full) with (@nil index);
    [reflexivity|].
  induction full as [|idx l IH]; [reflexivity|]. cbn [forallb] in H.
  apply andb_true_iff in H. destruct H as [Hi Hl]. cbn [filter].
  rewrite Hi. cbn [negb]. exact (IH Hl).
Qed.

Lemma broadcast_position_nth (s : list nat) :
  forall (p : list nat) (axis : nat),
    length p = length s -> axis < length s ->
    nth axis (broadcast_position s p) 0
    = if nth axis s 0 =? 1 then 0 else nth axis p 0.
Proof.
  unfold broadcast_position. intros p axis Hlen. rewrite Hlen, Nat.sub_diag.
  cbn [skipn]. revert p axis Hlen.
  induction s as [|d s IH]; intros [|i p] axis Hlen Hax; cbn in Hlen, Hax;
    try lia.
  cbn [combine map fst snd]. destruct axis as [|axis]; [reflexivity|].
  cbn [nth]. apply IH; lia.
Qed.

Lemma valid_position_nth (shape p : list nat) :
  valid_position shape p ->
  forall axis d, nth_error shape axis = Some d -> nth axis p 0 < d.
Proof.
  unfold valid_position. induction 1 as [|i d p shape Hlt _ IH]; intros axis d' H.
  - destruct axis; discriminate H.
  - destruct axis as [|axis]; cbn in H.
    + injection H as <-. exact Hlt.
    + cbn [nth]. exact (IH axis d' H).
Qed.

Lemma Forall2_map_right {A B C : Type} (R : A -> C -> Prop) (f : B -> C)
    (l : list A) (l' : list B) :
  Forall2 (fun a b => R a (f b)) l l' -> Forall2 R l (map f l').
Proof. induction 1; cbn [map]; constructor; assumption. Qed.

(** With basic indices only, slices and new axes, as many slices as the
    shape has dimensions being supplied or filled in, [expand_indices]
    returns one array for every slice, all of the shape given by the basic
    indices (1 for a new axis, the length of its range for a slice); the
    array of a slice reads, at every position, the entry of the canonical
    range of the slice selected by the coordinate along the slice's own
    axis: the arrays form an open grid over the ranges. *)
Theorem expand_indices_basic (indices : list index) (shape : list nat) :
  forallb is_basic_idx indices = true ->
  count_non_newaxis indices <= length shape ->
  let full := full_indices indices shape in
  let grid := basic_dims full shape in
  exists outs,
    expand_indices get_canonical_form_slice indices shape = Return outs
    /\ Forall2 (fun ar out =>
                  let '(axis, (start, stop, step)) := ar in
                  tshape out = grid
                  /\ nth_error grid axis = Some (range_length start stop step)
                  /\ forall p, valid_position grid p ->
                       tdata out p = (start + Z.of_nat (nth axis p 0%nat) * step)%Z)
               (slice_axes 0 full shape) outs.
Proof.
  intros Hb Hcount full grid.
  assert (Hfull : forallb is_basic_idx full = true)
    by (apply forallb_basic_full; exact Hb).
  assert (Hlayout : subspace_layout (map is_basic_idx full) shape
                    = (length shape, false)).
  { unfold subspace_layout. rewrite index_from_all_true; [reflexivity|].
    clear - Hfull. induction full as [|idx l IH]; [reflexivity|].
    cbn [forallb map] in *. apply andb_true_iff in Hfull.
    destruct Hfull as [-> Hl]. exact (IH Hl). }
  destruct (expand_loop_basic (length shape) (n_basic_indices full) full 0 shape 0
              Hfull) as [adv [Hrun [Hgrid Hbc]]].
  { unfold full. rewrite (count_non_newaxis_filled indices shape Hcount). lia. }
  { reflexivity. }
  cbn [repeat app] in Hgrid, Hbc. fold grid in Hgrid, Hbc.
  assert (Hlen : length grid = n_basic_indices full).
  { unfold grid. rewrite basic_dims_length. reflexivity. }
  exists (map (fun t => broadcast_to t grid) adv). split.
  - unfold expand_indices. fold full. rewrite Hlayout.
    rewrite (n_subspace_dims_basic full Hfull), Hrun. cbn [bind].
    unfold broadcast_arrays. destruct adv as [|t adv]; [reflexivity|].
    rewrite Hbc by discriminate. reflexivity.
  - apply Forall2_map_right. eapply Forall2_impl; [|exact Hgrid].
    intros [axis [[start stop] step]] t. cbn [grid_entry].
    intros [Hax [Hnth [Hshape Hdata]]].
    split; [reflexivity|]. split; [exact Hnth|].
    intros p Hp. cbn [tdata broadcast_to]. rewrite Hdata.
    assert (Hrank : length (tshape t) = n_basic_indices full).
    { rewrite Hshape, !length_app, !repeat_length. cbn [length]. lia. }
    rewrite broadcast_position_nth.
    + assert (Hd : nth axis (tshape t) 0 = range_length start stop step).
      { rewrite Hshape, app_nth2 by (rewrite repeat_length; lia).
        rewrite repeat_length, Nat.sub_diag. reflexivity. }
      rewrite Hd. destruct (range_length start stop step =? 1) eqn:E;
        [|reflexivity].
      apply Nat.eqb_eq in E.
      pose proof (valid_position_nth grid p Hp axis _ Hnth) as Hlt.
      replace (nth axis p 0) with 0 by lia. reflexivity.
    + rewrite Hrank, <- Hlen. exact (Forall2_length Hp).
    + rewrite Hrank. lia.
Qed.

(** *** Advanced indices alone are only broadcast *)

Lemma broadcast_position_length (s p : list nat) :
  length (broadcast_position s p) <= length s.
Proof.
  unfold broadcast_position. rewrite length_map, length_combine. lia.
Qed.

Lemma expand_loop_advanced (first_adv_idx n_subspace : nat) (ts : list (tensor Z)) :
  forall (d : nat) (shape_copy : list nat),
    length ts <= length shape_copy ->
    Forall (fun t => ndim t <= n_subspace) ts ->
    expand_loop get_canonical_form_slice first_adv_idx false 0 n_subspace
      d (map TensorIndex ts) shape_copy 0
    = Return (map (fun t => newaxes_back 0 (newaxes_front 0 t)) ts).
Proof.
  induction ts as [|t ts IH]; intros d shape_copy Hlen Hnd; [reflexivity|].
  inversion Hnd as [|t' ts' Ht Hts]; subst.
  destruct shape_copy as [|s shape_copy]; [cbn in Hlen; lia|].
  cbn [map expand_loop pop0 bind fst snd Nat.sub].
  assert (Hle : (ndim (newaxes_back 0 (newaxes_front 0 t)) <=? n_subspace + 0) = true).
  { apply Nat.leb_le. unfold ndim in *. cbn [tshape newaxes_back newaxes_front repeat app].
    rewrite app_nil_r. lia. }
  rewrite Hle. cbn [py_assert bind].
  rewrite IH; [reflexivity | cbn in Hlen; lia | exact Hts].
Qed.

(** With one integer array for every dimension and no basic index,
    [expand_indices] returns the arrays broadcast together, as
    [pt.broadcast_arrays] gives them: no axis is added. *)
Theorem expand_indices_advanced (ts : list (tensor Z)) (shape common : list nat) :
  length ts = length shape ->
  broadcast_shapes (map tshape ts) = Return common ->
  exists outs,
    expand_indices get_canonical_form_slice (map TensorIndex ts) shape = Return outs
    /\ Forall2 (fun t out =>
                  tshape out = common
                  /\ forall p, tdata out p = tdata t (broadcast_position (tshape t) p))
               ts outs.
Proof.
  intros Hlen Hcommon.
  set (expand := fun t : tensor Z => newaxes_back 0 (newaxes_front 0 t)).
  assert (Hcnn : count_non_newaxis (map TensorIndex ts) = length ts).
  { unfold count_non_newaxis. clear. induction ts as [|t ts IH]; [reflexivity|].
    cbn [map filter is_newaxis negb length]. rewrite IH. reflexivity. }
  assert (Hfull : full_indices (map TensorIndex ts) shape = map TensorIndex ts).
  { apply full_indices_short. rewrite Hcnn. lia. }
  assert (Hnb : n_basic_indices (map TensorIndex ts) = 0).
  { unfold n_basic_indices, count_true. clear.
    induction ts as [|t ts IH]; [reflexivity | exact IH]. }
  assert (Hmoved : snd (subspace_layout (map is_basic_idx (map TensorIndex ts)) shape)
                   = false).
  { unfold subspace_layout. destruct ts as [|t ts]; [reflexivity|].
    cbn [map is_basic_idx index_from Bool.eqb].
    assert (E : forall l : list (tensor Z),
               index_from true 0 (map is_basic_idx (map TensorIndex l)) = None).
    { induction l as [|u l IHl]; [reflexivity|].
      cbn [map is_basic_idx index_from Bool.eqb]. rewrite IHl. reflexivity. }
    rewrite E. reflexivity. }
  assert (Hshapes : map tshape (map expand ts) = map tshape ts).
  { rewrite map_map. apply map_ext. intros t. unfold expand.
    cbn [tshape newaxes_back newaxes_front repeat app]. apply app_nil_r. }
  exists (map (fun t => broadcast_to t common) (map expand ts)). split.
  - unfold expand_indices. rewrite Hfull, Hnb.
    destruct (subspace_layout (map is_basic_idx (map TensorIndex ts)) shape)
      as [fa moved]. cbn [snd] in Hmoved. subst moved.
    rewrite expand_loop_advanced.
    + cbn [bind]. unfold broadcast_arrays. fold expand. rewrite Hshapes, Hcommon.
      reflexivity.
    + lia.
    + apply Forall_forall. intros t Ht. unfold n_subspace_dims.
      apply list_max_ge. apply in_map_iff. exists (TensorIndex t).
      split; [reflexivity|]. apply filter_In. split; [|reflexivity].
      apply in_map. exact Ht.
  - rewrite map_map. apply Forall2_map_right.
    clear. induction ts as [|t ts IH]; constructor; [|exact IH].
    split; [reflexivity|]. intros p. unfold expand.
    cbn [tdata tshape broadcast_to newaxes_back newaxes_front repeat app skipn].
    rewrite app_nil_r. unfold ndim. cbn [tshape].
    rewrite firstn_all2 by apply broadcast_position_length. reflexivity.
Qed.

(** *** A placeholder without index argument *)

(** The rewriter and the derivation on an indexing node all of whose
    indices are constants of the operation, as in [stack(X, Y)[0]]: the
    node has the stack as its only input, the rewriter replaces it by a
    placeholder with an index count of 1, the join axis and the components
    as inputs, and [logprob_MixtureRV] fails on a placeholder with that
    count at its assertion that there is an index. *)
Theorem placeholder_without_index
    (subtensor_ops : Graph.Op -> bool)
    (constant_fold : Graph.variable -> option Z)
    (node stack : Graph.Apply) (joined_rvs : Graph.variable)
    (dt : string) (bc : list bool)
    (value : tensor V) (join_axis : input) (comp_rvs : list input) :
  subtensor_ops (Graph.op node) = true ->
  Graph.inputs node = [joined_rvs] ->
  Graph.out_types node = [Graph.TensorType dt bc] ->
  Graph.owner joined_rvs = Some stack ->
  Graph.op stack = Graph.MakeVector ->
  forallb Graph.is_measurable (Graph.inputs stack) = true ->
  (exists placeholder,
      Graph.find_measurable_index_mixture subtensor_ops constant_fold node
      = Return (Some [Graph.Out placeholder 0])
      /\ Graph.op placeholder = Graph.MixtureRV 1 dt bc
      /\ Graph.inputs placeholder = Graph.NoneConst :: Graph.inputs stack)
  /\ logprob_MixtureRV 1 [value] (join_axis :: comp_rvs) = Raise AssertionError.
Proof.
  intros Hops Hins Hout Hown Hop Hall. split; [|reflexivity].
  eexists. split; [|split].
  - exact (Graph.find_measurable_index_mixture_no_argument subtensor_ops
             constant_fold node joined_rvs stack dt bc Hops Hins Hout Hown Hop Hall).
  - reflexivity.
  - reflexivity.
Qed.

(** *** What every returned index array holds *)

(** Where the loop of [expand_indices] lays an index in the expanded index
    space: the range of a slice along one axis, the entries of an advanced
    index along the axes of the subspace, which start at an offset. *)
Inductive placement : Type :=
| SliceAt (axis : nat) (range : Z * Z * Z)
| AdvancedAt (offset : nat) (t : tensor Z).

(** The placements the loop of lines 144-207 decides, from position [d]
    on. *)
Fixpoint placements (first_adv_idx : nat) (moved_subspace : bool) (n_subspace : nat)
    (d : nat) (rest : list index) (shape_copy : list nat) (n_preceding_basics : nat)
  : list placement :=
  match rest with
  | [] => []
  | NewAxis :: r =>
      placements first_adv_idx moved_subspace n_subspace (S d) r shape_copy
                 (n_preceding_basics + 1)
  | Slice sl :: r =>
      SliceAt (if moved_subspace then n_subspace + n_preceding_basics
               else (if first_adv_idx <? d then n_subspace else 0)
                    + n_preceding_basics)
              (get_canonical_form_slice sl (hd 0 shape_copy))
      :: placements first_adv_idx moved_subspace n_subspace (S d) r
                    (tl shape_copy) (n_preceding_basics + 1)
  | TensorIndex t :: r =>
      AdvancedAt (if moved_subspace then 0 else n_preceding_basics) t
      :: placements first_adv_idx moved_subspace n_subspace (S d) r
                    (tl shape_copy) n_preceding_basics
  end.

(** What an array holds that is laid as a placement says, read at the
    positions of an index space of [n_output_dims] axes. *)
Definition holds (n_output_dims n_subspace : nat) (pl : placement) (out : tensor Z)
  : Prop :=
  forall p,
    length p = n_output_dims ->
    match pl with
    | SliceAt axis (start, stop, step) =>
        nth axis p 0 < range_length start stop step ->
        tdata out p = (start + Z.of_nat (nth axis p 0%nat) * step)%Z
    | AdvancedAt offset t =>
        tdata out p
        = tdata t (broadcast_position (tshape t)
                     (firstn n_subspace (skipn offset p)))
    end.

Lemma skipn_combine {A B : Type} (n : nat) :
  forall (l : list A) (l' : list B),
    skipn n (combine l l') = combine (skipn n l) (skipn n l').
Proof.
  induction n as [|n IH]; intros [|a l] [|b l']; cbn [skipn combine];
    try reflexivity.
  - destruct (skipn n l); reflexivity.
  - apply IH.
Qed.

Lemma firstn_combine {A B : Type} (n : nat) :
  forall (l : list A) (l' : list B),
    firstn n (combine l l') = combine (firstn n l) (firstn n l').
Proof.
  induction n as [|n IH]; intros [|a l] [|b l']; cbn [firstn combine];
    try reflexivity.
  rewrite IH. reflexivity.
Qed.

Lemma skipn_firstn_swap {A : Type} (m n : nat) (l : list A) :
  skipn m (firstn (m + n) l) = firstn n (skipn m l).
Proof.
  revert l. induction m as [|m IH]; intros l; [reflexivity|].
  destruct l as [|a l]; [cbn; rewrite firstn_nil; reflexivity|].
  cbn [Nat.add firstn skipn]. apply IH.
Qed.

Lemma skipn_add {A : Type} (m n : nat) (l : list A) :
  skipn m (skipn n l) = skipn (n + m) l.
Proof.
  revert l. induction n as [|n IH]; intros l; [reflexivity|].
  destruct l as [|a l]; [cbn; rewrite skipn_nil; reflexivity|].
  cbn [Nat.add skipn]. apply IH.
Qed.

(** The range of a slice laid along one axis. *)
Lemma slice_expanded_holds (axis k : nat) (start stop step : Z) (p : list nat) :
  length p = axis + 1 + k ->
  nth axis p 0 < range_length start stop step ->
  let expanded := newaxes_back k (newaxes_front axis (arange start stop step)) in
  tdata expanded (broadcast_position (tshape expanded) p)
  = (start + Z.of_nat (nth axis p 0%nat) * step)%Z.
Proof.
  intros Hlen Hlt expanded.
  set (len := range_length start stop step) in *.
  assert (Hshape : tshape expanded = repeat 1 axis ++ [len] ++ repeat 1 k).
  { unfold expanded. cbn [tshape newaxes_back newaxes_front arange].
    rewrite <- app_assoc. reflexivity. }
  assert (Hrank : length (tshape expanded) = axis + 1 + k).
  { rewrite Hshape, !length_app, !repeat_length. cbn [length]. lia. }
  assert (Hdata : forall q, tdata expanded q
                            = (start + Z.of_nat (nth axis q 0%nat) * step)%Z).
  { intros q. unfold expanded. cbn [tdata newaxes_back newaxes_front arange].
    unfold ndim. cbn [tshape newaxes_front arange].
    rewrite length_app, repeat_length. cbn [length].
    rewrite hd_skipn_firstn. reflexivity. }
  rewrite Hdata, broadcast_position_nth by lia.
  assert (Hd : nth axis (tshape expanded) 0 = len).
  { rewrite Hshape, app_nth2 by (rewrite repeat_length; lia).
    rewrite repeat_length, Nat.sub_diag. reflexivity. }
  rewrite Hd. destruct (len =? 1) eqn:E; [|reflexivity].
  apply Nat.eqb_eq in E. replace (nth axis p 0) with 0 by lia. reflexivity.
Qed.

(** The entries of an advanced index laid along the axes of the subspace,
    from an offset on. *)
Lemma advanced_expanded_holds (offset k n_subspace : nat) (t expanded : tensor Z)
    (p : list nat) :
  ndim t <= n_subspace ->
  length p = n_subspace + offset + k ->
  tshape expanded = repeat 1 offset ++ tshape t ++ repeat 1 k ->
  (forall q, tdata expanded q = tdata t (skipn offset (firstn (offset + ndim t) q))) ->
  tdata expanded (broadcast_position (tshape expanded) p)
  = tdata t (broadcast_position (tshape t) (firstn n_subspace (skipn offset p))).
Proof.
  intros Hnd Hlen Hshape Hdata. rewrite Hdata. f_equal.
  unfold broadcast_position. rewrite Hshape.
  rewrite !length_app, !repeat_length, length_firstn, length_skipn.
  unfold ndim in *. set (nd := length (tshape t)) in *.
  replace (length p - (offset + (nd + k))) with (n_subspace - nd) by lia.
  replace (Nat.min n_subspace (length p - offset) - nd) with (n_subspace - nd) by lia.
  rewrite firstn_map, skipn_map. f_equal.
  rewrite firstn_combine, skipn_combine.
  assert (Hs : skipn offset (firstn (offset + nd)
                               (repeat 1 offset ++ tshape t ++ repeat 1 k))
               = tshape t).
  { rewrite skipn_firstn_swap.
    replace offset with (length (repeat 1 offset)) at 1 by apply repeat_length.
    rewrite skipn_app, skipn_all, Nat.sub_diag. cbn [app skipn].
    apply firstn_length_app. }
  rewrite Hs. f_equal.
  rewrite skipn_firstn_swap, skipn_add.
  replace n_subspace with ((n_subspace - nd) + nd) at 3 by lia.
  rewrite skipn_firstn_swap, skipn_add. f_equal. f_equal. lia.
Qed.

Lemma expand_loop_entries (first_adv_idx : nat) (moved_subspace : bool)
    (n_basic n_subspace : nat) (rest : list index) :
  forall (d : nat) (shape_copy : list nat) (n_preceding_basics : nat)
         (adv : list (tensor Z)),
    n_preceding_basics + count_basic rest <= n_basic ->
    Forall (fun idx => index_ndim idx <= n_subspace) rest ->
    expand_loop get_canonical_form_slice first_adv_idx moved_subspace
      n_basic n_subspace d rest shape_copy n_preceding_basics = Return adv ->
    Forall2 (fun pl expanded =>
               forall common,
                 holds (n_subspace + n_basic) n_subspace pl
                       (broadcast_to expanded common))
            (placements first_adv_idx moved_subspace n_subspace d rest shape_copy
                        n_preceding_basics)
            adv.
Proof.
  induction rest as [|idx rest IH]; intros d shape_copy npb adv Hnb Hnd Hrun.
  - cbn in Hrun. injection Hrun as <-. constructor.
  - inversion Hnd as [|i r Hidx Hrest]; subst i r.
    rewrite count_basic_cons in Hnb.
    destruct idx as [|sl|t]; cbn [is_basic_idx] in Hnb; cbn [expand_loop] in Hrun.
    + cbn [placements]. apply (IH (S d) shape_copy (npb + 1) adv);
        [lia | exact Hrest | exact Hrun].
    + destruct shape_copy as [|s shape_copy]; [discriminate Hrun|].
      cbn [pop0 bind fst snd] in Hrun. cbn [placements hd tl].
      destruct (get_canonical_form_slice sl s) as [[start stop] step].
      apply Graph.bind_Return in Hrun. destruct Hrun as [u [_ Hrun]].
      apply Graph.bind_Return in Hrun. destruct Hrun as [more [Hmore Hrun]].
      injection Hrun as <-. constructor.
      * intros common p Hp Hlt. cbn [tdata broadcast_to].
        destruct moved_subspace.
        -- apply slice_expanded_holds; [lia | exact Hlt].
        -- apply slice_expanded_holds; [|exact Hlt].
           destruct (first_adv_idx <? d); lia.
      * apply (IH (S d) shape_copy (npb + 1) more); [lia | exact Hrest | exact Hmore].
    + destruct shape_copy as [|s shape_copy]; [discriminate Hrun|].
      cbn [pop0 bind fst snd] in Hrun. cbn [placements hd tl].
      apply Graph.bind_Return in Hrun. destruct Hrun as [u [_ Hrun]].
      apply Graph.bind_Return in Hrun. destruct Hrun as [more [Hmore Hrun]].
      injection Hrun as <-. cbn [index_ndim] in Hidx. constructor.
      * intros common p Hp. cbn [tdata broadcast_to].
        destruct moved_subspace.
        -- apply (advanced_expanded_holds 0 n_basic n_subspace t);
             [exact Hidx | lia | reflexivity | reflexivity].
        -- apply (advanced_expanded_holds npb (n_basic - npb) n_subspace t);
             [exact Hidx | lia | | ].
           ++ cbn [tshape newaxes_back newaxes_front]. rewrite <- app_assoc.
              reflexivity.
           ++ intros q. cbn [tdata newaxes_back newaxes_front]. unfold ndim.
              cbn [tshape newaxes_front]. rewrite length_app, repeat_length.
              reflexivity.
      * apply (IH (S d) shape_copy npb more); [lia | exact Hrest | exact Hmore].
Qed.

(** Every array [expand_indices] returns holds what the placement of its
    index says: the array of a slice reads the canonical range of the slice
    at the coordinate along the slice's axis, that is the number of basic
    indices before the slice, after the axes of the subspace when the
    subspace is moved to the front or lies before the slice; the array of an
    advanced index reads the index, broadcast, at the coordinates along the
    axes of the subspace, which start at the front when the subspace is
    moved and after the basic indices before the advanced ones
    otherwise. *)
Theorem expand_indices_entries (indices : list index) (shape sub : list nat) :
  length indices <= length shape ->
  broadcast_shapes (advanced_shapes indices) = Return sub ->
  let full := full_indices indices shape in
  let layout := subspace_layout (map is_basic_idx full) shape in
  let n_output_dims := n_subspace_dims full + n_basic_indices full in
  exists outs,
    expand_indices get_canonical_form_slice indices shape = Return outs
    /\ Forall2 (holds n_output_dims (n_subspace_dims full))
               (placements (fst layout) (snd layout) (n_subspace_dims full)
                           0 full shape 0)
               outs.
Proof.
  intros Hlen Hsub full layout n_output_dims.
  destruct (expand_indices_returns indices shape sub Hlen Hsub) as [outs Houts].
  exists outs. split; [exact Houts|].
  unfold expand_indices in Houts. fold full in Houts.
  unfold layout.
  destruct (subspace_layout (map is_basic_idx full) shape) as [fa moved].
  cbn [fst snd].
  apply Graph.bind_Return in Houts. destruct Houts as [adv [Hrun Hbc]].
  destruct (broadcast_arrays_shape adv outs Hbc) as [common [_ [-> _]]].
  apply Forall2_map_right.
  pose proof (expand_loop_entries fa moved (n_basic_indices full)
                (n_subspace_dims full) full 0 shape 0 adv) as Hentries.
  eapply Forall2_impl; [|apply Hentries].
  - intros pl expanded H. exact (H common).
  - cbn [Nat.add]. unfold n_basic_indices, count_basic. lia.
  - apply index_ndim_le_subspace.
  - exact Hrun.
Qed.

(** *** The shape of the returned index arrays *)

(** The shape of the expanded index of a placement, among [n_basic] basic
    indices and [n_subspace] axes of the subspace. *)
Definition placed_shape (n_basic n_subspace : nat) (pl : placement)
    (expanded : tensor Z) : Prop :=
  match pl with
  | SliceAt axis (start, stop, step) =>
      axis < n_subspace + n_basic
      /\ tshape expanded
         = repeat 1 axis ++ [range_length start stop step]
           ++ repeat 1 (n_subspace + n_basic - axis - 1)
  | AdvancedAt offset t =>
      offset <= n_basic
      /\ tshape expanded = repeat 1 offset ++ tshape t ++ repeat 1 (n_basic - offset)
  end.

Lemma expand_loop_placed (first_adv_idx : nat) (moved_subspace : bool)
    (n_basic n_subspace : nat) (rest : list index) :
  forall (d : nat) (shape_copy : list nat) (n_preceding_basics : nat)
         (adv : list (tensor Z)),
    n_preceding_basics + count_basic rest <= n_basic ->
    expand_loop get_canonical_form_slice first_adv_idx moved_subspace
      n_basic n_subspace d rest shape_copy n_preceding_basics = Return adv ->
    Forall2 (placed_shape n_basic n_subspace)
            (placements first_adv_idx moved_subspace n_subspace d rest shape_copy
                        n_preceding_basics)
            adv.
Proof.
  induction rest as [|idx rest IH]; intros d shape_copy npb adv Hnb Hrun.
  - cbn in Hrun. injection Hrun as <-. constructor.
  - rewrite count_basic_cons in Hnb.
    destruct idx as [|sl|t]; cbn [is_basic_idx] in Hnb; cbn [expand_loop] in Hrun.
    + cbn [placements]. apply (IH (S d) shape_copy (npb + 1) adv); [lia | exact Hrun].
    + destruct shape_copy as [|s shape_copy]; [discriminate Hrun|].
      cbn [pop0 bind fst snd] in Hrun. cbn [placements hd tl].
      destruct (get_canonical_form_slice sl s) as [[start stop] step].
      apply Graph.bind_Return in Hrun. destruct Hrun as [u [_ Hrun]].
      apply Graph.bind_Return in Hrun. destruct Hrun as [more [Hmore Hrun]].
      injection Hrun as <-. constructor.
      * cbn [placed_shape]. destruct moved_subspace.
        -- split; [lia|]. cbn [tshape newaxes_back newaxes_front arange].
           rewrite <- app_assoc. do 3 f_equal. lia.
        -- destruct (first_adv_idx <? d); (split; [lia|]);
             cbn [tshape newaxes_back newaxes_front arange];
             rewrite <- app_assoc; reflexivity.
      * apply (IH (S d) shape_copy (npb + 1) more); [lia | exact Hmore].
    + destruct shape_copy as [|s shape_copy]; [discriminate Hrun|].
      cbn [pop0 bind fst snd] in Hrun. cbn [placements hd tl].
      apply Graph.bind_Return in Hrun. destruct Hrun as [u [_ Hrun]].
      apply Graph.bind_Return in Hrun. destruct Hrun as [more [Hmore Hrun]].
      injection Hrun as <-. constructor.
      * cbn [placed_shape]. destruct moved_subspace.
        -- split; [lia|]. cbn [tshape newaxes_back repeat app]. rewrite Nat.sub_0_r.
           reflexivity.
        -- split; [lia|]. cbn [tshape newaxes_back newaxes_front].
           rewrite <- app_assoc. reflexivity.
      * apply (IH (S d) shape_copy npb more); [lia | exact Hmore].
Qed.

(** The placement of the index at a position of the list. *)
Lemma placements_slice (first_adv_idx : nat) (moved_subspace : bool)
    (n_subspace : nat) (pre : list index) :
  forall (d : nat) (shape_copy : list nat) (npb : nat) (sl : slice)
         (rest' : list index),
    In (SliceAt (if moved_subspace then n_subspace + (npb + count_basic pre)
                 else (if first_adv_idx <? d + length pre then n_subspace else 0)
                      + (npb + count_basic pre))
                (get_canonical_form_slice sl
                   (hd 0 (skipn (count_non_newaxis pre) shape_copy))))
       (placements first_adv_idx moved_subspace n_subspace d
                   (pre ++ Slice sl :: rest') shape_copy npb).
Proof.
  induction pre as [|idx pre IH]; intros d shape_copy npb sl rest'.
  - cbn [app placements length count_non_newaxis filter skipn].
    unfold count_basic, count_true. cbn [map filter length].
    rewrite !Nat.add_0_r. left. reflexivity.
  - rewrite count_basic_cons. unfold count_non_newaxis.
    destruct idx as [|sl0|t]; cbn [app placements is_basic_idx filter is_newaxis
                                     negb length].
    + specialize (IH (S d) shape_copy (npb + 1) sl rest').
      replace (S d + length pre) with (d + S (length pre)) in IH by lia.
      replace (npb + 1 + count_basic pre) with (npb + (1 + count_basic pre)) in IH
        by lia.
      exact IH.
    + right. specialize (IH (S d) (tl shape_copy) (npb + 1) sl rest').
      replace (S d + length pre) with (d + S (length pre)) in IH by lia.
      replace (npb + 1 + count_basic pre) with (npb + (1 + count_basic pre)) in IH
        by lia.
      destruct shape_copy; cbn [skipn tl] in *; [rewrite skipn_nil in *|]; exact IH.
    + right. specialize (IH (S d) (tl shape_copy) npb sl rest').
      replace (S d + length pre) with (d + S (length pre)) in IH by lia.
      cbn [Nat.add].
      destruct shape_copy; cbn [skipn tl] in *; [rewrite skipn_nil in *|]; exact IH.
Qed.

Lemma placements_advanced (first_adv_idx : nat) (moved_subspace : bool)
    (n_subspace : nat) (pre : list index) :
  forall (d : nat) (shape_copy : list nat) (npb : nat) (t : tensor Z)
         (rest' : list index),
    In (AdvancedAt (if moved_subspace then 0 else npb + count_basic pre) t)
       (placements first_adv_idx moved_subspace n_subspace d
                   (pre ++ TensorIndex t :: rest') shape_copy npb).
Proof.
  induction pre as [|idx pre IH]; intros d shape_copy npb t rest'.
  - cbn [app placements]. unfold count_basic, count_true. cbn [map filter length].
    rewrite Nat.add_0_r. left. reflexivity.
  - rewrite count_basic_cons.
    destruct idx as [|sl0|t0]; cbn [app placements is_basic_idx].
    + specialize (IH (S d) shape_copy (npb + 1) t rest').
      replace (npb + 1 + count_basic pre) with (npb + (1 + count_basic pre)) in IH
        by lia.
      exact IH.
    + right. specialize (IH (S d) (tl shape_copy) (npb + 1) t rest').
      replace (npb + 1 + count_basic pre) with (npb + (1 + count_basic pre)) in IH
        by lia.
      exact IH.
    + right. exact (IH (S d) (tl shape_copy) npb t rest').
Qed.

(** A length other than 1 among the lengths of the basic indices is the
    length of the range of a slice. *)
Lemma basic_dims_slice (rest : list index) :
  forall (shape_copy : list nat) (b v : nat),
    nth_error (basic_dims rest shape_copy) b = Some v ->
    v <> 1 ->
    exists pre sl rest',
      rest = pre ++ Slice sl :: rest'
      /\ count_basic pre = b
      /\ v = (let '(start, stop, step) :=
                get_canonical_form_slice sl
                  (hd 0 (skipn (count_non_newaxis pre) shape_copy)) in
              range_length start stop step).
Proof.
  induction rest as [|idx rest IH]; intros shape_copy b v Hb Hv.
  - destruct b; discriminate Hb.
  - destruct idx as [|sl|t]; cbn [basic_dims] in Hb.
    + destruct b as [|b]; cbn [nth_error] in Hb.
      * injection Hb as <-. congruence.
      * destruct (IH shape_copy b v Hb Hv) as [pre [sl [rest' [-> [Hc Hlen]]]]].
        exists (NewAxis :: pre), sl, rest'. split; [reflexivity|].
        split; [rewrite count_basic_cons; cbn [is_basic_idx]; lia|].
        exact Hlen.
    + destruct b as [|b]; cbn [nth_error] in Hb.
      * injection Hb as <-. exists [], sl, rest. split; [reflexivity|].
        split; reflexivity.
      * destruct (IH (tl shape_copy) b v Hb Hv) as [pre [sl' [rest' [-> [Hc Hlen]]]]].
        exists (Slice sl :: pre), sl', rest'. split; [reflexivity|].
        split; [rewrite count_basic_cons; cbn [is_basic_idx]; lia|].
        unfold count_non_newaxis in *. cbn [filter is_newaxis negb length].
        destruct shape_copy; cbn [skipn tl] in *;
          [rewrite skipn_nil in *|]; exact Hlen.
    + destruct (IH (tl shape_copy) b v Hb Hv) as [pre [sl' [rest' [-> [Hc Hlen]]]]].
      exists (TensorIndex t :: pre), sl', rest'. split; [reflexivity|].
      split; [rewrite count_basic_cons; cbn [is_basic_idx]; lia|].
      unfold count_non_newaxis in *. cbn [filter is_newaxis negb length].
      destruct shape_copy; cbn [skipn tl] in *;
        [rewrite skipn_nil in *|]; exact Hlen.
Qed.

Lemma advanced_shapes_In (l : list index) (s : list nat) :
  In s (advanced_shapes l) ->
  exists pre t rest', l = pre ++ TensorIndex t :: rest' /\ tshape t = s.
Proof.
  induction l as [|idx l IH]; [intros []|].
  destruct idx as [|sl|t]; cbn [advanced_shapes].
  - intros H. destruct (IH H) as [pre [t [rest' [-> Ht]]]].
    exists (NewAxis :: pre), t, rest'. split; [reflexivity | exact Ht].
  - intros H. destruct (IH H) as [pre [t [rest' [-> Ht]]]].
    exists (Slice sl :: pre), t, rest'. split; [reflexivity | exact Ht].
  - intros [<-|H].
    + exists [], t, l. split; reflexivity.
    + destruct (IH H) as [pre [t' [rest' [-> Ht]]]].
      exists (TensorIndex t :: pre), t', rest'. split; [reflexivity | exact Ht].
Qed.

(** Broadcasting, dimension by dimension from the last one. *)
Lemma broadcast_dims_pointwise (a : list nat) :
  forall (b r : list nat) (i : nat),
    broadcast_dims a b = Return r ->
    nth i r 1 = nth i a 1 \/ nth i r 1 = nth i b 1.
Proof.
  induction a as [|x a IH]; intros b r i H.
  - cbn in H. injection H as <-. right. reflexivity.
  - destruct b as [|y b].
    + cbn in H. injection H as <-. left. reflexivity.
    + cbn [broadcast_dims] in H. apply Graph.bind_Return in H.
      destruct H as [r' [Hr' H]].
      assert (Hcase : r = x :: r' \/ r = y :: r').
      { destruct (x =? y); [injection H as <-; left; reflexivity|].
        destruct (x =? 1); [injection H as <-; right; reflexivity|].
        destruct (y =? 1); [injection H as <-; left; reflexivity | discriminate H]. }
      destruct i as [|i].
      * destruct Hcase as [-> | ->]; [left | right]; reflexivity.
      * destruct (IH b r' i Hr') as [E|E];
          destruct Hcase as [-> | ->]; cbn [nth]; rewrite E; auto.
Qed.

Lemma broadcast_shapes_attained (shapes : list (list nat)) :
  forall (c : list nat) (i : nat),
    broadcast_shapes shapes = Return c ->
    nth i (rev c) 1 <> 1 ->
    exists s, In s shapes /\ nth i (rev s) 1 = nth i (rev c) 1.
Proof.
  induction shapes as [|s shapes IH]; intros c i H Hne.
  - cbn in H. injection H as <-. cbn in Hne. destruct i; congruence.
  - cbn [broadcast_shapes] in H. apply Graph.bind_Return in H.
    destruct H as [acc [Hacc H]]. unfold broadcast_shape in H.
    apply Graph.bind_Return in H. destruct H as [r [Hr H]]. injection H as <-.
    rewrite rev_involutive in *.
    destruct (broadcast_dims_pointwise _ _ _ i Hr) as [E|E].
    + exists s. split; [left; reflexivity | symmetry; exact E].
    + destruct (IH acc i Hacc) as [s' [Hin Hs']]; [congruence|].
      exists s'. split; [right; exact Hin | congruence].
Qed.

Lemma bto_rev_pointwise (a : list nat) :
  forall (t : list nat) (i : nat),
    bto_rev a t -> nth i a 1 = nth i t 1 \/ nth i a 1 = 1.
Proof.
  induction a as [|x a IH]; intros t i H.
  - right. destruct i; reflexivity.
  - destruct t as [|y t]; [destruct H|]. cbn in H. destruct H as [Hx Ha].
    destruct i as [|i]; [exact Hx | exact (IH t i Ha)].
Qed.

(** A shape every given shape broadcasts to, each dimension of which other
    than 1 is the dimension of a given shape, is the shape they broadcast
    to together. *)
Lemma broadcast_shapes_exact (shapes : list (list nat)) (c target : list nat) :
  broadcast_shapes shapes = Return c ->
  length c = length target ->
  Forall (fun s => broadcasts_to s target) shapes ->
  (forall i, nth i (rev target) 1 <> 1 ->
             exists s, In s shapes /\ nth i (rev s) 1 = nth i (rev target) 1) ->
  c = target.
Proof.
  intros Hc Hlen Hto Hattained.
  destruct (broadcast_shapes_complete shapes target Hto) as [c' [Hc' Hct]].
  rewrite Hc in Hc'. injection Hc' as <-.
  destruct (broadcast_shapes_sound shapes c Hc) as [Hsound _].
  rewrite <- (rev_involutive c), <- (rev_involutive target). f_equal.
  apply (nth_ext _ _ 1 1); [rewrite !length_rev; exact Hlen|].
  intros i _.
  destruct (bto_rev_pointwise _ _ i Hct) as [E|E]; [exact E|].
  destruct (Nat.eq_dec (nth i (rev target) 1) 1) as [Ht|Ht]; [congruence|].
  destruct (Hattained i Ht) as [s [Hin Hs]].
  rewrite Forall_forall in Hsound.
  destruct (bto_rev_pointwise _ _ i (Hsound s Hin)) as [E'|E']; congruence.
Qed.

(** Where the indices lie with respect to the first advanced index, when
    the advanced indices are not split. *)
Lemma layout_advanced_offset (full : list index) (shape : list nat) (fa : nat)
    (pre : list index) (t : tensor Z) (rest' : list index) :
  subspace_layout (map is_basic_idx full) shape = (fa, false) ->
  full = pre ++ TensorIndex t :: rest' ->
  count_basic pre = count_basic (firstn fa full).
Proof.
  intros Elayout E.
  pose proof (nth_error_types pre rest' (TensorIndex t)) as Hd.
  rewrite <- E in Hd. cbn [is_basic_idx] in Hd.
  destruct (subspace_layout_contiguous _ _ _ _ Elayout Hd) as [Hle [_ Hnone]].
  rewrite E, firstn_app.
  replace (fa - length pre) with 0 by lia. cbn [firstn]. rewrite app_nil_r.
  rewrite <- (firstn_skipn fa pre) at 1. rewrite count_basic_app.
  rewrite (count_basic_none (skipn fa pre)); [lia|].
  intros j Hj.
  assert (Hjlt : j < length (skipn fa pre)).
  { apply nth_error_Some. intros Hn. rewrite nth_error_map, Hn in Hj.
    discriminate Hj. }
  rewrite length_skipn in Hjlt.
  apply (Hnone (fa + j)); [lia | lia |].
  rewrite E, map_app, nth_error_app1 by (rewrite length_map; lia).
  rewrite <- Hj, !nth_error_map, nth_error_skipn. reflexivity.
Qed.

Lemma layout_slice_side (full : list index) (shape : list nat) (fa : nat)
    (moved : bool) (pre : list index) (sl : slice) (rest' : list index) :
  subspace_layout (map is_basic_idx full) shape = (fa, moved) ->
  full = pre ++ Slice sl :: rest' ->
  n_subspace_dims full = 0
  \/ (if fa <? length pre then count_basic (firstn fa full) <= count_basic pre
      else count_basic pre < count_basic (firstn fa full)).
Proof.
  intros Elayout E.
  pose proof (nth_error_types pre rest' (Slice sl)) as Hd.
  rewrite <- E in Hd. cbn [is_basic_idx] in Hd.
  destruct (nth_error (map is_basic_idx full) fa) as [[|]|] eqn:Efa.
  1,3: left; apply no_advanced_subspace;
       apply (subspace_layout_no_advanced _ _ _ _ Elayout);
       rewrite Efa; discriminate.
  right. destruct (fa <? length pre) eqn:Elt.
  - apply Nat.ltb_lt in Elt. rewrite E, firstn_app.
    replace (fa - length pre) with 0 by lia. cbn [firstn]. rewrite app_nil_r.
    apply count_basic_firstn_le.
  - apply Nat.ltb_ge in Elt.
    assert (Hne : length pre <> fa) by (intros <-; congruence).
    rewrite E, firstn_app, count_basic_app.
    rewrite firstn_all2 by lia.
    destruct (fa - length pre) as [|k] eqn:Ek; [lia|].
    cbn [firstn]. rewrite count_basic_cons. cbn [is_basic_idx]. lia.
Qed.

(** The dimensions of the target shape: the lengths of the basic indices
    with the subspace in place of the advanced indices. *)
Lemma target_nth_error (P : nat) (dims sub : list nat) (b : nat) :
  P <= length dims ->
  nth_error (firstn P dims ++ sub ++ skipn P dims)
            ((if P <=? b then length sub else 0) + b)
  = nth_error dims b.
Proof.
  intros HP. destruct (P <=? b) eqn:E.
  - apply Nat.leb_le in E.
    rewrite nth_error_app2 by (rewrite length_firstn; lia).
    rewrite length_firstn, Nat.min_l by lia.
    rewrite nth_error_app2 by lia.
    rewrite nth_error_skipn. f_equal. lia.
  - apply Nat.leb_gt in E. cbn [Nat.add].
    rewrite nth_error_app1 by (rewrite length_firstn; lia).
    rewrite nth_error_firstn.
    assert (Hlt : (b <? P) = true) by (apply Nat.ltb_lt; lia).
    rewrite Hlt. reflexivity.
Qed.

Lemma nth_rev_left (l : list nat) (j : nat) :
  j < length l -> nth (length l - 1 - j) (rev l) 1 = nth j l 1.
Proof.
  intros H. rewrite rev_nth by lia. f_equal. lia.
Qed.

Lemma nth_app_ones (l : list nat) (k i : nat) :
  nth i (l ++ repeat 1 k) 1 = nth i l 1.
Proof.
  destruct (Nat.lt_ge_cases i (length l)) as [H|H].
  - apply app_nth1. exact H.
  - rewrite app_nth2 by lia. rewrite nth_repeat.
    symmetry. apply nth_overflow. exact H.
Qed.

Lemma slice_shape_attains (n axis len : nat) :
  axis < n ->
  nth (n - 1 - axis) (rev (repeat 1 axis ++ [len] ++ repeat 1 (n - axis - 1))) 1
  = len.
Proof.
  intros H.
  assert (Hlen : length (repeat 1 axis ++ [len] ++ repeat 1 (n - axis - 1)) = n).
  { rewrite !length_app, !repeat_length. cbn [length]. lia. }
  rewrite <- Hlen at 1. rewrite nth_rev_left by lia.
  rewrite app_nth2 by (rewrite repeat_length; lia).
  rewrite repeat_length, Nat.sub_diag. reflexivity.
Qed.

Lemma advanced_shape_attains (n_basic offset : nat) (s : list nat) (i : nat) :
  offset <= n_basic ->
  nth (n_basic - offset + i)
      (rev (repeat 1 offset ++ s ++ repeat 1 (n_basic - offset))) 1
  = nth i (rev s) 1.
Proof.
  intros H. rewrite !rev_app_distr, !rev_repeat, <- app_assoc.
  replace (n_basic - offset + i)
    with (length (repeat 1 (n_basic - offset)) + i)
    by (rewrite repeat_length; reflexivity).
  rewrite app_nth2_plus. apply nth_app_ones.
Qed.

Lemma placed_slice_attains (n_basic n_subspace : nat) (pls : list placement)
    (adv : list (tensor Z)) (axis : nat) (start stop step : Z) :
  Forall2 (placed_shape n_basic n_subspace) pls adv ->
  In (SliceAt axis (start, stop, step)) pls ->
  axis < n_subspace + n_basic
  /\ exists s, In s (map tshape adv)
               /\ nth (n_subspace + n_basic - 1 - axis) (rev s) 1
                  = range_length start stop step.
Proof.
  intros Hplaced Hin.
  destruct (Forall2_In_l _ _ _ _ Hplaced Hin) as [e [He [Hax Hshape]]].
  split; [exact Hax|]. exists (tshape e). split; [apply in_map; exact He|].
  rewrite Hshape. apply slice_shape_attains. exact Hax.
Qed.

Lemma placed_advanced_attains (n_basic n_subspace : nat) (pls : list placement)
    (adv : list (tensor Z)) (offset : nat) (t : tensor Z) (i : nat) :
  Forall2 (placed_shape n_basic n_subspace) pls adv ->
  In (AdvancedAt offset t) pls ->
  exists s, In s (map tshape adv)
            /\ nth (n_basic - offset + i) (rev s) 1 = nth i (rev (tshape t)) 1.
Proof.
  intros Hplaced Hin.
  destruct (Forall2_In_l _ _ _ _ Hplaced Hin) as [e [He [Hoff Hshape]]].
  exists (tshape e). split; [apply in_map; exact He|].
  rewrite Hshape. apply advanced_shape_attains. exact Hoff.
Qed.

(** All the arrays [expand_indices] returns have the shape of the result
    of the indexing: the lengths of the basic indices (1 for a new axis, the
    length of its range for a slice) and the shape the advanced indices
    broadcast to, which comes first when the advanced indices are split by
    a basic index, and in place of the advanced indices otherwise. *)
Theorem expand_indices_shape (indices : list index) (shape sub : list nat) :
  length indices <= length shape ->
  broadcast_shapes (advanced_shapes indices) = Return sub ->
  let full := full_indices indices shape in
  let layout := subspace_layout (map is_basic_idx full) shape in
  let dims := basic_dims full shape in
  let P := count_basic (firstn (fst layout) full) in
  let target := if snd layout then sub ++ dims
                else firstn P dims ++ sub ++ skipn P dims in
  exists outs,
    expand_indices get_canonical_form_slice indices shape = Return outs
    /\ Forall (fun out => tshape out = target) outs.
Proof.
  intros Hlen Hsub full layout dims P target.
  unfold expand_indices. fold full.
  unfold target, P, layout.
  destruct (subspace_layout (map is_basic_idx full) shape) as [fa moved] eqn:Elayout.
  cbn [fst snd]. clear target P layout.
  assert (Hadv : advanced_shapes full = advanced_shapes indices)
    by apply advanced_shapes_app_slices.
  destruct (broadcast_shapes_sound _ _ Hsub) as [Hto Hsublen].
  rewrite <- Hadv in Hto, Hsublen, Hsub. rewrite advanced_ranks in Hsublen.
  fold (n_subspace_dims full) in Hsublen.
  set (nb := n_basic_indices full) in *. set (ns := n_subspace_dims full) in *.
  set (P := count_basic (firstn fa full)).
  set (target := if moved then sub ++ dims
                 else firstn P dims ++ sub ++ skipn P dims).
  assert (Hdims : length dims = nb) by apply basic_dims_length.
  assert (HP : P <= nb) by apply count_basic_firstn_le.
  assert (Hcnn : count_non_newaxis full = length shape)
    by (apply count_non_newaxis_full; exact Hlen).
  assert (Htarget : length target = ns + nb).
  { unfold target. destruct moved; rewrite !length_app;
      [|rewrite length_firstn, length_skipn]; lia. }
  destruct (expand_loop_shapes fa moved nb ns P sub dims target eq_refl Hsublen
              Hdims HP full 0 shape 0 [])
    as [adv [Hrun [Hrank Hbto]]].
  { reflexivity. }
  { reflexivity. }
  { rewrite Hcnn. lia. }
  { apply advanced_broadcast. exact Hto. }
  { intros Em pre t rest' E. subst moved. cbn [Nat.add].
    exact (layout_advanced_offset full shape fa pre t rest' Elayout E). }
  { intros Em pre sl rest' E. subst moved. cbn [Nat.add]. unfold target.
    destruct (layout_slice_side full shape fa false pre sl rest' Elayout E)
      as [Hns|Hside].
    - fold ns in Hns.
      assert (Hnil : sub = [])
        by (destruct sub; [reflexivity | cbn in Hsublen; lia]).
      rewrite Hnil, Hns. cbn [app]. rewrite firstn_skipn.
      destruct (fa <? length pre); reflexivity.
    - fold P in Hside. rewrite <- Hsublen.
      destruct (fa <? length pre).
      + rewrite <- (target_nth_error P dims sub (count_basic pre)) by lia.
        apply Nat.leb_le in Hside. rewrite Hside. reflexivity.
      + rewrite <- (target_nth_error P dims sub (count_basic pre)) by lia.
        apply Nat.leb_gt in Hside. rewrite Hside. reflexivity. }
  rewrite Hrun. cbn [bind]. unfold broadcast_arrays.
  assert (Hshapes : Forall (fun s => broadcasts_to s target) (map tshape adv)).
  { apply Forall_map. exact Hbto. }
  destruct (broadcast_shapes_complete _ _ Hshapes) as [common [Hc _]].
  rewrite Hc. cbn [bind].
  exists (map (fun t => broadcast_to t common) adv). split; [reflexivity|].
  destruct adv as [|e0 adv']; [constructor|].
  set (adv := e0 :: adv') in *.
  assert (Hcommon : common = target).
  { destruct (expanded_ranks_common indices shape adv Hlen Hrank) as [_ Hmax].
    fold full in Hmax. fold ns nb in Hmax.
    destruct (broadcast_shapes_sound _ _ Hc) as [_ Hclen].
    pose proof (expand_loop_placed fa moved nb ns full 0 shape 0 adv
                  ltac:(cbn [Nat.add]; unfold nb, n_basic_indices, count_basic; lia)
                  Hrun) as Hplaced.
    apply (broadcast_shapes_exact (map tshape adv) common target Hc);
      [lia | exact Hshapes |].
    intros i Hne.
    assert (Hi : i < ns + nb).
    { destruct (Nat.lt_ge_cases i (ns + nb)) as [H|H]; [exact H|].
      exfalso. apply Hne. apply nth_overflow. rewrite length_rev. lia. }
    set (j := ns + nb - 1 - i).
    assert (Hj : nth i (rev target) 1 = nth j target 1).
    { replace i with (length target - 1 - j) by (unfold j; lia).
      apply nth_rev_left. unfold j. lia. }
    rewrite Hj in *.
    assert (Hslice_at : forall b v,
               nth_error dims b = Some v -> v <> 1 ->
               j = (if moved then ns + b
                    else (if P <=? b then ns else 0) + b) ->
               exists s, In s (map tshape adv) /\ nth i (rev s) 1 = v).
    { intros b v Hb Hv Hjb.
      destruct (basic_dims_slice full shape b v Hb Hv)
        as [pre [sl [rest' [E [Hcount Hv']]]]].
      pose proof (placements_slice fa moved ns pre 0 shape 0 sl rest') as Hin.
      rewrite <- E in Hin. cbn [Nat.add] in Hin.
      destruct (get_canonical_form_slice sl
                  (hd 0 (skipn (count_non_newaxis pre) shape)))
        as [[start stop] step].
      destruct (placed_slice_attains nb ns _ adv _ start stop step Hplaced Hin)
        as [Hax [s [Hs Hnth]]].
      exists s. split; [exact Hs|]. rewrite Hv', <- Hnth. f_equal.
      rewrite Hcount. unfold j in Hjb.
      destruct moved; [lia|].
      destruct (layout_slice_side full shape fa false pre sl rest' Elayout E)
        as [Hns|Hside].
      - fold ns in Hns. rewrite Hns in *.
        destruct (fa <? length pre), (P <=? b); cbn [Nat.add] in *; lia.
      - fold P in Hside. rewrite Hcount in Hside.
        destruct (fa <? length pre).
        + apply Nat.leb_le in Hside. rewrite Hside in Hjb. lia.
        + apply Nat.leb_gt in Hside. rewrite Hside in Hjb. lia. }
    assert (Hsub_at : forall i',
               nth i' (rev sub) 1 = nth j target 1 ->
               i = nb - (if moved then 0 else P) + i' ->
               exists s, In s (map tshape adv)
                         /\ nth i (rev s) 1 = nth j target 1).
    { intros i' Hi' Hii.
      destruct (broadcast_shapes_attained _ sub i' Hsub) as [s0 [Hs0 Hnth0]];
        [congruence|].
      destruct (advanced_shapes_In full s0 Hs0) as [pre [t [rest' [E Ht]]]].
      pose proof (placements_advanced fa moved ns pre 0 shape 0 t rest') as Hin.
      rewrite <- E in Hin. cbn [Nat.add] in Hin.
      assert (Hoff : (if moved then 0 else count_basic pre)
                     = (if moved then 0 else P)).
      { destruct moved; [reflexivity|].
        exact (layout_advanced_offset full shape fa pre t rest' Elayout E). }
      rewrite Hoff in Hin.
      destruct (placed_advanced_attains nb ns _ adv _ t i' Hplaced Hin)
        as [s [Hs Hnth]].
      exists s. split; [exact Hs|]. rewrite Hii, Hnth, Ht, Hnth0. exact Hi'. }
    unfold target in Hne |- *. unfold target in Hsub_at.
    destruct moved.
    - destruct (Nat.lt_ge_cases j ns) as [Hjs|Hjs].
      + apply (Hsub_at (ns - 1 - j)); [|unfold j in *; lia].
        rewrite app_nth1 by lia.
        rewrite <- Hsublen. apply nth_rev_left. lia.
      + rewrite app_nth2 in Hne |- * by lia. rewrite Hsublen in *.
        apply (Hslice_at (j - ns)); [|exact Hne|lia].
        apply nth_error_nth'. lia.
    - destruct (Nat.lt_ge_cases j P) as [HjP|HjP].
      + assert (E : nth j (firstn P dims ++ sub ++ skipn P dims) 1 = nth j dims 1).
        { rewrite app_nth1 by (rewrite length_firstn; lia).
          rewrite <- (firstn_skipn P dims) at 2.
          rewrite app_nth1 by (rewrite length_firstn; lia). reflexivity. }
        rewrite E in *. apply (Hslice_at j); [|exact Hne|].
        * apply nth_error_nth'. lia.
        * assert (Hlt : (P <=? j) = false) by (apply Nat.leb_gt; lia).
          rewrite Hlt. reflexivity.
      + destruct (Nat.lt_ge_cases j (P + ns)) as [Hjs|Hjs].
        * apply (Hsub_at (ns - 1 - (j - P))); [|unfold j in *; lia].
          rewrite app_nth2 by (rewrite length_firstn; lia).
          rewrite length_firstn, Nat.min_l by lia.
          rewrite app_nth1 by lia.
          rewrite <- Hsublen. apply nth_rev_left. lia.
        * assert (E : nth j (firstn P dims ++ sub ++ skipn P dims) 1
                      = nth (j - ns) dims 1).
          { rewrite app_nth2 by (rewrite length_firstn; lia).
            rewrite length_firstn, Nat.min_l by lia.
            rewrite app_nth2 by lia.
            rewrite <- (firstn_skipn P dims) at 2.
            rewrite (app_nth2 (firstn P dims)) by (rewrite length_firstn; lia).
            rewrite length_firstn, Nat.min_l by lia. f_equal. lia. }
          rewrite E in *. apply (Hslice_at (j - ns)); [|exact Hne|].
          -- apply nth_error_nth'. lia.
          -- assert (Hle : (P <=? j - ns) = true) by (apply Nat.leb_le; lia).
             rewrite Hle. lia. }
  rewrite Hcommon. apply Forall_forall. intros out Hin.
  apply in_map_iff in Hin. destruct Hin as [e [<- _]]. reflexivity.
Qed.

End LogProb.

(** ** The derivations on example values *)

Definition example_canonical_form (sl : slice) (s : nat) : Z * Z * Z :=
  (0%Z, Z.of_nat s, 1%Z).

Definition example_rewriter (rewrites : list rewrite) (max_use_ratio : nat)
    (x : rv_graph) : rv_graph := x.

Fixpoint component_name (rv : rv_graph) : nat :=
  match rv with
  | Component name => name
  | NewAxisFront rv | FirstItem rv | AdvancedIndex rv _ => component_name rv
  end.

(** An element-wise density: the entry of the value less the name of the
    component. *)
Definition example_logprob (rv : rv_graph) (value : tensor Z) : tensor Z :=
  mkTensor (tshape value)
           (fun p => (tdata value p - Z.of_nat (component_name rv))%Z).

Definition example_shape_tuple (rv : rv_graph) : list nat := [1].

Definition vector_of (l : list Z) : tensor Z :=
  mkTensor [length l] (fun p => nth (hd 0 p) l 0%Z).

Definition scalar_of {A : Type} (a : A) : tensor A := mkTensor [] (fun _ => a).

Definition example_index : tensor Z := vector_of [0; 1; 1; 0; 1]%Z.
Definition example_value : tensor Z := vector_of [10; 20; 30; 40; 50]%Z.

Definition example_bcast_indices : list (tensor Z) :=
  match expand_indices example_canonical_form [TensorIndex example_index] [2] with
  | Return l => l
  | Raise _ => []
  end.

Definition example_on_axis : tensor Z :=
  hd example_index example_bcast_indices.

Lemma expand_indices_broadcast_witness :
  exists outs common,
    expand_indices example_canonical_form
      [Slice (mkSlice None None None); TensorIndex example_index] [4; 6]
    = Return outs
    /\ length outs = 2
    /\ Forall (fun t => tshape t = common) outs
    /\ length common = 2.
Proof.
  destruct (expand_indices_broadcast example_canonical_form
              [Slice (mkSlice None None None); TensorIndex example_index] [4; 6]
              (Nat.le_refl 2))
    as [_ [Hshape Hreturns]].
  destruct (Hreturns [5] eq_refl) as [outs Houts].
  destruct (Hshape outs Houts) as [Hlen [common [Hall Hrank]]].
  exists outs, common. repeat split; assumption.
Defined.


(** Two scalar indices into a join of matrices, and a vector index into a
    join along the axis [-1]: placeholders of the vector regime with a
    constant join axis for which no log-density is derived. *)
Definition example_matrix_shape (rv : rv_graph) : list nat := [2; 3].


Lemma logprob_MixtureRV_scalar_witness :
  (exists out,
      logprob_MixtureRV Z 0%Z Z.add (-1)%Z example_canonical_form example_rewriter
        example_logprob example_shape_tuple 2 [scalar_of 7%Z]
        [InNone; InTensor false (scalar_of 1%Z);
         InComponent (Component 0); InComponent (Component 1)]
      = Return out
      /\ tdata out [] = 6%Z)
  /\ (exists out,
         logprob_MixtureRV Z 0%Z Z.add (-1)%Z example_canonical_form example_rewriter
           example_logprob example_shape_tuple 2 [example_value]
           [InTensor true (scalar_of 0%Z); InTensor false (scalar_of 1%Z);
            InComponent (Component 0); InComponent (Component 1)]
         = Return out
         /\ tshape out = [5]
         /\ tdata out [2] = 29%Z).
Proof.
  destruct (logprob_MixtureRV_scalar Z 0%Z Z.add (-1)%Z example_canonical_form
              example_rewriter example_logprob example_shape_tuple
              Z.add_0_l Z.add_0_r
              (scalar_of 7%Z) false (scalar_of 1%Z) [Component 0; Component 1]
              eq_refl)
    as [Hnone _].
  destruct (logprob_MixtureRV_scalar Z 0%Z Z.add (-1)%Z example_canonical_form
              example_rewriter example_logprob example_shape_tuple
              Z.add_0_l Z.add_0_r
              example_value false (scalar_of 1%Z) [Component 0; Component 1]
              eq_refl)
    as [_ Haxis].
  split.
  - assert (Hs : Forall (fun comp => tshape (example_logprob comp (scalar_of 7%Z)) = [])
                        [Component 0; Component 1]).
    { repeat constructor. }
    destruct (Hnone [] Hs) as [out [Hout [_ [_ Hsel]]]].
    exists out. split; [exact Hout|].
    destruct (Hsel 1 (example_logprob (Component 1) (scalar_of 7%Z)) eq_refl eq_refl)
      as [Hval _].
    rewrite Hval; [reflexivity | constructor].
  - assert (Hs : Forall (fun comp =>
                           tshape (example_logprob comp
                                     (mkTensor (insert_at 0 1 (tshape example_value))
                                        (fun p => tdata example_value (remove_at 0 p))))
                           = [1; 5])
                        [Component 0; Component 1]).
    { repeat constructor. }
    assert (Hpos : axis_position (item (scalar_of 0%Z)) (S (ndim example_value)) 0).
    { left. split; [cbn; lia | reflexivity]. }
    assert (Hpos' : axis_position (item (scalar_of 0%Z)) (length [1; 5]) 0).
    { left. split; [cbn; lia | reflexivity]. }
    destruct (Haxis (scalar_of 0%Z) 0 0 [1; 5] Hpos Hs Hpos' eq_refl)
      as [out [Hout [Hshape [_ Hsel]]]].
    exists out. split; [exact Hout|].
    split; [apply Hshape; discriminate|].
    match type of Hsel with
    | forall k d, nth_error ?ds k = Some d -> _ =>
        destruct (Hsel 1 (nth 1 ds (scalar_of 0%Z)) eq_refl eq_refl) as [Hval _]
    end.
    rewrite Hval; [reflexivity|].
    constructor; [|constructor]. cbn. lia.
Defined.

Lemma conditional_logprob_selects_witness :
  (exists out,
      logprob_switch_mixture Z example_logprob [example_value]
        (mkTensor [5] (fun _ => true)) (Component 1) (Component 2) = Return out
      /\ tshape out = [5]
      /\ forall p, valid_position [5] p ->
                   tdata out p = tdata (example_logprob (Component 1) example_value) p)
  /\ logprob_ifelse Z example_logprob [example_value] (scalar_of false)
       (Component 1) (Component 2)
     = Return (example_logprob (Component 2) example_value).
Proof.
  destruct (conditional_logprob_selects Z example_logprob example_value
              (mkTensor [5] (fun _ => true)) (scalar_of false)
              (Component 1) (Component 2))
    as [_ [Hswitch Hifelse]].
  split; [|exact Hifelse].
  destruct (Hswitch eq_refl eq_refl) as [out [Hout [Hshape Hdata]]].
  exists out. split; [exact Hout|]. split; [exact Hshape|].
  intros p Hp. exact (Hdata p Hp).
Defined.

(** ** The further properties on example values *)

(** An index vector with an entry that is the position of no component. *)
Definition example_stray_index : tensor Z := vector_of [0; 7; 1]%Z.
Definition example_stray_value : tensor Z := vector_of [10; 20; 30]%Z.

Definition example_stray_bcast : list (tensor Z) :=
  match expand_indices example_canonical_form [TensorIndex example_stray_index] [2] with
  | Return l => l
  | Raise _ => []
  end.

Definition example_stray_on_axis : tensor Z :=
  hd example_stray_index example_stray_bcast.

Lemma logprob_MixtureRV_scalar_out_of_range_witness :
  exists out,
    logprob_MixtureRV Z 0%Z Z.add (-1)%Z example_canonical_form example_rewriter
      example_logprob example_shape_tuple 2 [scalar_of 7%Z]
      [InNone; InTensor false (scalar_of 5%Z);
       InComponent (Component 0); InComponent (Component 1)]
    = Return out
    /\ tdata out [] = 0%Z.
Proof.
  set (densities := [example_logprob (Component 0) (scalar_of 7%Z);
                     example_logprob (Component 1) (scalar_of 7%Z)]).
  assert (Hd : Forall2 (fun comp d =>
                          component_density Z example_logprob (scalar_of 7%Z) None comp
                          = Return d)
                       [Component 0; Component 1] densities).
  { repeat constructor. }
  assert (Hs : Forall (fun d : tensor Z => tshape d = []) densities).
  { repeat constructor. }
  assert (Hrange : (item (scalar_of 5%Z) < 0
                    \/ Z.of_nat (length [Component 0; Component 1])
                       <= item (scalar_of 5%Z))%Z).
  { right. cbn. lia. }
  destruct (logprob_MixtureRV_scalar_out_of_range Z 0%Z Z.add (-1)%Z
              example_canonical_form example_rewriter example_logprob
              example_shape_tuple Z.add_0_r
              (scalar_of 7%Z) (scalar_of 7%Z) InNone None false (scalar_of 5%Z)
              [Component 0; Component 1] densities []
              eq_refl eq_refl eq_refl Hd Hs (fun H => nil_cons (eq_sym H)) Hrange)
    as [out [Hout [_ Hzero]]].
  exists out. split; [exact Hout|]. apply Hzero. constructor.
Defined.

Lemma logprob_MixtureRV_vector_unwritten_witness :
  exists out,
    logprob_MixtureRV Z 0%Z Z.add (-1)%Z example_canonical_form example_rewriter
      example_logprob example_shape_tuple 2 [example_stray_value]
      [InNone; InTensor false example_stray_index;
       InComponent (Component 0); InComponent (Component 1)]
    = Return out
    /\ tdata out [1] = (-1)%Z.
Proof.
  assert (Hrank : tshape example_stray_on_axis <> []) by discriminate.
  assert (Hranks : Forall (fun rv => length example_stray_bcast
                                     <= rv_ndim example_shape_tuple rv)
                          [NewAxisFront (Component 0); NewAxisFront (Component 1)]).
  { repeat constructor. }
  destruct (logprob_MixtureRV_vector_unwritten Z 0%Z Z.add (-1)%Z
              example_canonical_form example_rewriter example_logprob
              example_shape_tuple
              example_stray_value InNone [InTensor false example_stray_index]
              [Component 0; Component 1] [TensorIndex example_stray_index]
              0%Z [NewAxisFront (Component 0); NewAxisFront (Component 1)] [2]
              example_stray_bcast example_stray_on_axis
              (or_intror (ex_intro _ false
                            (ex_intro _ example_stray_index
                                      (conj eq_refl (Nat.lt_0_succ 0)))))
              eq_refl eq_refl eq_refl (Z.le_refl 0) eq_refl Hrank (Nat.le_refl 1)
              Hranks)
    as [out [Hout Hstray]].
  exists out. split; [exact Hout|]. apply Hstray.
  - constructor; [|constructor]. cbn. lia.
  - right. cbn. lia.
Defined.

Lemma expand_indices_errors_witness :
  expand_indices example_canonical_form
    [Slice (mkSlice None None None); Slice (mkSlice None None None)] [4]
  = Raise IndexError.
Proof.
  apply (proj1 (expand_indices_errors example_canonical_form
                  [Slice (mkSlice None None None); Slice (mkSlice None None None)]
                  [4])).
  cbn. lia.
Defined.


Lemma logprob_MixtureRV_scalar_round_trip_witness :
  exists out,
    logprob_MixtureRV Z 0%Z Z.add (-1)%Z example_canonical_form example_rewriter
      example_logprob example_shape_tuple 2 [example_value]
      [InTensor true (scalar_of 0%Z); InTensor false (scalar_of 1%Z);
       InComponent (Component 0); InComponent (Component 1)]
    = Return out
    /\ tshape out = [5]
    /\ tdata out [2] = 29%Z.
Proof.
  assert (Hshapes : Forall (fun comp =>
            tshape (example_logprob comp
                      (mkTensor (insert_at 0 1 (tshape example_value))
                                (fun p => tdata example_value (remove_at 0 p))))
            = insert_at 0 1 (tshape example_value))
            [Component 0; Component 1]).
  { repeat constructor. }
  destruct (logprob_MixtureRV_scalar_round_trip Z 0%Z Z.add (-1)%Z
              example_canonical_form example_rewriter example_logprob
              example_shape_tuple Z.add_0_l Z.add_0_r
              example_value (scalar_of 0%Z) false (scalar_of 1%Z)
              [Component 0; Component 1] 0 eq_refl eq_refl Hshapes
              (fun H => nil_cons (eq_sym H)))
    as [out [Hout [Hshape Hsel]]].
  exists out. split; [exact Hout|]. split; [exact Hshape|].
  rewrite (Hsel 1 (Component 1) eq_refl eq_refl [2]); [reflexivity|].
  constructor; [|constructor]. cbn. lia.
Defined.

Lemma expand_indices_basic_witness :
  exists outs,
    expand_indices example_canonical_form
      [Slice (mkSlice None None None); NewAxis] [4; 6] = Return outs
    /\ length outs = 2
    /\ Forall (fun out => tshape out = [4; 1; 6]) outs.
Proof.
  assert (Hcount : count_non_newaxis [Slice (mkSlice None None None); NewAxis]
                   <= length [4; 6]) by (cbn; lia).
  destruct (expand_indices_basic example_canonical_form
              [Slice (mkSlice None None None); NewAxis] [4; 6] eq_refl Hcount)
    as [outs [Hrun Hgrid]].
  exists outs. split; [exact Hrun|]. split.
  - rewrite <- (Forall2_length Hgrid). reflexivity.
  - apply Forall_forall. intros out Hin.
    destruct (Forall2_In_r _ _ _ out Hgrid Hin) as [[axis [[start stop] step]] [_ H]].
    exact (proj1 H).
Defined.

Lemma expand_indices_advanced_witness :
  exists outs,
    expand_indices example_canonical_form [TensorIndex example_index] [2]
    = Return outs
    /\ Forall2 (fun t out =>
                  tshape out = [5]
                  /\ forall p, tdata out p = tdata t (broadcast_position (tshape t) p))
               [example_index] outs.
Proof.
  exact (expand_indices_advanced example_canonical_form [example_index] [2] [5]
           eq_refl eq_refl).
Defined.

Lemma placeholder_without_index_witness :
  (exists placeholder,
      Graph.find_measurable_index_mixture Graph.example_subtensor_ops
        Graph.example_constant_fold
        (Graph.mkApply Graph.Subtensor [Graph.stacked] [Graph.float_scalar])
      = Return (Some [Graph.Out placeholder 0])
      /\ Graph.op placeholder = Graph.MixtureRV 1 "float64" []
      /\ Graph.inputs placeholder
         = Graph.NoneConst :: [Graph.X_rv; Graph.Y_rv])
  /\ logprob_MixtureRV Z 0%Z Z.add (-1)%Z example_canonical_form example_rewriter
       example_logprob example_shape_tuple 1 [scalar_of 7%Z]
       [InNone; InComponent (Component 0); InComponent (Component 1)]
     = Raise AssertionError.
Proof.
  exact (placeholder_without_index Z 0%Z Z.add (-1)%Z example_canonical_form
           example_rewriter example_logprob example_shape_tuple
           Graph.example_subtensor_ops Graph.example_constant_fold
           (Graph.mkApply Graph.Subtensor [Graph.stacked] [Graph.float_scalar])
           (Graph.mkApply Graph.MakeVector [Graph.X_rv; Graph.Y_rv]
                          [Graph.float_vector])
           Graph.stacked "float64"%string [] (scalar_of 7%Z) InNone
           [InComponent (Component 0); InComponent (Component 1)]
           eq_refl eq_refl eq_refl eq_refl eq_refl eq_refl).
Defined.

Lemma logprob_MixtureRV_negative_axis_witness :
  logprob_MixtureRV Z 0%Z Z.add (-1)%Z example_canonical_form example_rewriter
    example_logprob example_shape_tuple 2 [example_value]
    [InTensor true (scalar_of (-1)%Z); InTensor false example_index;
     InComponent (Component 0); InComponent (Component 1)]
  = Raise IndexError.
Proof.
  assert (Hregime : vector_regime [InTensor false example_index]).
  { right. exists false, example_index. split; [reflexivity | cbn; lia]. }
  assert (Hidx : Forall2 input_index [InTensor false example_index]
                         [TensorIndex example_index]).
  { constructor; constructor. }
  assert (Hranks : Forall (fun t : tensor Z => tshape t <> []) example_bcast_indices).
  { repeat constructor. discriminate. }
  exact (logprob_MixtureRV_negative_axis Z 0%Z Z.add (-1)%Z example_canonical_form
           example_rewriter example_logprob example_shape_tuple
           example_value (scalar_of (-1)%Z) [InTensor false example_index]
           [TensorIndex example_index] (Component 0) [Component 1]
           example_bcast_indices Hregime Hidx eq_refl Hranks (Nat.le_refl 1)
           eq_refl).
Defined.

Lemma expand_indices_entries_witness :
  exists outs,
    expand_indices example_canonical_form
      [Slice (mkSlice None None None); TensorIndex example_index] [4; 6]
    = Return outs
    /\ Forall2 (holds 2 1)
               [SliceAt 0 (0, 4, 1)%Z; AdvancedAt 1 example_index] outs.
Proof.
  exact (expand_indices_entries example_canonical_form
           [Slice (mkSlice None None None); TensorIndex example_index] [4; 6] [5]
           (Nat.le_refl 2) eq_refl).
Defined.

Lemma expand_indices_shape_witness :
  exists outs,
    expand_indices example_canonical_form
      [TensorIndex example_index; Slice (mkSlice None None None);
       TensorIndex example_index] [2; 4; 2]
    = Return outs
    /\ Forall (fun out => tshape out = [5; 4]) outs.
Proof.
  exact (expand_indices_shape example_canonical_form
           [TensorIndex example_index; Slice (mkSlice None None None);
            TensorIndex example_index] [2; 4; 2] [5]
           (Nat.le_refl 3) eq_refl).
Defined.

End Tensor.
